(** * IntelliNote: the answer pipeline and the document normalizer

    A shallow embedding of [services/geminiService.ts] (the retry wrapper
    [callApiWithRetry], [extractQuestionsFromFile], [parseAiResponse],
    [processSingleQuestion] and the worker pool of [generateAnswers]), of
    [utils/fileParser.ts] ([parsePdf] with its image de-duplication, the
    other parsers, [parseNoteFiles] and [extractTextFromFile]), of the
    re-sort of the results in [App.tsx] and of [base64ToBuffer] in
    [utils/fileGenerator.ts], with the properties the specification states
    about them and further properties of the code. *)

From Stdlib Require Import ZArith QArith Lia Ascii String List Bool.
From Stdlib Require Import DecimalString DecimalNat.
From stdpp Require Import gmap strings list fin_maps.
From Equations Require Import Equations.
Import ListNotations.

Local Open Scope string_scope.
Local Open Scope list_scope.

Set Warnings "-abstract-large-number".

(** ** JavaScript strings

    A string is a sequence of code units; the embedding uses [string], whose
    characters are the code units below 256. *)

Module Js.

Definition LF : ascii := ascii_of_nat 10.
Definition nl : string := String LF EmptyString.

(** [s.startsWith(p)] *)
Definition startsWith (s p : string) : bool := String.prefix p s.

(** [s.includes(sub)]: some suffix of [s] starts with [sub]. *)
Fixpoint includes (s sub : string) : bool :=
  String.prefix sub s ||
  match s with
  | EmptyString => false
  | String _ s' => includes s' sub
  end.

(** [s.split(sep)] for a separator of one character: the pieces between
    its occurrences; never the empty array. *)
Fixpoint split (sep : ascii) (s : string) : list string :=
  match s with
  | EmptyString => [EmptyString]
  | String c s' =>
      if Ascii.eqb c sep then EmptyString :: split sep s'
      else match split sep s' with
           | [] => [String c EmptyString]
           | l :: ls => String c l :: ls
           end
  end.

(** [s.split('\n')] *)
Definition splitLines (s : string) : list string := split LF s.

(** [pieces.join(sep)] *)
Fixpoint join (sep : string) (ls : list string) : string :=
  match ls with
  | [] => EmptyString
  | [l] => l
  | l :: ls' => l +:+ sep +:+ join sep ls'
  end.

(** [lines.join('\n')] *)
Definition joinLines (ls : list string) : string := join nl ls.

(** White space and line terminators of ECMAScript among the code units
    below 256: TAB, LF, VT, FF, CR, SP and NBSP. *)
Definition isWhiteSpace (c : ascii) : bool :=
  let n := nat_of_ascii c in
  (9 <=? n)%nat && (n <=? 13)%nat || (n =? 32)%nat || (n =? 160)%nat.

Fixpoint trimStart (s : string) : string :=
  match s with
  | EmptyString => EmptyString
  | String c s' => if isWhiteSpace c then trimStart s' else s
  end.

Fixpoint trimEnd (s : string) : string :=
  match s with
  | EmptyString => EmptyString
  | String c s' =>
      match trimEnd s' with
      | EmptyString => if isWhiteSpace c then EmptyString else String c EmptyString
      | t => String c t
      end
  end.

(** [s.trim()] *)
Definition trim (s : string) : string := trimEnd (trimStart s).

(** [s.toUpperCase()] on the letters a-z. *)
Definition upcase (c : ascii) : ascii :=
  let n := nat_of_ascii c in
  if (97 <=? n)%nat && (n <=? 122)%nat then ascii_of_nat (n - 32) else c.

Fixpoint toUpperCase (s : string) : string :=
  match s with
  | EmptyString => EmptyString
  | String c s' => String (upcase c) (toUpperCase s')
  end.

(** [s.substring(0, n)] *)
Definition substring0 (n : nat) (s : string) : string := String.substring 0 n s.

Fixpoint dropChars (n : nat) (s : string) : string :=
  match n, s with
  | O, _ => s
  | S n', String _ s' => dropChars n' s'
  | S _, EmptyString => EmptyString
  end.

(** [s.replace(pat, rep)] with a string pattern: the first occurrence only. *)
Fixpoint replaceFirst (s pat rep : string) : string :=
  if String.prefix pat s then rep +:+ dropChars (String.length pat) s
  else match s with
       | EmptyString => EmptyString
       | String c s' => String c (replaceFirst s' pat rep)
       end.

(** Truthiness of a string: the empty string is falsy. *)
Definition truthy (s : string) : bool :=
  match s with EmptyString => false | _ => true end.

(** [\d] *)
Definition isDigit (c : ascii) : bool :=
  let n := nat_of_ascii c in (48 <=? n)%nat && (n <=? 57)%nat.

(** The longest run of digits at the head of [s], and what follows it. *)
Fixpoint spanDigits (s : string) : string * string :=
  match s with
  | EmptyString => (EmptyString, EmptyString)
  | String c s' =>
      if isDigit c then let (d, r) := spanDigits s' in (String c d, r)
      else (EmptyString, s)
  end.

(** [parseInt(d, 10)] on a string of digits. *)
Fixpoint parseDigits (acc : nat) (d : string) : nat :=
  match d with
  | EmptyString => acc
  | String c d' => parseDigits (10 * acc + (nat_of_ascii c - 48)) d'
  end.

Definition parseInt10 (d : string) : nat := parseDigits 0 d.

(** Every character of [s] satisfies [P]. *)
Fixpoint allChars (P : ascii -> bool) (s : string) : bool :=
  match s with
  | EmptyString => true
  | String c s' => P c && allChars P s'
  end.

(** [s] holds no line feed: it is one line. *)
Definition singleLine (s : string) : bool :=
  allChars (fun c => negb (Ascii.eqb c LF)) s.

(** [String(n)] for a natural number: its decimal digits. *)
Definition ofNat (n : nat) : string := NilEmpty.string_of_uint (Nat.to_uint n).

End Js.

(** ** Values thrown and promises settled *)

(** A thrown value: an [Error] instance, with its [message] and the
    [cause] it wraps when it wraps one, or any other value, with its
    [message] property when it has one. *)
#[warnings="-register-all"]
Inductive JsError : Type :=
| ErrorObject (message : string) (cause : option JsError)
| Thrown (message : option string).

(** [error instanceof Error] *)
Definition instanceofError (e : JsError) : bool :=
  match e with ErrorObject _ _ => true | Thrown _ => false end.

(** [error.message] *)
Definition message (e : JsError) : option string :=
  match e with ErrorObject m _ => Some m | Thrown m => m end.

(** [error.cause] *)
Definition cause (e : JsError) : option JsError :=
  match e with ErrorObject _ c => c | Thrown _ => None end.

(** [new Error(msg)] *)
Definition newError (msg : string) : JsError := ErrorObject msg None.

(** The [TypeError] of reading property [prop] of [undefined]. *)
Definition typeError (prop : string) : JsError :=
  newError ("Cannot read properties of undefined (reading '" +:+ prop +:+ "')").

(** How an awaited promise settles. *)
Inductive Outcome (T : Type) : Type :=
| Resolved (v : T)
| Rejected (e : JsError).
Arguments Resolved {T} v.
Arguments Rejected {T} e.

(** ** [callApiWithRetry] *)

(** What one run of the wrapper did: how it settled, how many times the
    wrapped call was invoked, and the delays it slept, in order. *)
Record RetryRun (T : Type) : Type := MkRetryRun {
  settled : Outcome T;
  attempts : nat;
  sleeps : list Z
}.
Arguments MkRetryRun {T} settled attempts sleeps.
Arguments settled {T} r.
Arguments attempts {T} r.
Arguments sleeps {T} r.

(** The marker ["status":"RESOURCE_EXHAUSTED"], double quotes included. *)
Definition RESOURCE_EXHAUSTED_status : string :=
  String (ascii_of_nat 34) "status" +:+ String (ascii_of_nat 34) ":" +:+
  String (ascii_of_nat 34) "RESOURCE_EXHAUSTED" +:+ String (ascii_of_nat 34) "".

(** [error.message && (error.message.includes(marker)
    || error.message.includes('429'))] *)
Definition isRateLimitError (e : JsError) : bool :=
  match message e with
  | None => false
  | Some m =>
      Js.truthy m && (Js.includes m RESOURCE_EXHAUSTED_status || Js.includes m "429")
  end.

Definition rateLimitExceededMessage : string :=
  "API rate limit exceeded after multiple retries.".

Section Retry.
Context {T : Type}.
(** The wrapped call: how its [n]-th invocation (counted from 0) settles. *)
Variable apiCall : nat -> Outcome T.
Variable maxRetries : Z.
Variable initialDelay : Z.
(** [Math.random() * 1000] drawn after the [n]-th invocation, in
    milliseconds. *)
Variable jitter : nat -> Z.

(** One iteration of [while (true)], entered with the counter [retries]
    after [attempt] invocations of the wrapped call. The counter only grows
    and the loop is left as soon as it exceeds [maxRetries]. *)
Equations? retryLoop (retries : Z) (attempt : nat) : RetryRun T
  by wf (Z.to_nat (maxRetries + 1 - retries)) lt :=
retryLoop retries attempt with apiCall attempt := {
  | Resolved v => MkRetryRun (Resolved v) (S attempt) []
  | Rejected error with isRateLimitError error := {
    | true with Z_gt_dec (retries + 1) maxRetries := {
      | left _ =>
          MkRetryRun (Rejected (newError rateLimitExceededMessage)) (S attempt) []
      | right _ =>
          let delay := (initialDelay * 2 ^ (retries + 1 - 1) + jitter attempt)%Z in
          let r := retryLoop (retries + 1)%Z (S attempt) in
          MkRetryRun (settled r) (attempts r) (delay :: sleeps r) }
    | false => MkRetryRun (Rejected error) (S attempt) [] } }.
Proof. lia. Qed.

Definition callApiWithRetry : RetryRun T := retryLoop 0%Z 0%nat.

(** The delay slept after the [i]-th invocation failed with a rate-limit
    signal: [initialDelay * 2^(retries - 1)] plus the jitter, where
    [retries = i + 1]. *)
Definition backoff (i : nat) : Z := (initialDelay * 2 ^ Z.of_nat i + jitter i)%Z.

(** The first [K] invocations of the wrapped call fail with a rate-limit
    signal. *)
Definition rateLimitedUpTo (K : nat) : Prop :=
  forall i, (i < K)%nat ->
    exists e, apiCall i = Rejected e /\ isRateLimitError e = true.
End Retry.

(** ** The data model ([types.ts]) *)

Module Source.
Record t : Type := mk { uri : string; title : string }.
End Source.

Module Question.
Record t : Type := mk { text : string; marks : option string }.
End Question.

Module Result.
Record t : Type := mk {
  question : string;
  marks : option string;
  answer : string;
  imageUrl : option string;
  sources : list Source.t
}.
End Result.

Module ImagePart.
Record t : Type := mk { data : string; mimeType : string }.
End ImagePart.

Module ParsedNotes.
Record t : Type := mk { text : string; images : list ImagePart.t }.
End ParsedNotes.

(** ** The generative backend, as far as the pipeline reads its answers *)

Record WebChunk : Type := { web_uri : option string; web_title : option string }.
Record GroundingChunk : Type := { web : option WebChunk }.
Record GroundingMetadata : Type := { groundingChunks : option (list GroundingChunk) }.
Record Candidate : Type := { groundingMetadata : option GroundingMetadata }.

(** A [GenerateContentResponse]: its [text] getter, which is [undefined]
    when the response carries no text, and its candidates. *)
Record GenerateContentResponse : Type := {
  responseText : option string;
  candidates : option (list Candidate)
}.

Record Image : Type := { imageBytes : option string }.
Record GeneratedImage : Type := { image : option Image }.
Record GenerateImagesResponse : Type := {
  generatedImages : option (list GeneratedImage)
}.

Inductive Model : Type := liteModel | proModel | imageModel.

(** The two prompts, each a fixed template; a prompt is represented by the
    values interpolated into its template. *)
Inductive Contents : Type :=
| WebSearchCheckPrompt (notesPrefix question : string)
| AnswerPrompt (question : string) (marks : option string) (notesText : string)
    (customInstructions : string) (needsWebSearch : bool)
    (parts : list ImagePart.t).

Record GenerateContentParams : Type := {
  gc_model : Model;
  gc_contents : Contents;
  gc_googleSearch : bool
}.

Record GenerateImagesParams : Type := {
  gi_model : Model;
  gi_prompt : string;
  gi_numberOfImages : nat;
  gi_outputMimeType : string
}.

Inductive Request : Type :=
| GenerateContent (p : GenerateContentParams)
| GenerateImages (p : GenerateImagesParams).

(** One wrapped call as it was issued: the request and the number of times
    [callApiWithRetry] invoked the backend with it. *)
Record ApiCall : Type := { request : Request; invocations : nat }.

(** The backend as one question sees it: how the [n]-th invocation of a
    request settles, and the random jitter of the retry delays. *)
Record Backend : Type := {
  generateContent : GenerateContentParams -> nat -> Outcome GenerateContentResponse;
  generateImages : GenerateImagesParams -> nat -> Outcome GenerateImagesResponse;
  random1000 : nat -> Z
}.

(** ** Asynchronous code of the service

    A task is how an [async] body settles together with the wrapped calls
    it issued on the way, in order. *)

Definition Task (A : Type) : Type := Outcome A * list ApiCall.

Definition ret {A : Type} (a : A) : Task A := (Resolved a, []).

Definition throw {A : Type} (e : JsError) : Task A := (Rejected e, []).

Definition bind {A B : Type} (m : Task A) (k : A -> Task B) : Task B :=
  match m with
  | (Resolved a, l) => let (o, l') := k a in (o, l ++ l')
  | (Rejected e, l) => (Rejected e, l)
  end.

(** [try { m } catch (error) { h error }] *)
Definition tryCatch {A : Type} (m : Task A) (h : JsError -> Task A) : Task A :=
  match m with
  | (Resolved a, l) => (Resolved a, l)
  | (Rejected e, l) => let (o, l') := h e in (o, l ++ l')
  end.

Notation "x <- m ;; k" := (bind m (fun x => k))
  (at level 100, m at next level, right associativity).

(** Reading a property of a value that may be [undefined]. *)
Definition readFrom {A : Type} (o : option A) (prop : string) : Task A :=
  match o with Some a => ret a | None => throw (typeError prop) end.

(** [await callApiWithRetry(() => call)], with the default [maxRetries = 3]
    and [initialDelay = 1000]. *)
Definition awaitApi {T : Type} (b : Backend) (req : Request)
    (apiCall : nat -> Outcome T) : Task T :=
  let run := callApiWithRetry apiCall 3 1000 (random1000 b) in
  (settled run, [{| request := req; invocations := attempts run |}]).

(** ** [parseAiResponse] *)

Definition isDirectiveLine (line : string) : bool :=
  Js.startsWith line "USE_IMAGE:" || Js.startsWith line "GENERATE_IMAGE_PROMPT:".

(** The pair [(answer, imageDirective)]. *)
Definition parseAiResponse (text : string) : string * option string :=
  let lines := Js.splitLines text in
  let directiveLine := List.find isDirectiveLine lines in
  let answerLines := List.filter (fun line => negb (isDirectiveLine line)) lines in
  (Js.trim (Js.joinLines answerLines),
   match directiveLine with
   | Some line => if Js.truthy line then Some (Js.trim line) else None
   | None => None
   end).

(** ** [processSingleQuestion] *)

(** [x || ''] *)
Definition orEmpty (x : option string) : string :=
  match x with Some s => s | None => EmptyString end.

(** [{ uri: chunk.web?.uri || '', title: chunk.web?.title || '' }] *)
Definition chunkSource (chunk : GroundingChunk) : Source.t :=
  match web chunk with
  | Some w => Source.mk (orEmpty (web_uri w)) (orEmpty (web_title w))
  | None => Source.mk EmptyString EmptyString
  end.

(** [candidates?.[0]?.groundingMetadata?.groundingChunks?.map(..).filter(..) || []] *)
Definition groundingSources (response : GenerateContentResponse) : list Source.t :=
  match candidates response with
  | Some (c :: _) =>
      match groundingMetadata c with
      | Some gm =>
          match groundingChunks gm with
          | Some chunks =>
              List.filter (fun source => Js.truthy (Source.uri source))
                          (List.map chunkSource chunks)
          | None => []
          end
      | None => []
      end
  | _ => []
  end.

(** [imageDirective.match(/\[Image (\d+)\]/)]: the digits captured by the
    leftmost match. *)
Fixpoint matchImageRef (s : string) : option string :=
  let here :=
    if String.prefix "[Image " s then
      let (digits, rest) := Js.spanDigits (Js.dropChars 7 s) in
      if Js.truthy digits && String.prefix "]" rest then Some digits else None
    else None in
  match here with
  | Some digits => Some digits
  | None =>
      match s with
      | EmptyString => None
      | String _ s' => matchImageRef s'
      end
  end.

Definition dataUri (mimeType data : string) : string :=
  "data:" +:+ mimeType +:+ ";base64," +:+ data.

(** A template hole filled with a value that may be [undefined]. *)
Definition interpolate (x : option string) : string :=
  match x with Some s => s | None => "undefined" end.

Definition imageRequest (imagePrompt : string) : GenerateImagesParams :=
  {| gi_model := imageModel; gi_prompt := imagePrompt;
     gi_numberOfImages := 1; gi_outputMimeType := "image/jpeg" |}.

(** The third stage ([let imageUrl = null; if ... else if ...]): the value of
    [imageUrl] when it is over. *)
Definition resolveImageUrl (b : Backend) (notesData : ParsedNotes.t)
    (imageDirective : option string) : Task (option string) :=
  match imageDirective with
  | None => ret None
  | Some directive =>
      if Js.startsWith directive "USE_IMAGE:" then
        match matchImageRef directive with
        | Some digits =>
            let imageIndex := (Z.of_nat (Js.parseInt10 digits) - 1)%Z in
            if (0 <=? imageIndex)%Z &&
               (imageIndex <? Z.of_nat (length (ParsedNotes.images notesData)))%Z
            then
              match nth_error (ParsedNotes.images notesData) (Z.to_nat imageIndex) with
              | Some reusedImage =>
                  ret (Some (dataUri (ImagePart.mimeType reusedImage)
                                     (ImagePart.data reusedImage)))
              | None => ret None
              end
            else ret None
        | None => ret None
        end
      else if Js.startsWith directive "GENERATE_IMAGE_PROMPT:" then
        let imagePrompt :=
          Js.trim (Js.replaceFirst directive "GENERATE_IMAGE_PROMPT:" "") in
        if Js.truthy imagePrompt then
          tryCatch
            (imageResponse <-
               awaitApi b (GenerateImages (imageRequest imagePrompt))
                        (generateImages b (imageRequest imagePrompt)) ;;
             match generatedImages imageResponse with
             | Some (g :: _) =>
                 img <- readFrom (image g) "imageBytes" ;;
                 ret (Some ("data:image/jpeg;base64," +:+ interpolate (imageBytes img)))
             | _ => ret None
             end)
            (fun _ => ret None)
        else ret None
      else ret None
  end.

Definition genericFailureAnswer : string :=
  "Sorry, an error occurred while generating the answer for this question. Please try again.".

Definition rateLimitAnswer : string :=
  "Could not generate an answer due to API rate limits. Please try again later or process fewer questions at once.".

(** [error instanceof Error && (error.message.includes('RESOURCE_EXHAUSTED')
    || error.message.includes('rate limit'))] *)
Definition mentionsRateLimit (error : JsError) : bool :=
  match error with
  | ErrorObject m _ => Js.includes m "RESOURCE_EXHAUSTED" || Js.includes m "rate limit"
  | Thrown _ => false
  end.

Definition webSearchCheckRequest (notesData : ParsedNotes.t) (question : string)
    : GenerateContentParams :=
  {| gc_model := liteModel;
     gc_contents :=
       WebSearchCheckPrompt (Js.substring0 8000 (ParsedNotes.text notesData)) question;
     gc_googleSearch := false |}.

Definition answerRequest (notesData : ParsedNotes.t) (question : string)
    (marks : option string) (customInstructions : string) (needsWebSearch : bool)
    : GenerateContentParams :=
  {| gc_model := proModel;
     gc_contents :=
       AnswerPrompt question marks (ParsedNotes.text notesData) customInstructions
                    needsWebSearch (ParsedNotes.images notesData);
     gc_googleSearch := needsWebSearch |}.

(** The body of the [try] block. *)
Definition processSingleQuestion_try (b : Backend) (notesData : ParsedNotes.t)
    (questionObj : Question.t) (customInstructions : string) : Task Result.t :=
  let question := Question.text questionObj in
  let marks := Question.marks questionObj in
  webSearchCheckResponse <-
    awaitApi b (GenerateContent (webSearchCheckRequest notesData question))
             (generateContent b (webSearchCheckRequest notesData question)) ;;
  checkText <- readFrom (responseText webSearchCheckResponse) "trim" ;;
  let needsWebSearch := Js.includes (Js.toUpperCase (Js.trim checkText)) "NO" in
  let req := answerRequest notesData question marks customInstructions needsWebSearch in
  textResponse <- awaitApi b (GenerateContent req) (generateContent b req) ;;
  fullText <- readFrom (responseText textResponse) "split" ;;
  let (answer, imageDirective) := parseAiResponse fullText in
  let sources := groundingSources textResponse in
  imageUrl <- resolveImageUrl b notesData imageDirective ;;
  ret (Result.mk question marks answer imageUrl sources).

(** The [catch] block. *)
Definition processSingleQuestion_catch (questionObj : Question.t)
    (error : JsError) : Task Result.t :=
  let errorMessage :=
    if mentionsRateLimit error then rateLimitAnswer else genericFailureAnswer in
  ret (Result.mk (Question.text questionObj) (Question.marks questionObj)
                 errorMessage None []).

Definition processSingleQuestion (b : Backend) (notesData : ParsedNotes.t)
    (questionObj : Question.t) (customInstructions : string) : Task Result.t :=
  tryCatch (processSingleQuestion_try b notesData questionObj customInstructions)
           (processSingleQuestion_catch questionObj).

(** The directive line that selects the [n]-th image of the notes. *)
Definition useImageLine (n : nat) : string :=
  "USE_IMAGE: [Image " +:+ Js.ofNat n +:+ "]".

(** The directive line that asks for a new image; [rest] is what follows
    the prefix. *)
Definition generateImageLine (rest : string) : string :=
  "GENERATE_IMAGE_PROMPT:" +:+ rest.

(** The wrapped calls of a log that are image-generation calls. *)
Definition imageGenerationCalls (calls : list ApiCall) : list ApiCall :=
  List.filter
    (fun c => match request c with GenerateImages _ => true | _ => false end)
    calls.

(** The first two stages succeed for [questionObj]: the probe resolves with
    a response that has text, and the synthesis call then made resolves with
    [textResponse], whose text is [fullText]. *)
Definition synthesisYields (b : Backend) (notesData : ParsedNotes.t)
    (questionObj : Question.t) (customInstructions : string)
    (textResponse : GenerateContentResponse) (fullText : string) : Prop :=
  exists webSearchCheckResponse checkText,
    settled (callApiWithRetry
               (generateContent b
                  (webSearchCheckRequest notesData (Question.text questionObj)))
               3 1000 (random1000 b)) = Resolved webSearchCheckResponse /\
    responseText webSearchCheckResponse = Some checkText /\
    settled (callApiWithRetry
               (generateContent b
                  (answerRequest notesData (Question.text questionObj)
                     (Question.marks questionObj) customInstructions
                     (Js.includes (Js.toUpperCase (Js.trim checkText)) "NO")))
               3 1000 (random1000 b)) = Resolved textResponse /\
    responseText textResponse = Some fullText.

(** ** [generateAnswers]: the worker pool *)

Definition CONCURRENCY_LIMIT : nat := 2.

Definition criticalFailureAnswer : string :=
  "A critical error occurred while processing this question.".

(** The probe or the synthesis stage of a question fails with [error]: the
    wrapped call rejects, or the response it resolves with has no text to
    call [trim] or [split] on. *)
Definition earlyStageFails (b : Backend) (notesData : ParsedNotes.t)
    (questionObj : Question.t) (customInstructions : string)
    (error : JsError) : Prop :=
  let question := Question.text questionObj in
  let probe :=
    callApiWithRetry (generateContent b (webSearchCheckRequest notesData question))
                     3 1000 (random1000 b) in
  settled probe = Rejected error \/
  exists webSearchCheckResponse,
    settled probe = Resolved webSearchCheckResponse /\
    match responseText webSearchCheckResponse with
    | None => error = typeError "trim"
    | Some checkText =>
        let req :=
          answerRequest notesData question (Question.marks questionObj)
            customInstructions
            (Js.includes (Js.toUpperCase (Js.trim checkText)) "NO") in
        let synthesis :=
          callApiWithRetry (generateContent b req) 3 1000 (random1000 b) in
        settled synthesis = Rejected error \/
        exists textResponse,
          settled synthesis = Resolved textResponse /\
          responseText textResponse = None /\ error = typeError "split"
    end.

(** The result of the [catch] block of [processSingleQuestion] for
    [error]. *)
Definition fallbackResult (questionObj : Question.t) (error : JsError) : Result.t :=
  Result.mk (Question.text questionObj) (Question.marks questionObj)
            (if mentionsRateLimit error then rateLimitAnswer else genericFailureAnswer)
            None [].

(** A worker is suspended at [await processSingleQuestion(.., question, ..)],
    or has left its [while] loop. [k] counts the [shift()] calls made before
    the one that handed out [question]: it names the backend behaviour this
    question meets and is not a value of the program. *)
Inductive Worker : Type :=
| Awaiting (k : nat) (question : Question.t)
| Returned.

(** The variables the workers share, the calls to [onProgress] and the
    wrapped backend calls so far. *)
Record Pool : Type := MkPool {
  questionQueue : list Question.t;
  shifted : nat;
  resultsMap : gmap string Result.t;
  completedCount : nat;
  onProgress : list (nat * nat);
  apiCalls : list ApiCall;
  workers : list Worker
}.

Definition isAwaiting (w : Worker) : bool :=
  match w with Awaiting _ _ => true | Returned => false end.

Definition awaitingCount (ws : list Worker) : nat :=
  length (List.filter isAwaiting ws).

Section Pipeline.
Variable notesData : ParsedNotes.t.
Variable questions : list Question.t.
Variable customInstructions : string.
(** The backend as met by the question handed out by the [k]-th [shift()]. *)
Variable backend : nat -> Backend.
(** The number of workers; [generateAnswers] runs [CONCURRENCY_LIMIT]. *)
Variable poolSize : nat.

Definition totalQuestions : nat := length questions.

(** The head of [while (questionQueue.length > 0)]: the worker takes the
    first queued question and suspends on it, or returns. The queue holds
    questions only, so [if (!question) continue] never fires. *)
Definition enterLoop (p : Pool) : Worker * Pool :=
  match questionQueue p with
  | [] => (Returned, p)
  | question :: rest =>
      (Awaiting (shifted p) question,
       MkPool rest (S (shifted p)) (resultsMap p) (completedCount p)
              (onProgress p) (apiCalls p) (workers p))
  end.

(** [Array(n).fill(null).map(worker)]: each worker in turn runs up to its
    first suspension. *)
Fixpoint startWorkers (n : nat) (p : Pool) : Pool :=
  match n with
  | O => p
  | S n' =>
      let (w, p') := enterLoop p in
      startWorkers n'
        (MkPool (questionQueue p') (shifted p') (resultsMap p') (completedCount p')
                (onProgress p') (apiCalls p') (workers p' ++ [w]))
  end.

Definition initialPool : Pool :=
  startWorkers poolSize (MkPool questions 0 ∅ 0 [] [] []).

(** The result a worker stores for the question it awaited: the one
    [processSingleQuestion] resolves with, or the one of the worker's own
    [catch]. *)
Definition storedResult (k : nat) (question : Question.t) : Result.t :=
  match fst (processSingleQuestion (backend k) notesData question customInstructions) with
  | Resolved result => result
  | Rejected _ =>
      Result.mk (Question.text question) (Question.marks question)
                criticalFailureAnswer None []
  end.

(** Worker [w] is resumed: it stores the result, counts, reports progress
    and goes back to the head of its loop. *)
Definition resume (w : nat) (p : Pool) : option Pool :=
  match workers p !! w with
  | Some (Awaiting k question) =>
      let calls :=
        snd (processSingleQuestion (backend k) notesData question customInstructions) in
      let completed := S (completedCount p) in
      let p1 :=
        MkPool (questionQueue p) (shifted p)
               (<[Question.text question := storedResult k question]> (resultsMap p))
               completed
               (onProgress p ++ [(completed, totalQuestions)])
               (apiCalls p ++ calls)
               (workers p) in
      let (w', p2) := enterLoop p1 in
      Some (MkPool (questionQueue p2) (shifted p2) (resultsMap p2) (completedCount p2)
                   (onProgress p2) (apiCalls p2) (<[w := w']> (workers p2)))
  | _ => None
  end.

(** One step of the event loop: some suspended worker is resumed. *)
Definition step (p p' : Pool) : Prop := exists w, resume w p = Some p'.

(** [await Promise.all(workers)] is over. *)
Definition allReturned (p : Pool) : Prop :=
  Forall (fun w => w = Returned) (workers p).

(** [questions.map(q => resultsMap.get(q.text)!)]; [None] is [undefined]. *)
Definition resultsOf (p : Pool) : list (option Result.t) :=
  List.map (fun q => resultsMap p !! Question.text q) questions.

(** A pool the event loop can reach in which every worker has returned. *)
Definition finalPool (p : Pool) : Prop := rtc step initialPool p /\ allReturned p.

(** The pool resolves with [results], having called [onProgress] as
    [progress] lists and the backend as [calls] lists, question by question
    in the order of completion. *)
Definition poolReturns (results : list (option Result.t))
    (progress : list (nat * nat)) (calls : list ApiCall) : Prop :=
  exists p, finalPool p /\ resultsOf p = results /\
            onProgress p = progress /\ apiCalls p = calls.

(** The text of the [j]-th question is the text of no other question. *)
Definition uniqueText (j : nat) : Prop :=
  forall q, questions !! j = Some q ->
    forall k q', questions !! k = Some q' ->
      Question.text q' = Question.text q -> k = j.

(** What holds of the pool whenever the event loop is idle. *)
Definition awaited (p : Pool) (k : nat) : Prop :=
  exists w q, workers p !! w = Some (Awaiting k q).

Definition PoolInv (p : Pool) : Prop :=
  questionQueue p = drop (shifted p) questions /\
  shifted p <= length questions /\
  (forall w k q,
      workers p !! w = Some (Awaiting k q) ->
      k < shifted p /\ questions !! k = Some q) /\
  completedCount p + awaitingCount (workers p) = shifted p /\
  onProgress p =
    List.map (fun c => (c, totalQuestions)) (seq 1 (completedCount p)) /\
  (Returned ∈ workers p -> questionQueue p = []) /\
  (forall t r,
      resultsMap p !! t = Some r ->
      exists k q, questions !! k = Some q /\ Question.text q = t /\
                  r = storedResult k q) /\
  (forall k q,
      questions !! k = Some q -> k < shifted p ->
      awaited p k \/ is_Some (resultsMap p !! Question.text q)) /\
  (completedCount p = 0 -> apiCalls p = []).

(** The run in which the workers are resumed in the order [schedule] lists;
    [None] when it names a worker that is not suspended. *)
Fixpoint runSchedule (schedule : list nat) (p : Pool) : option Pool :=
  match schedule with
  | [] => Some p
  | w :: schedule' =>
      match resume w p with
      | Some p' => runSchedule schedule' p'
      | None => None
      end
  end.

End Pipeline.

(** [generateAnswers(notesData, questions, customInstructions, onProgress)]
    resolves with [results]: the pool of [CONCURRENCY_LIMIT] workers does. *)
Definition generateAnswers (notesData : ParsedNotes.t) (questions : list Question.t)
    (customInstructions : string) (backend : nat -> Backend)
    (results : list (option Result.t)) (progress : list (nat * nat))
    (calls : list ApiCall) : Prop :=
  poolReturns notesData questions customInstructions backend CONCURRENCY_LIMIT
              results progress calls.

(** ** [parsePdf] ([utils/fileParser.ts]) *)

(** The browser's canvas, as far as the parser depends on it. *)
Record Dom : Type := {
  (** whether [canvas.getContext('2d')] gives a context *)
  getContext2d : bool;
  (** [canvas.toDataURL('image/jpeg')] of a canvas of the given width and
      height on which the given pixel data was put, or the error thrown on
      the way *)
  jpegDataURL : nat -> nat -> list Z -> Outcome string
}.

(** An image object of a page: [{ width, height, data }]. *)
Record ImageObject : Type := {
  img_width : nat;
  img_height : nat;
  img_data : option (list Z)
}.

(** An entry of the operator list: [paintImageXObject] with its first
    argument, or any other operator. *)
Inductive PdfOperator : Type :=
| paintImageXObject (imgKey : string)
| otherOperator.

(** A page that was loaded: the [str] of its text items, its operator list,
    [page.objs.get], and the data URL [canvas.toDataURL('image/jpeg', 0.9)]
    gives once the page was rendered on a viewport of the given scale, or the
    error thrown on the way. *)
Record PdfPage : Type := {
  textItems : list string;
  operators : list PdfOperator;
  objs : string -> Outcome (option ImageObject);
  renderedDataURL : Q -> Outcome string
}.

(** [const [, base64Data] = url.split(',')] *)
Definition secondPiece (url : string) : option string :=
  nth_error (Js.split "," url) 1.

(** The loop that copies RGB triples to RGBA with alpha 255. *)
Fixpoint rgbToRgba (rgb : list Z) : list Z :=
  match rgb with
  | r :: g :: b :: rest => r :: g :: b :: 255%Z :: rgbToRgba rest
  | _ => []
  end.

(** [imageDataToBase64]: [Some ""] when there is no context, else the
    payload of the data URL, [None] when that URL has no comma. *)
Definition imageDataToBase64 (dom : Dom) (imageData : ImageObject)
    (bytes : list Z) : Outcome (option string) :=
  if negb (getContext2d dom) then Resolved (Some EmptyString)
  else
    let size := (img_width imageData * img_height imageData * 4)%nat in
    let filled :=
      if (length bytes =? img_width imageData * img_height imageData * 3)%nat
      then Resolved (rgbToRgba bytes)
      else if (length bytes <=? size)%nat
           then Resolved (bytes ++ repeat 0%Z (size - length bytes))
           else Rejected (newError "offset is out of bounds") in
    match filled with
    | Resolved data =>
        match jpegDataURL dom (img_width imageData) (img_height imageData) data with
        | Resolved url => Resolved (secondPiece url)
        | Rejected e => Rejected e
        end
    | Rejected e => Rejected e
    end.

Definition jpegPart (data : string) : ImagePart.t := ImagePart.mk data "image/jpeg".

(** The images the [paintImageXObject] operators of a page push, taken in
    the order of the operator list; an error is caught and logged. *)
Definition embeddedImages (dom : Dom) (page : PdfPage) : list ImagePart.t :=
  flat_map
    (fun op =>
       match op with
       | paintImageXObject imgKey =>
           match objs page imgKey with
           | Resolved (Some imgData) =>
               match img_data imgData with
               | Some bytes =>
                   match imageDataToBase64 dom imgData bytes with
                   | Resolved (Some data) =>
                       if Js.truthy data then [jpegPart data] else []
                   | _ => []
                   end
               | None => []
               end
           | _ => []
           end
       | otherOperator => []
       end)
    (operators page).

Definition renderScale : Q := 3 # 2.

(** The fallback for scanned pages: what it pushes for a page of text
    [pageText]. *)
Definition scanFallback (dom : Dom) (page : PdfPage) (pageText : string)
    : list ImagePart.t :=
  if (String.length (Js.trim pageText) <? 100)%nat then
    if getContext2d dom then
      match renderedDataURL page renderScale with
      | Resolved dataUrl =>
          match secondPiece dataUrl with
          | Some base64Data =>
              if Js.truthy base64Data then [jpegPart base64Data] else []
          | None => []
          end
      | Rejected _ => []
      end
    else []
  else [].

Definition pageTextOf (page : PdfPage) : string := Js.join " " (textItems page).

(** The [for] loop over the pages: [fullText] and [images] when it ends. *)
Fixpoint collectPages (dom : Dom) (pages : list PdfPage) (fullText : string)
    (images : list ImagePart.t) : string * list ImagePart.t :=
  match pages with
  | [] => (fullText, images)
  | page :: pages' =>
      let pageText := pageTextOf page in
      collectPages dom pages' (fullText +:+ pageText +:+ Js.nl)
        (images ++ embeddedImages dom page ++ scanFallback dom page pageText)
  end.

(** [map.set(key, v)] on a [Map] kept as its entries in insertion order: a
    key that is present keeps its place and takes the new value. *)
Fixpoint mapSet {V : Type} (key : string) (v : V) (m : list (string * V))
    : list (string * V) :=
  match m with
  | [] => [(key, v)]
  | (k, x) :: m' =>
      if String.eqb k key then (k, v) :: m' else (k, x) :: mapSet key v m'
  end.

(** [new Map(entries)] *)
Definition newMap {V : Type} (entries : list (string * V)) : list (string * V) :=
  fold_left (fun m e => mapSet (fst e) (snd e) m) entries [].

Definition imageKey (img : ImagePart.t) : string :=
  Js.substring0 100 (ImagePart.data img).

(** [Array.from(new Map(images.map(img => [img.data.substring(0, 100), img])).values())] *)
Definition uniqueImages (images : list ImagePart.t) : list ImagePart.t :=
  List.map snd (newMap (List.map (fun img => (imageKey img, img)) images)).

Definition parsePdf (dom : Dom) (pages : list PdfPage) : ParsedNotes.t :=
  let (fullText, images) := collectPages dom pages EmptyString [] in
  ParsedNotes.mk fullText (uniqueImages images).

(** ** Sample inputs *)

Module Sample.

Definition textOnly (t : string) : GenerateContentResponse :=
  {| responseText := Some t; candidates := None |}.

(** A response with text [t] and one grounding chunk for [uri]. *)
Definition grounded (t uri : string) : GenerateContentResponse :=
  {| responseText := Some t;
     candidates :=
       Some [{| groundingMetadata :=
                  Some {| groundingChunks :=
                            Some [{| web := Some {| web_uri := Some uri;
                                                    web_title := Some "A page" |} |};
                                  {| web := None |}] |} |}] |}.

Definition oneImage : GenerateImagesResponse :=
  {| generatedImages := Some [{| image := Some {| imageBytes := Some "QUJD" |} |}] |}.

(** A backend that answers the probe with YES, the synthesis with
    [synthesis], and image generation with [images]. *)
Definition backendWith (synthesis : Outcome GenerateContentResponse)
    (images : Outcome GenerateImagesResponse) : Backend :=
  {| generateContent := fun p _ =>
       match gc_model p with
       | liteModel => Resolved (textOnly "YES")
       | _ => synthesis
       end;
     generateImages := fun _ _ => images;
     random1000 := fun _ => 0%Z |}.

Definition answering (t : string) : Backend :=
  backendWith (Resolved (textOnly t)) (Resolved oneImage).

Definition serverError : JsError := newError "500 Internal error".

(** The synthesis cites one page and asks for a new image; image generation
    fails. *)
Definition imageFailing : Backend :=
  backendWith
    (Resolved (grounded ("An answer." +:+ Js.nl +:+ "GENERATE_IMAGE_PROMPT: a cat")
                        "https://example.org/a"))
    (Rejected serverError).

(** The synthesis call fails. *)
Definition synthesisFailing : Backend :=
  backendWith (Rejected serverError) (Resolved oneImage).

(** The backend of a run in which the question handed out second meets a
    failing synthesis, and the backend of the run without that failure. *)
Definition secondFails (k : nat) : Backend :=
  if (k =? 1)%nat then synthesisFailing else answering "An answer.".

Definition noneFails (k : nat) : Backend := answering "An answer.".

Definition notes : ParsedNotes.t :=
  ParsedNotes.mk "Some notes."
    [ImagePart.mk "AAAA" "image/png"; ImagePart.mk "BBBB" "image/gif";
     ImagePart.mk "CCCC" "image/jpeg"].

Definition question : Question.t := Question.mk "What is a cat?" (Some "5 marks").

(** Two questions of the same text and different marks. *)
Definition duplicates : list Question.t :=
  [Question.mk "Define entropy." (Some "5 marks");
   Question.mk "Define entropy." (Some "10 marks")].

Definition three : list Question.t :=
  [Question.mk "What is a cat?" None; Question.mk "What is a dog?" None;
   Question.mk "What is a cow?" (Some "2 marks")].

Definition entropy : string := "Entropy measures disorder.".

Fixpoint letters (n : nat) : string :=
  match n with O => EmptyString | S n' => String "A" (letters n') end.

(** Two payloads that agree on their first 100 characters. *)
Definition embeddedPayload : string := letters 100 +:+ "embedded".
Definition renderedPayload : string := letters 100 +:+ "rendered".

Definition canvas : Dom :=
  {| getContext2d := true;
     jpegDataURL := fun _ _ _ => Resolved ("data:image/jpeg;base64," +:+ embeddedPayload) |}.

Definition noCanvas : Dom :=
  {| getContext2d := false;
     jpegDataURL := fun _ _ _ => Resolved ("data:image/jpeg;base64," +:+ embeddedPayload) |}.

(** A scanned page: no text, one embedded image, and a render. *)
Definition scannedPage : PdfPage :=
  {| textItems := [];
     operators := [otherOperator; paintImageXObject "img_p0_1"];
     objs := fun _ =>
       Resolved (Some {| img_width := 1; img_height := 1;
                         img_data := Some [0; 0; 0]%Z |});
     renderedDataURL := fun _ =>
       Resolved ("data:image/jpeg;base64," +:+ renderedPayload) |}.

(** A page without text and without images. *)
Definition blankPage : PdfPage :=
  {| textItems := [];
     operators := [];
     objs := fun _ => Resolved None;
     renderedDataURL := fun _ =>
       Resolved ("data:image/jpeg;base64," +:+ renderedPayload) |}.

End Sample.

(** * The rest of the service, its caller and the other parsers *)

(** ** The caller: the re-sort of [handleGenerateClick] ([App.tsx]) *)

Fixpoint findIndexFrom (i : Z) (questions : list Question.t) (t : string) : Z :=
  match questions with
  | [] => (-1)%Z
  | q :: questions' =>
      if String.eqb (Question.text q) t then i
      else findIndexFrom (i + 1)%Z questions' t
  end.

(** [questions.findIndex(q => q.text === t)] *)
Definition findIndex (questions : list Question.t) (t : string) : Z :=
  findIndexFrom 0%Z questions t.

(** The comparator [(a, b) => findIndex(a.question) - findIndex(b.question)]. *)
Definition byQuestionOrder (questions : list Question.t) (a b : Result.t) : Z :=
  (findIndex questions (Result.question a) - findIndex questions (Result.question b))%Z.

(** [array.sort(compare)]: the sort is stable, so with a comparator that
    orders by a key its result is the one of inserting each element before
    the first element that it does not come after. *)
Fixpoint insertSorted {A : Type} (compare : A -> A -> Z) (x : A) (l : list A)
    : list A :=
  match l with
  | [] => [x]
  | y :: l' =>
      if (compare x y >? 0)%Z then y :: insertSorted compare x l' else x :: l
  end.

Definition sortBy {A : Type} (compare : A -> A -> Z) (l : list A) : list A :=
  fold_right (insertSorted compare) [] l.

(** [generatedResults.sort(...)] *)
Definition resort (questions : list Question.t) (generatedResults : list Result.t)
    : list Result.t :=
  sortBy (byQuestionOrder questions) generatedResults.

(** ** More sample inputs *)

Module SamplePdf.

(** A page with a text layer of 121 characters and one embedded image. *)
Definition textPage : PdfPage :=
  {| textItems := [Sample.letters 60; Sample.letters 60];
     operators := [paintImageXObject "img_p1_1"];
     objs := fun _ =>
       Resolved (Some {| img_width := 1; img_height := 1;
                         img_data := Some [0; 0; 0]%Z |});
     renderedDataURL := fun _ =>
       Resolved ("data:image/jpeg;base64," +:+ Sample.renderedPayload) |}.

(** A scanned page whose render differs from its embedded image from the
    first character on. *)
Definition photoPage : PdfPage :=
  {| textItems := [];
     operators := [paintImageXObject "img_p2_1"];
     objs := fun _ =>
       Resolved (Some {| img_width := 1; img_height := 1;
                         img_data := Some [0; 0; 0]%Z |});
     renderedDataURL := fun _ => Resolved "data:image/jpeg;base64,QUJD" |}.

End SamplePdf.

(** ** [base64ToBuffer] ([utils/fileGenerator.ts]) *)

(** [s] holds no comma. *)
Definition commaFree (s : string) : bool :=
  Js.allChars (fun c => negb (Ascii.eqb c ",")) s.

(** The bytes of the image of a data URL: the char codes of
    [atob(base64.split(',')[1])], where [atob] throws on what is no base64;
    [atob(undefined)] is [atob("undefined")]. *)
Definition base64ToBuffer (atob : string -> Outcome string) (base64 : string)
    : Outcome (list nat) :=
  match atob (interpolate (nth_error (Js.split "," base64) 1)) with
  | Resolved binaryStr =>
      Resolved (List.map nat_of_ascii (list_ascii_of_string binaryStr))
  | Rejected e => Rejected e
  end.

(** ** The other parsers of [utils/fileParser.ts] *)

(** An image as the parsers hand it on. The [data] of an image of a Word
    document is the second piece of its [src] split at commas and is
    [undefined] when there is none. *)
Module NoteImage.
Record t : Type := mk { data : option string; mimeType : string }.
End NoteImage.

Module RawNotes.
Record t : Type := mk { text : string; images : list NoteImage.t }.
End RawNotes.

Definition ofImagePart (img : ImagePart.t) : NoteImage.t :=
  NoteImage.mk (Some (ImagePart.data img)) (ImagePart.mimeType img).

Definition ofParsedNotes (notes : ParsedNotes.t) : RawNotes.t :=
  RawNotes.mk (ParsedNotes.text notes)
              (List.map ofImagePart (ParsedNotes.images notes)).

(** The characters [.] does not match, among the code units below 256. *)
Definition isLineTerminator (c : ascii) : bool :=
  Ascii.eqb c Js.LF || Ascii.eqb c (ascii_of_nat 13).

(** [(.*?);] at the start of [s]: the characters before the first [;],
    none of them a line terminator. *)
Fixpoint lazyUntilSemicolon (s : string) : option string :=
  match s with
  | EmptyString => None
  | String c s' =>
      if Ascii.eqb c ";" then Some EmptyString
      else if isLineTerminator c then None
      else option_map (String c) (lazyUntilSemicolon s')
  end.

(** [header.match(/:(.*?);/)?.[1]]: the group of the leftmost match. *)
Fixpoint matchMimeType (header : string) : option string :=
  match header with
  | EmptyString => None
  | String c s' =>
      match (if Ascii.eqb c ":" then lazyUntilSemicolon s' else None) with
      | Some group => Some group
      | None => matchMimeType s'
      end
  end.

(** The HTML mammoth makes of a Word document, as far as [parseDocx] reads
    it: the [src] attribute of every [img] in document order, and
    [body.innerText]. *)
Record DocxDocument : Type := {
  imgSources : list (option string);
  innerText : string
}.

(** What the callback of [forEach] pushes for one [img]. *)
Definition docxImage (src : option string) : list NoteImage.t :=
  match src with
  | Some src =>
      if Js.truthy src && Js.startsWith src "data:" then
        let pieces := Js.split "," src in
        let header := hd EmptyString pieces in
        let mimeType :=
          match matchMimeType header with
          | Some group => if Js.truthy group then group else "image/png"
          | None => "image/png"
          end in
        [NoteImage.mk (nth_error pieces 1) mimeType]
      else []
  | None => []
  end.

Definition parseDocx (doc : DocxDocument) : RawNotes.t :=
  RawNotes.mk (innerText doc) (flat_map docxImage (imgSources doc)).

(** A file of the browser with what the readers make of it:
    [fileToArrayBuffer], pdf.js ([getDocument] and the loading of each
    page), mammoth's [convertToHtml] read by [DOMParser], mammoth's
    [extractRawText], and [FileReader.readAsText]; each resolves or
    rejects. *)
Record File : Type := {
  fileName : string;
  fileType : string;
  arrayBuffer : Outcome unit;
  pdfPages : Outcome (list PdfPage);
  docxHtml : Outcome DocxDocument;
  docxRawText : Outcome string;
  readAsText : Outcome string
}.

Definition pdfType : string := "application/pdf".

Definition docxType : string :=
  "application/vnd.openxmlformats-officedocument.wordprocessingml.document".

(** [s.endsWith(suffix)] *)
Definition endsWith (s suffix : string) : bool :=
  (String.length suffix <=? String.length s)%nat &&
  String.eqb (Js.dropChars (String.length s - String.length suffix) s) suffix.

Definition isDocx (file : File) : bool :=
  String.eqb (fileType file) docxType || endsWith (fileName file) ".docx".

Definition parseTextFile (file : File) : Outcome RawNotes.t :=
  match readAsText file with
  | Resolved t => Resolved (RawNotes.mk t [])
  | Rejected e => Rejected e
  end.

(** The body of the [try] of [parseNoteFiles] up to [parsed]. *)
Definition parseFile (dom : Dom) (file : File) : Outcome RawNotes.t :=
  match arrayBuffer file with
  | Rejected e => Rejected e
  | Resolved _ =>
      if String.eqb (fileType file) pdfType then
        match pdfPages file with
        | Resolved pages => Resolved (ofParsedNotes (parsePdf dom pages))
        | Rejected e => Rejected e
        end
      else if isDocx file then
        match docxHtml file with
        | Resolved doc => Resolved (parseDocx doc)
        | Rejected e => Rejected e
        end
      else parseTextFile file
  end.

Definition notesSeparator : string :=
  Js.nl +:+ Js.nl +:+ "---" +:+ Js.nl +:+ Js.nl.

(** The [for] loop of [parseNoteFiles] from [combinedText] and
    [allImages] on. *)
Fixpoint parseNoteFilesFrom (dom : Dom) (files : list File) (combinedText : string)
    (allImages : list NoteImage.t) : Outcome RawNotes.t :=
  match files with
  | [] => Resolved (RawNotes.mk combinedText allImages)
  | file :: files' =>
      match parseFile dom file with
      | Resolved parsed =>
          parseNoteFilesFrom dom files'
            (combinedText +:+ (RawNotes.text parsed +:+ notesSeparator))
            (allImages ++ RawNotes.images parsed)
      | Rejected _ =>
          Rejected (newError ("Failed to process " +:+ fileName file +:+
                              ". It may be corrupted."))
      end
  end.

Definition parseNoteFiles (dom : Dom) (files : list File) : Outcome RawNotes.t :=
  parseNoteFilesFrom dom files EmptyString [].

Definition extractTextFromFile (file : File) : Outcome string :=
  match arrayBuffer file with
  | Rejected e => Rejected e
  | Resolved _ =>
      if String.eqb (fileType file) pdfType then
        match pdfPages file with
        | Resolved pages =>
            Resolved
              (fold_left
                 (fun textContent page =>
                    (textContent +:+ Js.join " " (textItems page)) +:+ Js.nl)
                 pages EmptyString)
        | Rejected e => Rejected e
        end
      else if isDocx file then docxRawText file
      else readAsText file
  end.

Module SampleFiles.

Definition unreadable : JsError := newError "NotReadableError".

(** A text file, unless its fields are replaced. *)
Definition plain (name contents : string) : File :=
  {| fileName := name; fileType := "text/plain";
     arrayBuffer := Resolved tt;
     pdfPages := Rejected (newError "Invalid PDF structure");
     docxHtml := Rejected (newError "Not a zip file");
     docxRawText := Rejected (newError "Not a zip file");
     readAsText := Resolved contents |}.

Definition pdf (name : string) (pages : list PdfPage) : File :=
  {| fileName := name; fileType := "application/pdf";
     arrayBuffer := Resolved tt;
     pdfPages := Resolved pages;
     docxHtml := Rejected (newError "Not a zip file");
     docxRawText := Rejected (newError "Not a zip file");
     readAsText := Resolved "%PDF-1.7" |}.

(** A Word document the browser gave no MIME type. *)
Definition docx (name : string) (doc : DocxDocument) (raw : string) : File :=
  {| fileName := name; fileType := "";
     arrayBuffer := Resolved tt;
     pdfPages := Rejected (newError "Invalid PDF structure");
     docxHtml := Resolved doc;
     docxRawText := Resolved raw;
     readAsText := Resolved "PK" |}.

Definition broken (name : string) : File :=
  {| fileName := name; fileType := "application/pdf";
     arrayBuffer := Resolved tt;
     pdfPages := Rejected (newError "Invalid PDF structure");
     docxHtml := Rejected (newError "Not a zip file");
     docxRawText := Rejected (newError "Not a zip file");
     readAsText := Resolved "garbage" |}.

End SampleFiles.

(** A MIME type as it stands in a data URL: not empty, on one line, without
    comma and semicolon. *)
Definition plainMimeType (s : string) : bool :=
  Js.truthy s &&
  Js.allChars (fun c => negb (Ascii.eqb c "," || Ascii.eqb c ";" || isLineTerminator c)) s.

(** ** [extractQuestionsFromFile] ([services/geminiService.ts]) *)

(** A value of [JSON.parse]; an object is the list of its own properties,
    each key once. *)
#[warnings="-register-all"] Inductive Json : Type :=
| JNull
| JBool (b : bool)
| JNumber (n : Q)
| JString (s : string)
| JArray (items : list Json)
| JObject (members : list (string * Json)).

Definition jsonTruthy (v : Json) : bool :=
  match v with
  | JNull => false
  | JBool b => b
  | JNumber n => negb (Qeq_bool n 0)
  | JString s => Js.truthy s
  | JArray _ | JObject _ => true
  end.

(** [v.key] for a [v] that is not [null] and a [key] that no prototype
    defines: an own property of an object, [undefined] otherwise. *)
Definition member (key : string) (v : Json) : option Json :=
  match v with
  | JObject members =>
      option_map snd (List.find (fun m => String.eqb (fst m) key) members)
  | _ => None
  end.

(** A question as it is returned: both fields are whatever the parsed
    item holds under [questionText] and [marks]. *)
Module ExtractedQuestion.
Record t : Type := mk { text : option Json; marks : option Json }.
End ExtractedQuestion.

(** The [TypeError] of reading property [prop] of [null]. *)
Definition typeErrorOfNull (prop : string) : JsError :=
  newError ("Cannot read properties of null (reading '" +:+ prop +:+ "')").

(** [q => ({ text: q.questionText, marks: q.marks })] *)
Definition extractedQuestion (q : Json) : Outcome ExtractedQuestion.t :=
  match q with
  | JNull => Rejected (typeErrorOfNull "questionText")
  | _ => Resolved (ExtractedQuestion.mk (member "questionText" q) (member "marks" q))
  end.

(** [questions.map(...)]: the first item that throws ends the mapping. *)
Fixpoint mapQuestions (items : list Json) : Outcome (list ExtractedQuestion.t) :=
  match items with
  | [] => Resolved []
  | q :: items' =>
      match extractedQuestion q with
      | Rejected e => Rejected e
      | Resolved x =>
          match mapQuestions items' with
          | Resolved xs => Resolved (x :: xs)
          | Rejected e => Rejected e
          end
      end
  end.

Definition noQuestionsMessage : string :=
  "AI parsing completed, but no questions were found in the file.".

Definition schemaMismatchMessage : string :=
  "Parsed JSON does not match the expected schema.".

Definition extractionFailedPrefix : string :=
  "AI failed to extract questions. Original error: ".

Section Extraction.

(** [JSON.parse], [String(error)] for a thrown value that is no [Error],
    the jitter of the retries, and the wrapped call: [generateContent] for
    the extraction prompt made of the text of the question bank. *)
Variable jsonParse : string -> Outcome Json.
Variable stringOf : JsError -> string.
Variable jitter : nat -> Z.
Variable apiCall : nat -> Outcome GenerateContentResponse.

(** The body of the [try]. *)
Definition extractQuestions_try : Outcome (list ExtractedQuestion.t) :=
  match settled (callApiWithRetry apiCall 3 1000 jitter) with
  | Rejected e => Rejected e
  | Resolved response =>
      match responseText response with
      | None => Rejected (typeError "trim")
      | Some t =>
          match jsonParse (Js.trim t) with
          | Rejected e => Rejected e
          | Resolved parsedObject =>
              if jsonTruthy parsedObject then
                match member "questions" parsedObject with
                | Some (JArray []) => Rejected (newError noQuestionsMessage)
                | Some (JArray questions) => mapQuestions questions
                | _ => Rejected (newError schemaMismatchMessage)
                end
              else Rejected (newError schemaMismatchMessage)
          end
      end
  end.

Definition extractQuestionsFromFile : Outcome (list ExtractedQuestion.t) :=
  match extractQuestions_try with
  | Resolved questions => Resolved questions
  | Rejected error =>
      Rejected
        (newError
           (extractionFailedPrefix +:+
            match error with
            | ErrorObject m _ => m
            | Thrown _ => stringOf error
            end))
  end.

End Extraction.

Module SampleBank.

(** [JSON.parse] on the two texts used below. *)
Definition jsonParse (s : string) : Outcome Json :=
  if String.eqb s "{two questions}" then
    Resolved
      (JObject
         [("questions",
           JArray [JObject [("questionText", JString "What is a cat?");
                            ("marks", JString "5 marks")];
                   JObject [("questionText", JString "What is a dog?");
                            ("marks", JNull)]])])
  else if String.eqb s "{no questions}" then
    Resolved (JObject [("questions", JArray [])])
  else Rejected (newError "Unexpected token").

Definition answering (t : string) (attempt : nat) : Outcome GenerateContentResponse :=
  Resolved (Sample.textOnly t).

End SampleBank.

(** * Properties *)

(** ** The embedding on small inputs *)

Example splitLines_ex :
  Js.splitLines ("a" +:+ Js.nl +:+ "b" +:+ Js.nl) = ["a"; "b"; ""].
Proof. reflexivity. Qed.

Example trim_ex : Js.trim ("  a b " +:+ Js.nl) = "a b".
Proof. reflexivity. Qed.

Example replaceFirst_ex : Js.replaceFirst "xabyab" "ab" "" = "xyab".
Proof. reflexivity. Qed.

Example matchImageRef_ex :
  matchImageRef "USE_IMAGE: [Image x] see [Image 12]" = Some "12".
Proof. reflexivity. Qed.

Example parseAiResponse_ex :
  parseAiResponse ("Some answer text." +:+ Js.nl +:+ "USE_IMAGE: [Image 2]")
  = ("Some answer text.", Some "USE_IMAGE: [Image 2]").
Proof. reflexivity. Qed.

Example parseAiResponse_indented_ex :
  parseAiResponse (" USE_IMAGE: [Image 2]" +:+ Js.nl +:+ "x")
  = ("USE_IMAGE: [Image 2]" +:+ Js.nl +:+ "x", None).
Proof. reflexivity. Qed.

Example callApiWithRetry_ex :
  callApiWithRetry
    (fun n => if (n <? 2)%nat then Rejected (newError "429") else Resolved n)
    3 1000 (fun _ => 7%Z)
  = MkRetryRun (Resolved 2%nat) 3 [1007; 2007]%Z.
Proof. reflexivity. Qed.

Example mapSet_ex :
  newMap [("a", 1); ("b", 2); ("a", 3)] = [("a", 3); ("b", 2)].
Proof. reflexivity. Qed.

(** ** The retry wrapper *)

Section RetryFacts.
Context {T : Type}.
Variable apiCall : nat -> Outcome T.
Variable maxRetries initialDelay : Z.
Variable jitter : nat -> Z.

Lemma retryLoop_body (retries : Z) (attempt : nat) :
  retryLoop apiCall maxRetries initialDelay jitter retries attempt =
  match apiCall attempt with
  | Resolved v => MkRetryRun (Resolved v) (S attempt) []
  | Rejected error =>
      if isRateLimitError error then
        if Z_gt_dec (retries + 1) maxRetries then
          MkRetryRun (Rejected (newError rateLimitExceededMessage)) (S attempt) []
        else
          let r := retryLoop apiCall maxRetries initialDelay jitter
                             (retries + 1) (S attempt) in
          MkRetryRun (settled r) (attempts r)
            ((initialDelay * 2 ^ (retries + 1 - 1) + jitter attempt)%Z :: sleeps r)
      else MkRetryRun (Rejected error) (S attempt) []
  end.
Proof.
  remember (retryLoop apiCall maxRetries initialDelay jitter (retries + 1) (S attempt))
    as r eqn:Hr.
  simp retryLoop.
  destruct (apiCall attempt) as [v|e]; simpl; [reflexivity|].
  destruct (isRateLimitError e); simpl; [|reflexivity].
  destruct (Z_gt_dec (retries + 1) maxRetries); simpl; [reflexivity|].
  subst r. reflexivity.
Qed.

(** After [a] rate-limited failures, [n] more of them and then a success. *)
Lemma retryLoop_succeeds (K : nat) (v : T) :
  (Z.of_nat K <= maxRetries)%Z -> rateLimitedUpTo apiCall K ->
  apiCall K = Resolved v ->
  forall n a, (a + n = K)%nat ->
    retryLoop apiCall maxRetries initialDelay jitter (Z.of_nat a) a =
    MkRetryRun (Resolved v) (S K) (List.map (backoff initialDelay jitter) (seq a n)).
Proof.
  intros Hmax Hfail Hok n.
  induction n as [|n IH]; intros a Ha; rewrite retryLoop_body.
  - replace a with K by lia. rewrite Hok. reflexivity.
  - destruct (Hfail a) as (e & He & Hrl); [lia|].
    rewrite He, Hrl.
    destruct (Z_gt_dec (Z.of_nat a + 1) maxRetries) as [Hgt|_]; [lia|].
    replace (Z.of_nat a + 1)%Z with (Z.of_nat (S a)) by lia.
    rewrite (IH (S a)) by lia.
    simpl. unfold backoff at 1.
    replace (Z.of_nat (S a) - 1)%Z with (Z.of_nat a) by lia.
    reflexivity.
Qed.

(** After [a] rate-limited failures, failures up to the last permitted
    invocation. *)
Lemma retryLoop_exhausts :
  (0 <= maxRetries)%Z -> rateLimitedUpTo apiCall (S (Z.to_nat maxRetries)) ->
  forall n a, (a + n = Z.to_nat maxRetries)%nat ->
    retryLoop apiCall maxRetries initialDelay jitter (Z.of_nat a) a =
    MkRetryRun (Rejected (newError rateLimitExceededMessage))
               (S (Z.to_nat maxRetries))
               (List.map (backoff initialDelay jitter) (seq a n)).
Proof.
  intros Hmax Hfail n.
  induction n as [|n IH]; intros a Ha; rewrite retryLoop_body;
    (destruct (Hfail a) as (e & He & Hrl); [lia|]); rewrite He, Hrl.
  - destruct (Z_gt_dec (Z.of_nat a + 1) maxRetries) as [_|Hle]; [|lia].
    replace a with (Z.to_nat maxRetries) by lia. reflexivity.
  - destruct (Z_gt_dec (Z.of_nat a + 1) maxRetries) as [Hgt|_]; [lia|].
    replace (Z.of_nat a + 1)%Z with (Z.of_nat (S a)) by lia.
    rewrite (IH (S a)) by lia.
    simpl. unfold backoff at 1.
    replace (Z.of_nat (S a) - 1)%Z with (Z.of_nat a) by lia.
    reflexivity.
Qed.

(** The wrapped call is invoked at least once more and at most as often as
    the retry budget that is left allows. *)
Lemma retryLoop_attempts :
  forall n retries attempt,
    (Z.to_nat (maxRetries + 1 - retries) <= n)%nat ->
    let r := retryLoop apiCall maxRetries initialDelay jitter retries attempt in
    (S attempt <= attempts r)%nat /\
    (attempts r <= attempt + Nat.max 1 (Z.to_nat (maxRetries + 1 - retries)))%nat.
Proof.
  induction n as [|n IH]; intros retries attempt Hn; cbv zeta;
    rewrite retryLoop_body;
    destruct (apiCall attempt) as [v|e]; simpl; try lia;
    destruct (isRateLimitError e); simpl; try lia;
    destruct (Z_gt_dec (retries + 1) maxRetries) as [Hgt|Hle]; simpl; try lia.
  specialize (IH (retries + 1)%Z (S attempt)). cbv zeta in IH. lia.
Qed.

End RetryFacts.

(** C9. A wrapped call whose first invocation fails with an error that does
    not carry a rate-limit signal is invoked exactly once; the wrapper
    rejects with that very error and sleeps no delay. *)
Theorem callApiWithRetry_other_error {T : Type} (apiCall : nat -> Outcome T)
    (maxRetries initialDelay : Z) (jitter : nat -> Z) (error : JsError) :
  apiCall 0%nat = Rejected error ->
  isRateLimitError error = false ->
  callApiWithRetry apiCall maxRetries initialDelay jitter =
  MkRetryRun (Rejected error) 1 [].
Proof.
  intros Hcall Hother. unfold callApiWithRetry.
  rewrite retryLoop_body, Hcall, Hother. reflexivity.
Qed.

Lemma callApiWithRetry_other_error_witness :
  callApiWithRetry (fun _ : nat => @Rejected nat (newError "500 Internal error"))
                   3 1000 (fun _ => 250%Z) =
  MkRetryRun (Rejected (newError "500 Internal error")) 1 [].
Proof.
  apply (callApiWithRetry_other_error
           (fun _ : nat => @Rejected nat (newError "500 Internal error"))
           3 1000 (fun _ => 250%Z) (newError "500 Internal error"));
    reflexivity.
Defined.

(** C3, as the code has it. When the first [K] invocations fail with a
    rate-limit signal: if [K <= maxRetries] and invocation [K] succeeds, the
    wrapper resolves with its value after [K + 1] invocations and [K]
    sleeps; if [K > maxRetries], it rejects after [maxRetries + 1]
    invocations with a fresh [Error] whose message is fixed and which has no
    cause. *)
Theorem callApiWithRetry_rate_limited {T : Type} (apiCall : nat -> Outcome T)
    (maxRetries initialDelay : Z) (jitter : nat -> Z) (K : nat) :
  (0 <= maxRetries)%Z ->
  rateLimitedUpTo apiCall K ->
  let run := callApiWithRetry apiCall maxRetries initialDelay jitter in
  ((Z.of_nat K <= maxRetries)%Z ->
   forall v, apiCall K = Resolved v ->
     run = MkRetryRun (Resolved v) (K + 1)
                      (List.map (backoff initialDelay jitter) (seq 0 K))) /\
  ((maxRetries < Z.of_nat K)%Z ->
   run = MkRetryRun (Rejected (ErrorObject rateLimitExceededMessage None))
                    (Z.to_nat maxRetries + 1)
                    (List.map (backoff initialDelay jitter)
                              (seq 0 (Z.to_nat maxRetries)))).
Proof.
  intros Hmax Hfail run. subst run. unfold callApiWithRetry. split.
  - intros HK v Hok.
    replace (K + 1)%nat with (S K) by lia.
    apply (retryLoop_succeeds apiCall maxRetries initialDelay jitter K v HK Hfail Hok K 0%nat).
    reflexivity.
  - intros HK.
    replace (Z.to_nat maxRetries + 1)%nat with (S (Z.to_nat maxRetries)) by lia.
    assert (Hf : rateLimitedUpTo apiCall (S (Z.to_nat maxRetries))).
    { intros i Hi. apply Hfail. lia. }
    apply (retryLoop_exhausts apiCall maxRetries initialDelay jitter Hmax Hf
             (Z.to_nat maxRetries) 0%nat).
    reflexivity.
Qed.

Lemma callApiWithRetry_rate_limited_witness :
  callApiWithRetry
    (fun n => if (n <? 2)%nat then Rejected (newError "429 Too Many Requests")
              else Resolved n)
    3 1000 (fun _ => 7%Z)
  = MkRetryRun (Resolved 2%nat) 3 [1007; 2007]%Z /\
  callApiWithRetry (fun _ : nat => @Rejected nat (newError "429 Too Many Requests"))
    3 1000 (fun _ => 7%Z)
  = MkRetryRun (Rejected (ErrorObject rateLimitExceededMessage None)) 4
               [1007; 2007; 4007]%Z.
Proof.
  split.
  - refine (proj1 (callApiWithRetry_rate_limited
             (fun n => if (n <? 2)%nat then Rejected (newError "429 Too Many Requests")
                       else Resolved n)
             3 1000 (fun _ => 7%Z) 2 _ _) _ 2%nat eq_refl).
    + lia.
    + intros i Hi. exists (newError "429 Too Many Requests").
      destruct i as [|[|i]]; [split; reflexivity | split; reflexivity | lia].
    + simpl. lia.
  - refine (proj2 (callApiWithRetry_rate_limited
             (fun _ : nat => @Rejected nat (newError "429 Too Many Requests"))
             3 1000 (fun _ => 7%Z) 5 _ _) _).
    + lia.
    + intros i Hi. exists (newError "429 Too Many Requests"). split; reflexivity.
    + simpl. lia.
Defined.

(** C3 as stated fails: after the retries are used up the error thrown has
    no cause; the error of the wrapped call is only logged. *)
Lemma callApiWithRetry_drops_cause :
  ~ (exists err original,
       settled (callApiWithRetry
                  (fun _ : nat => @Rejected nat (newError "429 Too Many Requests"))
                  3 1000 (fun _ => 0%Z)) = Rejected err /\
       cause err = Some original).
Proof.
  intros (err & original & Hrun & Hcause).
  vm_compute in Hrun. injection Hrun as <-. discriminate Hcause.
Qed.

(** ** Strings *)

Lemma split_nonempty (sep : ascii) (s : string) : Js.split sep s <> [].
Proof.
  destruct s as [|c s]; simpl; [discriminate|].
  destruct (Ascii.eqb c sep); [discriminate|].
  destruct (Js.split sep s); discriminate.
Qed.

Lemma splitLines_single (l : string) :
  Js.singleLine l = true -> Js.splitLines l = [l].
Proof.
  unfold Js.splitLines, Js.singleLine.
  induction l as [|c l IH]; simpl; [reflexivity|].
  intros [Hc Hl]%andb_true_iff.
  apply negb_true_iff in Hc. rewrite Hc, (IH Hl). reflexivity.
Qed.

Lemma splitLines_line (l rest : string) :
  Js.singleLine l = true ->
  Js.splitLines (l +:+ Js.nl +:+ rest) = l :: Js.splitLines rest.
Proof.
  unfold Js.splitLines, Js.singleLine.
  induction l as [|c l IH]; simpl.
  - intros _. reflexivity.
  - intros [Hc Hl]%andb_true_iff.
    apply negb_true_iff in Hc. rewrite Hc, (IH Hl). reflexivity.
Qed.

(** Splitting what was joined gives the lines back. *)
Lemma splitLines_joinLines (ls : list string) :
  ls <> [] -> Forall (fun l => Js.singleLine l = true) ls ->
  Js.splitLines (Js.joinLines ls) = ls.
Proof.
  unfold Js.joinLines.
  induction ls as [|l ls IH]; [congruence|].
  intros _ Hall. inversion Hall as [|? ? Hl Hls]; subst.
  destruct ls as [|l' ls].
  - simpl. apply splitLines_single, Hl.
  - change (Js.join Js.nl (l :: l' :: ls))
      with (l +:+ Js.nl +:+ Js.join Js.nl (l' :: ls)).
    rewrite splitLines_line by exact Hl.
    rewrite IH; [reflexivity | discriminate | exact Hls].
Qed.

Lemma trimEnd_cons (c : ascii) (s : string) :
  Js.isWhiteSpace c = false -> Js.trimEnd (String c s) = String c (Js.trimEnd s).
Proof.
  intros Hc. simpl. rewrite Hc. destruct (Js.trimEnd s); reflexivity.
Qed.

Lemma trimEnd_app (a b : string) :
  Js.allChars (fun c => negb (Js.isWhiteSpace c)) a = true ->
  Js.trimEnd (a +:+ b) = a +:+ Js.trimEnd b.
Proof.
  induction a as [|c a IH]; [reflexivity|].
  intros [Hc Ha]%andb_true_iff. apply negb_true_iff in Hc.
  change (String c a +:+ b) with (String c (a +:+ b)).
  rewrite trimEnd_cons by exact Hc. rewrite (IH Ha). reflexivity.
Qed.

Lemma trimEnd_idempotent (s : string) : Js.trimEnd (Js.trimEnd s) = Js.trimEnd s.
Proof.
  induction s as [|c s IH]; [reflexivity|].
  simpl. destruct (Js.trimEnd s) as [|c' t] eqn:Ht.
  - destruct (Js.isWhiteSpace c) eqn:Hc; [reflexivity|].
    simpl. rewrite Hc. reflexivity.
  - change (Js.trimEnd (String c (String c' t)))
      with (match Js.trimEnd (String c' t) with
            | EmptyString =>
                if Js.isWhiteSpace c then EmptyString else String c EmptyString
            | t' => String c t'
            end).
    rewrite IH. reflexivity.
Qed.

Lemma trimStart_trimEnd (s : string) :
  Js.trimStart (Js.trimEnd s) = Js.trimEnd (Js.trimStart s).
Proof.
  induction s as [|c s IH]; [reflexivity|].
  destruct (Js.isWhiteSpace c) eqn:Hc.
  - change (Js.trimStart (String c s)) with
      (if Js.isWhiteSpace c then Js.trimStart s else String c s).
    rewrite Hc, <- IH. simpl.
    destruct (Js.trimEnd s) as [|c' t]; [rewrite Hc; reflexivity|].
    change (Js.trimStart (String c (String c' t))) with
      (if Js.isWhiteSpace c then Js.trimStart (String c' t)
       else String c (String c' t)).
    rewrite Hc. reflexivity.
  - change (Js.trimStart (String c s)) with
      (if Js.isWhiteSpace c then Js.trimStart s else String c s).
    rewrite Hc, trimEnd_cons by exact Hc.
    simpl. rewrite Hc. reflexivity.
Qed.

(** Trimming on the right first does not change the trimmed string. *)
Lemma trim_trimEnd (s : string) : Js.trim (Js.trimEnd s) = Js.trim s.
Proof.
  unfold Js.trim. rewrite trimStart_trimEnd. apply trimEnd_idempotent.
Qed.




(** ** Decimal numerals *)

Lemma ofNat_digits (u : Decimal.uint) :
  Js.allChars Js.isDigit (NilEmpty.string_of_uint u) = true.
Proof. induction u; simpl; auto. Qed.

Lemma ofNat_no_space (u : Decimal.uint) :
  Js.allChars (fun c => negb (Js.isWhiteSpace c)) (NilEmpty.string_of_uint u) = true.
Proof. induction u; simpl; auto. Qed.

Lemma ofNat_single_line (u : Decimal.uint) :
  Js.singleLine (NilEmpty.string_of_uint u) = true.
Proof. unfold Js.singleLine. induction u; simpl; auto. Qed.

Lemma ofNat_nonempty (n : nat) : Js.truthy (Js.ofNat n) = true.
Proof.
  unfold Js.ofNat.
  destruct (Nat.to_uint n) eqn:E; try reflexivity.
  pose proof (DecimalNat.Unsigned.of_to n) as H.
  rewrite E in H. simpl in H. subst n. discriminate E.
Qed.

Lemma parseDigits_of_uint (u : Decimal.uint) (acc : nat) :
  Js.parseDigits acc (NilEmpty.string_of_uint u) = Nat.of_uint_acc u acc.
Proof.
  revert acc.
  induction u; intros acc; [reflexivity|..];
    cbn [NilEmpty.string_of_uint Js.parseDigits Nat.of_uint_acc];
    rewrite IHu; f_equal; rewrite Nat.tail_mul_spec;
    vm_compute nat_of_ascii; simpl Nat.sub; lia.
Qed.

(** [parseInt] reads a decimal numeral back. *)
Lemma parseInt10_ofNat (n : nat) : Js.parseInt10 (Js.ofNat n) = n.
Proof.
  unfold Js.parseInt10, Js.ofNat. rewrite parseDigits_of_uint.
  apply DecimalNat.Unsigned.of_to.
Qed.

Lemma spanDigits_app (d rest : string) :
  Js.allChars Js.isDigit d = true ->
  Js.spanDigits rest = (EmptyString, rest) ->
  Js.spanDigits (d +:+ rest) = (d, rest).
Proof.
  intros Hd Hrest. induction d as [|c d IH]; [exact Hrest|].
  simpl in Hd. apply andb_true_iff in Hd as [Hc Hd].
  change (String c d +:+ rest) with (String c (d +:+ rest)).
  cbn [Js.spanDigits]. rewrite Hc, (IH Hd). reflexivity.
Qed.

(** ** [parseAiResponse] *)

Lemma directive_truthy (line : string) :
  isDirectiveLine line = true -> Js.truthy line = true.
Proof. destruct line; [discriminate | reflexivity]. Qed.

Lemma find_directive (pre post : list string) (d : string) :
  Forall (fun l => isDirectiveLine l = false) pre ->
  isDirectiveLine d = true ->
  List.find isDirectiveLine (pre ++ d :: post) = Some d.
Proof.
  intros Hpre Hd. induction Hpre as [|l pre Hl _ IH]; simpl.
  - rewrite Hd. reflexivity.
  - rewrite Hl. exact IH.
Qed.

Lemma filter_keeps (ls : list string) :
  Forall (fun l => isDirectiveLine l = false) ls ->
  List.filter (fun line => negb (isDirectiveLine line)) ls = ls.
Proof.
  intros H. induction H as [|l ls Hl _ IH]; simpl; [reflexivity|].
  rewrite Hl, IH. reflexivity.
Qed.

Lemma filter_strips (pre post : list string) (d : string) :
  Forall (fun l => isDirectiveLine l = false) pre ->
  Forall (fun l => isDirectiveLine l = false) post ->
  isDirectiveLine d = true ->
  List.filter (fun line => negb (isDirectiveLine line)) (pre ++ d :: post)
  = pre ++ post.
Proof.
  intros Hpre Hpost Hd.
  rewrite List.filter_app. simpl. rewrite Hd. simpl.
  rewrite !filter_keeps by assumption. reflexivity.
Qed.

(** A directive line is found wherever it stands and is left out of the
    answer. *)
Lemma parseAiResponse_directive (pre post : list string) (d : string) :
  Forall (fun l => Js.singleLine l = true) (pre ++ d :: post) ->
  Forall (fun l => isDirectiveLine l = false) pre ->
  Forall (fun l => isDirectiveLine l = false) post ->
  isDirectiveLine d = true ->
  parseAiResponse (Js.joinLines (pre ++ d :: post))
  = (Js.trim (Js.joinLines (pre ++ post)), Some (Js.trim d)).
Proof.
  intros Hlines Hpre Hpost Hd. unfold parseAiResponse.
  rewrite splitLines_joinLines; [|destruct pre; discriminate|exact Hlines].
  rewrite find_directive, filter_strips by assumption.
  rewrite (directive_truthy d Hd). reflexivity.
Qed.

Lemma find_none (ls : list string) :
  Forall (fun l => isDirectiveLine l = false) ls ->
  List.find isDirectiveLine ls = None.
Proof.
  intros H. induction H as [|l ls Hl _ IH]; simpl; [reflexivity|].
  rewrite Hl. exact IH.
Qed.

Lemma parseAiResponse_no_directive (text : string) :
  Forall (fun l => isDirectiveLine l = false) (Js.splitLines text) ->
  snd (parseAiResponse text) = None.
Proof.
  intros H. unfold parseAiResponse. simpl. rewrite find_none by exact H.
  reflexivity.
Qed.

(** ** The image stage *)

Lemma truthy_app (a b : string) : Js.truthy b = true -> Js.truthy (a +:+ b) = true.
Proof. destruct a; [trivial | reflexivity]. Qed.

Lemma trimEnd_app_kept (a b : string) :
  Js.truthy (Js.trimEnd b) = true -> Js.trimEnd (a +:+ b) = a +:+ Js.trimEnd b.
Proof.
  intros Hb. induction a as [|c a IH]; [reflexivity|].
  change (String c a +:+ b) with (String c (a +:+ b)).
  cbn [Js.trimEnd]. rewrite IH.
  pose proof (truthy_app a (Js.trimEnd b) Hb) as Ht.
  change (String c a +:+ Js.trimEnd b) with (String c (a +:+ Js.trimEnd b)).
  destruct (a +:+ Js.trimEnd b); [discriminate | reflexivity].
Qed.

Lemma numeral_bracket_trimEnd (n : nat) :
  Js.trimEnd (Js.ofNat n +:+ "]") = Js.ofNat n +:+ "]".
Proof. apply (trimEnd_app (Js.ofNat n) "]"), ofNat_no_space. Qed.

Lemma useImageLine_trim (n : nat) : Js.trim (useImageLine n) = useImageLine n.
Proof.
  unfold Js.trim, useImageLine.
  change (Js.trimStart ("USE_IMAGE: [Image " +:+ Js.ofNat n +:+ "]"))
    with ("USE_IMAGE: [Image " +:+ Js.ofNat n +:+ "]").
  rewrite trimEnd_app_kept; rewrite numeral_bracket_trimEnd; [reflexivity|].
  apply truthy_app. reflexivity.
Qed.

Lemma prefix_app (p x : string) : String.prefix p (p +:+ x) = true.
Proof.
  induction p as [|c p IH]; [destruct x; reflexivity|].
  simpl. destruct (ascii_dec c c); [exact IH | congruence].
Qed.

Lemma matchImageRef_skip (c : ascii) (s : string) :
  c <> "["%char -> matchImageRef (String c s) = matchImageRef s.
Proof.
  intros Hc. cbn [matchImageRef String.prefix].
  destruct (ascii_dec "[" c); [congruence | reflexivity].
Qed.

Lemma matchImageRef_here (digits rest : string) :
  Js.allChars Js.isDigit digits = true -> Js.truthy digits = true ->
  matchImageRef ("[Image " +:+ digits +:+ "]" +:+ rest) = Some digits.
Proof.
  intros Hd Ht.
  assert (Hp : String.prefix "[Image " ("[Image " +:+ digits +:+ "]" +:+ rest) = true)
    by apply prefix_app.
  change ("[Image " +:+ digits +:+ "]" +:+ rest)
    with (String "[" ("Image " +:+ digits +:+ "]" +:+ rest)) in *.
  cbn [matchImageRef]. rewrite Hp.
  change (Js.dropChars 7 (String "[" ("Image " +:+ digits +:+ "]" +:+ rest)))
    with (digits +:+ "]" +:+ rest).
  rewrite (spanDigits_app digits ("]" +:+ rest) Hd eq_refl), Ht.
  change (String.prefix "]" ("]" +:+ rest)) with (String.prefix "" rest).
  destruct rest; reflexivity.
Qed.

Lemma useImageLine_match (n : nat) :
  matchImageRef (useImageLine n) = Some (Js.ofNat n).
Proof.
  unfold useImageLine.
  change ("USE_IMAGE: [Image " +:+ Js.ofNat n +:+ "]")
    with (String "U" (String "S" (String "E" (String "_" (String "I" (String "M"
          (String "A" (String "G" (String "E" (String ":" (String " "
          ("[Image " +:+ Js.ofNat n +:+ "]" +:+ "")))))))))))).
  rewrite !matchImageRef_skip by discriminate.
  apply matchImageRef_here; [apply ofNat_digits | apply ofNat_nonempty].
Qed.

Lemma useImageLine_startsWith (n : nat) :
  Js.startsWith (useImageLine n) "USE_IMAGE:" = true.
Proof. apply (prefix_app "USE_IMAGE:" (" [Image " +:+ Js.ofNat n +:+ "]")). Qed.

(** A directive that names an image of the notes by its number resolves to
    that image and calls nothing; a number out of range leaves no image. *)
Lemma resolveImageUrl_use (b : Backend) (notesData : ParsedNotes.t) (n : nat) :
  resolveImageUrl b notesData (Some (useImageLine n)) =
  ret (match n with
       | O => None
       | S i =>
           match nth_error (ParsedNotes.images notesData) i with
           | Some reusedImage =>
               Some (dataUri (ImagePart.mimeType reusedImage)
                             (ImagePart.data reusedImage))
           | None => None
           end
       end).
Proof.
  unfold resolveImageUrl.
  rewrite useImageLine_startsWith, useImageLine_match, parseInt10_ofNat.
  destruct n as [|i].
  - reflexivity.
  - replace (Z.of_nat (S i) - 1)%Z with (Z.of_nat i) by lia.
    rewrite Nat2Z.id.
    destruct (Z.leb_spec 0 (Z.of_nat i)); [|lia]. simpl andb.
    destruct (Z.ltb_spec (Z.of_nat i) (Z.of_nat (length (ParsedNotes.images notesData))))
      as [Hlt|Hge].
    + destruct (nth_error (ParsedNotes.images notesData) i); reflexivity.
    + destruct (nth_error (ParsedNotes.images notesData) i) eqn:E; [|reflexivity].
      assert (i < length (ParsedNotes.images notesData))%nat
        by (apply nth_error_Some; congruence).
      lia.
Qed.

Lemma replaceFirst_prefix (s pat rep : string) :
  String.prefix pat s = true ->
  Js.replaceFirst s pat rep = rep +:+ Js.dropChars (String.length pat) s.
Proof. intros H. destruct s; cbn [Js.replaceFirst]; rewrite H; reflexivity. Qed.

Lemma generateImageLine_trim (rest : string) :
  Js.trim (generateImageLine rest) = generateImageLine (Js.trimEnd rest).
Proof.
  unfold Js.trim.
  change (Js.trimStart (generateImageLine rest)) with (generateImageLine rest).
  apply (trimEnd_app "GENERATE_IMAGE_PROMPT:" rest). reflexivity.
Qed.

(** The value of [imageUrl] after an image-generation call that settled as
    [outcome]. *)
Lemma generated_image_cases (b : Backend) (imagePrompt : string) :
  exists imageUrl,
    tryCatch
      (imageResponse <-
         awaitApi b (GenerateImages (imageRequest imagePrompt))
                  (generateImages b (imageRequest imagePrompt)) ;;
       match generatedImages imageResponse with
       | Some (g :: _) =>
           img <- readFrom (image g) "imageBytes" ;;
           ret (Some ("data:image/jpeg;base64," +:+ interpolate (imageBytes img)))
       | _ => ret None
       end)
      (fun _ => ret None)
    = (Resolved imageUrl,
       [{| request := GenerateImages (imageRequest imagePrompt);
           invocations :=
             attempts (callApiWithRetry (generateImages b (imageRequest imagePrompt))
                                        3 1000 (random1000 b)) |}]).
Proof.
  unfold awaitApi, bind, tryCatch, readFrom, ret, throw.
  destruct (settled _) as [resp|e]; [|eexists; reflexivity].
  destruct (generatedImages resp) as [[|g gs]|]; try (eexists; reflexivity).
  destruct (image g); eexists; reflexivity.
Qed.

(** A directive that asks for a new image issues one wrapped
    image-generation call, whose prompt is what follows the prefix,
    trimmed. *)
Lemma resolveImageUrl_generate (b : Backend) (notesData : ParsedNotes.t)
    (rest : string) :
  Js.truthy (Js.trim rest) = true ->
  exists imageUrl,
    resolveImageUrl b notesData (Some (Js.trim (generateImageLine rest))) =
    (Resolved imageUrl,
     [{| request := GenerateImages (imageRequest (Js.trim rest));
         invocations :=
           attempts (callApiWithRetry (generateImages b (imageRequest (Js.trim rest)))
                                      3 1000 (random1000 b)) |}]).
Proof.
  intros Hprompt. unfold resolveImageUrl.
  rewrite generateImageLine_trim.
  change (Js.startsWith (generateImageLine (Js.trimEnd rest)) "USE_IMAGE:") with false.
  cbv iota.
  assert (Hp : String.prefix "GENERATE_IMAGE_PROMPT:" (generateImageLine (Js.trimEnd rest))
               = true) by apply prefix_app.
  unfold Js.startsWith. rewrite Hp.
  rewrite (replaceFirst_prefix _ _ _ Hp).
  change (EmptyString +:+
          Js.dropChars (String.length "GENERATE_IMAGE_PROMPT:")
                       (generateImageLine (Js.trimEnd rest)))
    with (Js.trimEnd rest).
  rewrite trim_trimEnd, Hprompt.
  apply generated_image_cases.
Qed.

(** The image stage never throws, and issues at most image-generation
    calls. *)
Lemma resolveImageUrl_resolves (b : Backend) (notesData : ParsedNotes.t)
    (imageDirective : option string) :
  exists imageUrl calls,
    resolveImageUrl b notesData imageDirective = (Resolved imageUrl, calls).
Proof.
  unfold resolveImageUrl.
  destruct imageDirective as [directive|]; [|do 2 eexists; reflexivity].
  destruct (Js.startsWith directive "USE_IMAGE:").
  - destruct (matchImageRef directive); [|do 2 eexists; reflexivity].
    destruct (_ && _); [|do 2 eexists; reflexivity].
    destruct (nth_error _ _); do 2 eexists; reflexivity.
  - destruct (Js.startsWith directive "GENERATE_IMAGE_PROMPT:");
      [|do 2 eexists; reflexivity].
    destruct (Js.truthy _); [|do 2 eexists; reflexivity].
    destruct (generated_image_cases b
                (Js.trim (Js.replaceFirst directive "GENERATE_IMAGE_PROMPT:" "")))
      as [u Hu].
    rewrite Hu. do 2 eexists; reflexivity.
Qed.

(** ** [processSingleQuestion] *)

(** Once the first two stages succeeded, the result is put together from
    the parsed text, the image stage and the citations. *)
Lemma processSingleQuestion_synthesized (b : Backend) (notesData : ParsedNotes.t)
    (questionObj : Question.t) (customInstructions : string)
    (textResponse : GenerateContentResponse) (fullText : string)
    (imageUrl : option string) (calls : list ApiCall) :
  synthesisYields b notesData questionObj customInstructions textResponse fullText ->
  resolveImageUrl b notesData (snd (parseAiResponse fullText))
    = (Resolved imageUrl, calls) ->
  exists c1 c2,
    imageGenerationCalls [c1; c2] = [] /\
    processSingleQuestion b notesData questionObj customInstructions =
    (Resolved (Result.mk (Question.text questionObj) (Question.marks questionObj)
                         (fst (parseAiResponse fullText)) imageUrl
                         (groundingSources textResponse)),
     c1 :: c2 :: calls).
Proof.
  intros (r1 & checkText & H1 & H2 & H3 & H4) Himg.
  unfold processSingleQuestion, processSingleQuestion_try, awaitApi.
  unfold tryCatch, bind, readFrom, ret.
  rewrite H1, H2. cbv beta iota zeta. rewrite H3, H4. cbv beta iota zeta.
  destruct (parseAiResponse fullText) as [answer imageDirective].
  cbn [snd] in Himg. rewrite Himg. cbn [app fst]. rewrite app_nil_r.
  do 2 eexists. split; [|reflexivity]. reflexivity.
Qed.

Lemma callApiWithRetry_default_attempts {T : Type} (apiCall : nat -> Outcome T)
    (jitter : nat -> Z) :
  (1 <= attempts (callApiWithRetry apiCall 3 1000 jitter) <= 4)%nat.
Proof.
  pose proof (retryLoop_attempts apiCall 3 1000 jitter 4 0%Z 0%nat) as H.
  cbv zeta in H. unfold callApiWithRetry.
  change (Z.to_nat (3 + 1 - 0)) with 4%nat in H. simpl Nat.max in H. lia.
Qed.

Lemma useImageLine_directive (n : nat) : isDirectiveLine (useImageLine n) = true.
Proof. unfold isDirectiveLine. rewrite useImageLine_startsWith. reflexivity. Qed.

Lemma generateImageLine_directive (rest : string) :
  isDirectiveLine (generateImageLine rest) = true.
Proof.
  unfold isDirectiveLine.
  change (Js.startsWith (generateImageLine rest) "USE_IMAGE:") with false.
  apply (prefix_app "GENERATE_IMAGE_PROMPT:" rest).
Qed.

(** C5. Let the first two stages succeed. A directive line standing
    anywhere among the lines of the synthesis text is left out of the
    answer. With the directive [USE_IMAGE: [Image n]], for [n] from 1 to the
    number of images, the result carries the [n]-th image of the notes as a
    data URI and no image-generation call is made; for any other [n] it
    carries no image. With the directive [GENERATE_IMAGE_PROMPT:] followed by
    a prompt, exactly one wrapped image-generation call is made: its request
    names the image model, has the trimmed text after the marker as its
    [prompt], and asks for one JPEG image. Without a directive line the
    result carries no image and no image-generation call is made. *)
Theorem image_directive_resolution (b : Backend) (notesData : ParsedNotes.t)
    (questionObj : Question.t) (customInstructions : string)
    (textResponse : GenerateContentResponse) :
  let yields := synthesisYields b notesData questionObj customInstructions textResponse in
  let process := processSingleQuestion b notesData questionObj customInstructions in
  let oneLine := Forall (fun l => Js.singleLine l = true) in
  let plain := Forall (fun l => isDirectiveLine l = false) in
  (forall pre post n,
      oneLine (pre ++ post) -> plain pre -> plain post ->
      yields (Js.joinLines (pre ++ useImageLine n :: post)) ->
      exists r calls,
        process = (Resolved r, calls) /\
        Result.answer r = Js.trim (Js.joinLines (pre ++ post)) /\
        imageGenerationCalls calls = [] /\
        ((1 <= n <= length (ParsedNotes.images notesData))%nat ->
         exists img,
           nth_error (ParsedNotes.images notesData) (n - 1) = Some img /\
           Result.imageUrl r =
             Some (dataUri (ImagePart.mimeType img) (ImagePart.data img))) /\
        ((n = 0 \/ length (ParsedNotes.images notesData) < n)%nat ->
         Result.imageUrl r = None)) /\
  (forall pre post rest,
      oneLine (pre ++ rest :: post) -> plain pre -> plain post ->
      Js.truthy (Js.trim rest) = true ->
      yields (Js.joinLines (pre ++ generateImageLine rest :: post)) ->
      exists r calls invoked,
        process = (Resolved r, calls) /\
        Result.answer r = Js.trim (Js.joinLines (pre ++ post)) /\
        imageGenerationCalls calls =
          [{| request :=
                GenerateImages {| gi_model := imageModel;
                                  gi_prompt := Js.trim rest;
                                  gi_numberOfImages := 1;
                                  gi_outputMimeType := "image/jpeg" |};
              invocations := invoked |}] /\
        (1 <= invoked <= 4)%nat) /\
  (forall fullText,
      plain (Js.splitLines fullText) ->
      yields fullText ->
      exists r calls,
        process = (Resolved r, calls) /\
        Result.imageUrl r = None /\
        imageGenerationCalls calls = []).
Proof.
  intros yields process oneLine plain. subst yields process oneLine plain.
  split; [|split].
  - intros pre post n Hlines Hpre Hpost Hy.
    assert (Hparse : parseAiResponse (Js.joinLines (pre ++ useImageLine n :: post))
                     = (Js.trim (Js.joinLines (pre ++ post)), Some (useImageLine n))).
    { rewrite parseAiResponse_directive, useImageLine_trim; auto using useImageLine_directive.
      apply Forall_app in Hlines as [H1 H2]. apply Forall_app. split; [exact H1|].
      constructor; [|exact H2].
      unfold useImageLine, Js.singleLine, Js.ofNat.
      pose proof (ofNat_single_line (Nat.to_uint n)) as Hn. unfold Js.singleLine in Hn.
      clear -Hn. revert Hn. generalize (NilEmpty.string_of_uint (Nat.to_uint n)).
      intros s Hs.
      change (Js.allChars (fun c => negb (c =? Js.LF)%char) (s +:+ "]") = true).
      induction s as [|c s IH]; [reflexivity|].
      simpl in Hs. apply andb_true_iff in Hs as [Hc Hs].
      change (String c s +:+ "]") with (String c (s +:+ "]")).
      cbn [Js.allChars]. rewrite Hc, (IH Hs). reflexivity. }
    pose proof (resolveImageUrl_use b notesData n) as Himg. unfold ret in Himg.
    replace (Some (useImageLine n))
      with (snd (parseAiResponse (Js.joinLines (pre ++ useImageLine n :: post))))
      in Himg by (rewrite Hparse; reflexivity).
    destruct (processSingleQuestion_synthesized _ _ _ _ _ _ _ _ Hy Himg)
      as (c1 & c2 & Hnone & Hrun).
    rewrite Hparse in Hrun. cbn [fst] in Hrun.
    eexists _, _. split; [exact Hrun|]. cbn [Result.answer Result.imageUrl].
    split; [reflexivity|]. split; [exact Hnone|]. split.
    + intros [Hlo Hhi]. destruct n as [|i]; [lia|].
      replace (S i - 1)%nat with i by lia.
      destruct (nth_error (ParsedNotes.images notesData) i) as [img|] eqn:E.
      * exists img. split; reflexivity.
      * apply nth_error_None in E. lia.
    + intros [-> | Hhi]; [reflexivity|]. destruct n as [|i]; [reflexivity|].
      destruct (nth_error (ParsedNotes.images notesData) i) as [img|] eqn:E;
        [|reflexivity].
      assert (i < length (ParsedNotes.images notesData))%nat
        by (apply nth_error_Some; congruence).
      lia.
  - intros pre post rest Hlines Hpre Hpost Hprompt Hy.
    assert (Hparse : parseAiResponse (Js.joinLines (pre ++ generateImageLine rest :: post))
                     = (Js.trim (Js.joinLines (pre ++ post)),
                        Some (Js.trim (generateImageLine rest)))).
    { apply parseAiResponse_directive; auto using generateImageLine_directive.
      apply Forall_app in Hlines as [H1 H2]. apply Forall_app. split; [exact H1|].
      inversion H2 as [|? ? Hrest Hpost']; subst. constructor; [|exact Hpost'].
      exact Hrest. }
    destruct (resolveImageUrl_generate b notesData rest Hprompt) as [u Hu].
    replace (Some (Js.trim (generateImageLine rest)))
      with (snd (parseAiResponse (Js.joinLines (pre ++ generateImageLine rest :: post))))
      in Hu by (rewrite Hparse; reflexivity).
    destruct (processSingleQuestion_synthesized _ _ _ _ _ _ _ _ Hy Hu)
      as (c1 & c2 & Hnone & Hrun).
    rewrite Hparse in Hrun. cbn [fst] in Hrun.
    eexists _, _, _. split; [exact Hrun|]. cbn [Result.answer].
    split; [reflexivity|]. split.
    + unfold imageGenerationCalls in *. simpl in *.
      destruct (request c1); [|discriminate Hnone].
      destruct (request c2); [|discriminate Hnone]. reflexivity.
    + apply callApiWithRetry_default_attempts.
  - intros fullText Hplain Hy.
    assert (Himg : resolveImageUrl b notesData (snd (parseAiResponse fullText))
                   = (Resolved None, [])).
    { rewrite parseAiResponse_no_directive by exact Hplain. reflexivity. }
    destruct (processSingleQuestion_synthesized _ _ _ _ _ _ _ _ Hy Himg)
      as (c1 & c2 & Hnone & Hrun).
    eexists _, _. split; [exact Hrun|]. split; [reflexivity | exact Hnone].
Qed.

Lemma image_directive_resolution_witness :
  (exists r calls,
      processSingleQuestion
        (Sample.answering ("Some answer text." +:+ Js.nl +:+ "USE_IMAGE: [Image 2]"))
        Sample.notes Sample.question "" = (Resolved r, calls) /\
      Result.answer r = "Some answer text." /\
      imageGenerationCalls calls = [] /\
      Result.imageUrl r = Some "data:image/gif;base64,BBBB") /\
  (exists r calls invoked,
      processSingleQuestion
        (Sample.answering
           ("Some answer text." +:+ Js.nl +:+ "GENERATE_IMAGE_PROMPT: a cat"))
        Sample.notes Sample.question "" = (Resolved r, calls) /\
      Result.answer r = "Some answer text." /\
      imageGenerationCalls calls =
        [{| request :=
              GenerateImages {| gi_model := imageModel; gi_prompt := "a cat";
                                gi_numberOfImages := 1;
                                gi_outputMimeType := "image/jpeg" |};
            invocations := invoked |}] /\
      (1 <= invoked <= 4)%nat).
Proof.
  split.
  - destruct (proj1 (image_directive_resolution
                       (Sample.answering
                          ("Some answer text." +:+ Js.nl +:+ "USE_IMAGE: [Image 2]"))
                       Sample.notes Sample.question ""
                       (Sample.textOnly
                          ("Some answer text." +:+ Js.nl +:+ "USE_IMAGE: [Image 2]")))
                ["Some answer text."] [] 2%nat)
      as (r & calls & Hrun & Hanswer & Hcalls & Hin & _).
    + repeat constructor.
    + repeat constructor.
    + constructor.
    + exists (Sample.textOnly "YES"), "YES". repeat split; reflexivity.
    + exists r, calls. split; [exact Hrun|]. split; [exact Hanswer|].
      split; [exact Hcalls|].
      destruct Hin as (img & Himg & Hurl); [simpl; lia|].
      injection Himg as <-. exact Hurl.
  - destruct (proj1 (proj2 (image_directive_resolution
                       (Sample.answering
                          ("Some answer text." +:+ Js.nl +:+ "GENERATE_IMAGE_PROMPT: a cat"))
                       Sample.notes Sample.question ""
                       (Sample.textOnly
                          ("Some answer text." +:+ Js.nl +:+ "GENERATE_IMAGE_PROMPT: a cat"))))
                ["Some answer text."] [] " a cat")
      as (r & calls & invoked & Hrun & Hanswer & Hcalls & Hbound).
    + repeat constructor.
    + repeat constructor.
    + constructor.
    + reflexivity.
    + exists (Sample.textOnly "YES"), "YES". repeat split; reflexivity.
    + exists r, calls, invoked. repeat split; try assumption; lia.
Defined.

Lemma groundingSources_uri (response : GenerateContentResponse) :
  Forall (fun source => Source.uri source <> EmptyString) (groundingSources response).
Proof.
  unfold groundingSources.
  destruct (candidates response) as [[|c cs]|]; try constructor.
  destruct (groundingMetadata c) as [gm|]; try constructor.
  destruct (groundingChunks gm) as [chunks|]; try constructor.
  apply Forall_forall. intros source Hin.
  apply list_elem_of_In, List.filter_In in Hin as [_ Huri].
  destruct (Source.uri source); [discriminate | discriminate].
Qed.

(** The [try] block throws exactly when the probe or the synthesis stage
    fails: no error of the image stage leaves it. *)
Lemma processSingleQuestion_try_fails (b : Backend) (notesData : ParsedNotes.t)
    (questionObj : Question.t) (customInstructions : string) (error : JsError) :
  earlyStageFails b notesData questionObj customInstructions error <->
  exists calls,
    processSingleQuestion_try b notesData questionObj customInstructions
    = (Rejected error, calls).
Proof.
  unfold earlyStageFails, processSingleQuestion_try, awaitApi, bind, readFrom, ret, throw.
  cbv zeta.
  destruct (settled (callApiWithRetry
                       (generateContent b
                          (webSearchCheckRequest notesData (Question.text questionObj)))
                       3 1000 (random1000 b))) as [r1|e1].
  2:{ split.
      - intros [H | (r & H & _)]; [|discriminate H].
        injection H as ->. eexists; reflexivity.
      - intros [calls H]. injection H as -> _. left; reflexivity. }
  destruct (responseText r1) as [checkText|] eqn:Hcheck.
  2:{ split.
      - intros [H | (r & H & Hr)]; [discriminate H|].
        injection H as <-. rewrite Hcheck in Hr. subst error. eexists; reflexivity.
      - intros [calls H]. injection H as <- _. right. exists r1.
        split; [reflexivity|]. rewrite Hcheck. reflexivity. }
  cbv beta iota.
  destruct (settled (callApiWithRetry
                       (generateContent b
                          (answerRequest notesData (Question.text questionObj)
                             (Question.marks questionObj) customInstructions
                             (Js.includes (Js.toUpperCase (Js.trim checkText)) "NO")))
                       3 1000 (random1000 b))) as [r2|e2] eqn:Hsynth.
  2:{ split.
      - intros [H | (r & H & Hr)]; [discriminate H|].
        injection H as <-. rewrite Hcheck, Hsynth in Hr.
        destruct Hr as [H | (r' & H & _)]; [|discriminate H].
        injection H as ->. eexists; reflexivity.
      - intros [calls H]. injection H as -> _. right. exists r1.
        split; [reflexivity|]. rewrite Hcheck, Hsynth. left; reflexivity. }
  destruct (responseText r2) as [fullText|] eqn:Htext.
  2:{ split.
      - intros [H | (r & H & Hr)]; [discriminate H|].
        injection H as <-. rewrite Hcheck, Hsynth in Hr.
        destruct Hr as [H | (r' & H & _ & ->)]; [discriminate H|].
        eexists; reflexivity.
      - intros [calls H]. injection H as <- _. right. exists r1.
        split; [reflexivity|]. rewrite Hcheck, Hsynth.
        right. exists r2. repeat split. exact Htext. }
  cbv beta iota.
  destruct (parseAiResponse fullText) as [answer imageDirective].
  destruct (resolveImageUrl_resolves b notesData imageDirective) as (u & calls3 & ->).
  split.
  - intros [H | (r & H & Hr)]; [discriminate H|].
    injection H as <-. rewrite Hcheck, Hsynth in Hr.
    destruct Hr as [H | (r' & H & Hnone & _)]; [discriminate H|].
    injection H as <-. congruence.
  - intros [calls H]. discriminate H.
Qed.

(** A failure of the probe or of the synthesis stage of a question is
    turned into the fallback result. *)
Lemma processSingleQuestion_fallback (b : Backend) (notesData : ParsedNotes.t)
    (questionObj : Question.t) (customInstructions : string) (error : JsError) :
  earlyStageFails b notesData questionObj customInstructions error ->
  fst (processSingleQuestion b notesData questionObj customInstructions)
  = Resolved (fallbackResult questionObj error).
Proof.
  intros [calls Htry]%processSingleQuestion_try_fails.
  unfold processSingleQuestion, tryCatch. rewrite Htry. reflexivity.
Qed.

(** [processSingleQuestion] always resolves, with a result for the question
    it was given whose sources all have a URI. *)
Lemma processSingleQuestion_resolves (b : Backend) (notesData : ParsedNotes.t)
    (questionObj : Question.t) (customInstructions : string) :
  exists r calls,
    processSingleQuestion b notesData questionObj customInstructions
    = (Resolved r, calls) /\
    Result.question r = Question.text questionObj /\
    Result.marks r = Question.marks questionObj /\
    Forall (fun source => Source.uri source <> EmptyString) (Result.sources r).
Proof.
  unfold processSingleQuestion, tryCatch.
  destruct (processSingleQuestion_try b notesData questionObj customInstructions)
    as [[r|e] calls] eqn:Htry.
  2:{ eexists _, _. split; [reflexivity|]. repeat split. constructor. }
  exists r, calls. split; [reflexivity|].
  revert Htry.
  unfold processSingleQuestion_try, awaitApi, bind, readFrom, ret, throw.
  destruct (settled _) as [r1|e1]; [|discriminate].
  destruct (responseText r1) as [checkText|]; [|discriminate].
  cbv beta iota.
  destruct (settled _) as [r2|e2]; [|discriminate].
  destruct (responseText r2) as [fullText|]; [|discriminate].
  cbv beta iota.
  destruct (parseAiResponse fullText) as [answer imageDirective].
  destruct (resolveImageUrl_resolves b notesData imageDirective) as (u & calls3 & ->).
  intros [= <- _]. repeat split. apply groundingSources_uri.
Qed.

(** ** The worker pool *)

Lemma awaitingCount_app (ws : list Worker) (x : Worker) :
  awaitingCount (ws ++ [x]) = awaitingCount ws + (if isAwaiting x then 1 else 0).
Proof.
  unfold awaitingCount. rewrite List.filter_app, List.length_app. simpl.
  destruct (isAwaiting x); reflexivity.
Qed.

Lemma awaitingCount_insert (ws : list Worker) (w k : nat) (q : Question.t)
    (x : Worker) :
  ws !! w = Some (Awaiting k q) ->
  awaitingCount (<[w:=x]> ws) + 1
  = awaitingCount ws + (if isAwaiting x then 1 else 0).
Proof.
  unfold awaitingCount. revert w.
  induction ws as [|y ws IH]; intros w Hw; [discriminate|].
  destruct w as [|w]; simpl in *.
  - injection Hw as ->. simpl. destruct (isAwaiting x); simpl; lia.
  - specialize (IH w Hw). destruct (isAwaiting y); simpl; lia.
Qed.

Lemma awaitingCount_returned (ws : list Worker) :
  Forall (fun w => w = Returned) ws -> awaitingCount ws = 0.
Proof.
  unfold awaitingCount. induction 1 as [|w ws -> _ IH]; [reflexivity|exact IH].
Qed.

Lemma awaitingCount_positive (ws : list Worker) (w k : nat) (q : Question.t) :
  ws !! w = Some (Awaiting k q) -> 0 < awaitingCount ws.
Proof.
  intros Hw. pose proof (awaitingCount_insert ws w k q Returned Hw). simpl in *. lia.
Qed.

Lemma elem_of_insert_inv (ws : list Worker) (w : nat) (x y : Worker) :
  y ∈ <[w:=x]> ws -> y = x \/ y ∈ ws.
Proof.
  intros (i & Hi)%list_elem_of_lookup.
  destruct (decide (w = i)) as [->|Hne].
  - destruct (decide (i < length ws)) as [Hlt|Hge].
    + rewrite list_lookup_insert_eq in Hi by exact Hlt. left. congruence.
    + rewrite list_insert_ge in Hi by lia. right. eapply list_elem_of_lookup_2, Hi.
  - rewrite list_lookup_insert_ne in Hi by exact Hne.
    right. eapply list_elem_of_lookup_2, Hi.
Qed.

Lemma progress_snoc (total completed : nat) :
  List.map (fun c => (c, total)) (seq 1 completed) ++ [(S completed, total)]
  = List.map (fun c => (c, total)) (seq 1 (S completed)).
Proof. rewrite seq_S, List.map_app. reflexivity. Qed.

Lemma queue_head (questions queue : list Question.t) (n : nat) (q : Question.t) :
  q :: queue = drop n questions ->
  questions !! n = Some q /\ queue = drop (S n) questions /\ n < length questions.
Proof.
  intros Hq.
  assert (Hn : questions !! n = Some q).
  { pose proof (lookup_drop questions n 0) as H. rewrite <- Hq in H.
    rewrite Nat.add_0_r in H. symmetry. exact H. }
  split; [exact Hn|]. split.
  - rewrite (drop_S _ _ _ Hn) in Hq. congruence.
  - eapply lookup_lt_Some, Hn.
Qed.

Ltac pool_simpl :=
  cbn [questionQueue shifted resultsMap completedCount onProgress apiCalls
       workers fst snd].

(** The nine parts of the pool invariant, one goal each. *)
Ltac split_inv :=
  refine (conj _ (conj _ (conj _ (conj _ (conj _ (conj _ (conj _ (conj _ _)))))))).

Section PoolFacts.
Variable notesData : ParsedNotes.t.
Variable questions : list Question.t.
Variable customInstructions : string.
Variable backend : nat -> Backend.

Local Abbreviation Inv := (PoolInv notesData questions customInstructions backend).
Local Abbreviation resume' := (resume notesData questions customInstructions backend).
Local Abbreviation stored := (storedResult notesData customInstructions backend).

Lemma PoolInv_start : Inv (MkPool questions 0 ∅ 0 [] [] []).
Proof.
  unfold PoolInv; simpl. split_inv; try reflexivity; try lia.
  - intros w k q H. destruct w; discriminate H.
  - intros H. apply elem_of_nil in H. destruct H.
  - intros t r H. rewrite lookup_empty in H. discriminate H.
Qed.

(** A worker that is started keeps the invariant. *)
Lemma PoolInv_spawn (p : Pool) :
  Inv p ->
  Inv (let (w, p') := enterLoop p in
       MkPool (questionQueue p') (shifted p') (resultsMap p') (completedCount p')
              (onProgress p') (apiCalls p') (workers p' ++ [w])).
Proof.
  destruct p as [queue sh m cc prog calls ws].
  unfold PoolInv, enterLoop, awaited; simpl.
  intros (Hq & Hsh & Haw & Hcnt & Hprog & Hret & Hmap & Hdone & Hcalls).
  destruct queue as [|q' rest]; simpl.
  - split_inv; auto.
    + intros w k q H.
      apply lookup_app_Some in H as [H | [_ H]]; [apply (Haw _ _ _ H)|].
      destruct (w - length ws) as [|n]; [|destruct n]; discriminate H.
    + rewrite awaitingCount_app. simpl. lia.
    + intros k q Hk Hlt. destruct (Hdone k q Hk Hlt) as [(w & q0 & Hw) | Hs].
      * left. exists w, q0. apply lookup_app_l_Some, Hw.
      * right. exact Hs.
  - destruct (queue_head _ _ _ _ Hq) as (Hhead & Hrest & Hlt).
    split_inv; auto.
    + intros w k q H.
      apply lookup_app_Some in H as [H | [_ H]].
      * destruct (Haw _ _ _ H). split; [lia | assumption].
      * destruct (w - length ws) as [|n]; [|destruct n; discriminate H].
        injection H as <- <-. split; [lia | exact Hhead].
    + rewrite awaitingCount_app. simpl. lia.
    + intros [Hin | Hin]%elem_of_app.
      * discriminate (Hret Hin).
      * apply list_elem_of_singleton in Hin. discriminate Hin.
    + intros k q Hk Hlt'.
      destruct (decide (k = sh)) as [->|Hne].
      * left. exists (length ws), q'.
        rewrite lookup_app_r by lia. rewrite Nat.sub_diag. reflexivity.
      * destruct (Hdone k q Hk) as [(w & q0 & Hw) | Hs]; [lia| |right; exact Hs].
        left. exists w, q0. apply lookup_app_l_Some, Hw.
Qed.

Lemma startWorkers_inv (n : nat) (p : Pool) :
  Inv p ->
  Inv (startWorkers n p) /\
  length (workers (startWorkers n p)) = length (workers p) + n.
Proof.
  revert p. induction n as [|n IH]; intros p Hp; simpl; [split; [exact Hp|lia]|].
  pose proof (PoolInv_spawn p Hp) as Hspawn.
  destruct (enterLoop p) as [w p'] eqn:He.
  destruct (IH _ Hspawn) as [Hinv Hlen]. split; [exact Hinv|].
  rewrite Hlen. simpl. rewrite length_app. simpl.
  assert (Hsame : workers p' = workers p).
  { unfold enterLoop in He. destruct (questionQueue p); injection He as _ <-; reflexivity. }
  rewrite Hsame. lia.
Qed.

(** A worker that is resumed keeps the invariant and completes one more
    question. *)
Lemma PoolInv_resume (w : nat) (p p' : Pool) :
  Inv p -> resume' w p = Some p' ->
  Inv p' /\ completedCount p' = S (completedCount p) /\
  length (workers p') = length (workers p).
Proof.
  destruct p as [queue sh m cc prog calls ws].
  unfold PoolInv, resume, enterLoop, awaited; pool_simpl.
  intros (Hq & Hsh & Haw & Hcnt & Hprog & Hret & Hmap & Hdone & Hcalls).
  destruct (ws !! w) as [[k0 q0|]|] eqn:Hw; try discriminate.
  destruct (Haw _ _ _ Hw) as [Hk0 Hq0].
  assert (Hwlt : w < length ws) by (eapply lookup_lt_Some, Hw).
  assert (Hmap' : forall t r,
             <[Question.text q0 := stored k0 q0]> m !! t = Some r ->
             exists k q, questions !! k = Some q /\ Question.text q = t /\
                         r = stored k q).
  { intros t r Hl. destruct (decide (Question.text q0 = t)) as [<-|Hne].
    - rewrite lookup_insert_eq in Hl. injection Hl as <-. eauto.
    - rewrite lookup_insert_ne in Hl by exact Hne. eauto. }
  assert (Hpast : forall x k q,
             questions !! k = Some q -> k < sh ->
             (exists w1 q1, <[w:=x]> ws !! w1 = Some (Awaiting k q1)) \/
             is_Some (<[Question.text q0 := stored k0 q0]> m !! Question.text q)).
  { intros x k q Hk Hlt. destruct (Hdone k q Hk Hlt) as [(w1 & q1 & Hw1) | Hs].
    - destruct (decide (w = w1)) as [->|Hne].
      + right. rewrite Hw in Hw1. injection Hw1 as <- <-.
        rewrite Hq0 in Hk. injection Hk as <-.
        rewrite lookup_insert_eq. eauto.
      + left. exists w1, q1. rewrite list_lookup_insert_ne by exact Hne. exact Hw1.
    - right. apply lookup_insert_is_Some'. right. exact Hs. }
  assert (Hothers : forall x w1 k q,
             <[w:=x]> ws !! w1 = Some (Awaiting k q) ->
             x = Awaiting k q \/ ws !! w1 = Some (Awaiting k q)).
  { intros x w1 k q H. destruct (decide (w = w1)) as [->|Hne].
    - rewrite list_lookup_insert_eq in H by exact Hwlt. left. congruence.
    - rewrite list_lookup_insert_ne in H by exact Hne. right. exact H. }
  destruct queue as [|q' rest]; pool_simpl; intros [= <-]; pool_simpl.
  - split; [|split; [reflexivity | apply length_insert]].
    split_inv.
    + exact Hq.
    + exact Hsh.
    + intros w1 k q H. destruct (Hothers _ _ _ _ H) as [Hx | Hold];
        [discriminate Hx | apply (Haw _ _ _ Hold)].
    + pose proof (awaitingCount_insert ws w k0 q0 Returned Hw) as Hc.
      cbn [isAwaiting] in Hc. lia.
    + rewrite Hprog. apply progress_snoc.
    + reflexivity.
    + exact Hmap'.
    + intros k q Hk Hlt. apply (Hpast Returned k q Hk Hlt).
    + discriminate.
  - destruct (queue_head _ _ _ _ Hq) as (Hhead & Hrest & Hlt).
    split; [|split; [reflexivity | apply length_insert]].
    split_inv.
    + exact Hrest.
    + lia.
    + intros w1 k q H. destruct (Hothers _ _ _ _ H) as [Hx | Hold].
      * injection Hx as <- <-. split; [lia | exact Hhead].
      * destruct (Haw _ _ _ Hold). split; [lia | assumption].
    + pose proof (awaitingCount_insert ws w k0 q0 (Awaiting sh q') Hw) as Hc.
      cbn [isAwaiting] in Hc. lia.
    + rewrite Hprog. apply progress_snoc.
    + intros [Heq | Hin]%elem_of_insert_inv; [discriminate Heq|].
      discriminate (Hret Hin).
    + exact Hmap'.
    + intros k q Hk Hlt'.
      destruct (decide (k = sh)) as [->|Hne].
      * left. exists w, q'. apply list_lookup_insert_eq, Hwlt.
      * apply (Hpast (Awaiting sh q') k q Hk). lia.
    + discriminate.
Qed.

Variable poolSize : nat.

Local Abbreviation initial := (initialPool questions poolSize).
Local Abbreviation step' := (step notesData questions customInstructions backend).
Local Abbreviation final :=
  (finalPool notesData questions customInstructions backend poolSize).

Lemma initialPool_inv : Inv initial /\ length (workers initial) = poolSize.
Proof.
  destruct (startWorkers_inv poolSize _ PoolInv_start) as [Hinv Hlen].
  split; [exact Hinv | exact Hlen].
Qed.

Lemma reachable_inv (p : Pool) :
  rtc step' initial p -> Inv p /\ length (workers p) = poolSize.
Proof.
  intros Hrun.
  refine (rtc_ind_r (fun p => Inv p /\ length (workers p) = poolSize) initial
            initialPool_inv _ p Hrun).
  intros p1 p2 _ [w Hstep] [Hinv Hlen].
  destruct (PoolInv_resume w p1 p2 Hinv Hstep) as (Hinv' & _ & Hlen').
  split; [exact Hinv' | congruence].
Qed.

Lemma workers_cases (ws : list Worker) :
  Forall (fun w => w = Returned) ws \/
  exists w k q, ws !! w = Some (Awaiting k q).
Proof.
  induction ws as [|x ws [IH | (w & k & q & Hw)]].
  - left. constructor.
  - destruct x as [k q|].
    + right. exists 0, k, q. reflexivity.
    + left. constructor; [reflexivity | exact IH].
  - right. exists (S w), k, q. exact Hw.
Qed.

Lemma resume_enabled (p : Pool) (w k : nat) (q : Question.t) :
  workers p !! w = Some (Awaiting k q) -> exists p', resume' w p = Some p'.
Proof.
  intros Hw. unfold resume. rewrite Hw.
  destruct (enterLoop _) as [w' p2]. eexists. reflexivity.
Qed.

Lemma resume_awaiting (p p' : Pool) (w : nat) :
  resume' w p = Some p' -> exists k q, workers p !! w = Some (Awaiting k q).
Proof.
  unfold resume. destruct (workers p !! w) as [[k q|]|]; try discriminate. eauto.
Qed.

Lemma step_counts (p p' : Pool) :
  Inv p -> step' p p' ->
  Inv p' /\ completedCount p' = S (completedCount p) /\
  completedCount p < length questions.
Proof.
  intros Hinv [w Hstep].
  destruct (PoolInv_resume w p p' Hinv Hstep) as (Hinv' & Hcc & _).
  split; [exact Hinv'|]. split; [exact Hcc|].
  destruct (resume_awaiting _ _ _ Hstep) as (k & q & Hw).
  pose proof (awaitingCount_positive _ _ _ _ Hw).
  destruct Hinv as (_ & Hsh & _ & Hcnt & _). lia.
Qed.

(** Every run of the pool ends: there is no infinite sequence of steps. *)
Lemma pool_terminates (n : nat) (p : Pool) :
  Inv p -> length questions - completedCount p <= n -> sn step' p.
Proof.
  revert p. induction n as [|n IH]; intros p Hinv Hn; constructor; intros p' Hstep;
    destruct (step_counts p p' Hinv Hstep) as (Hinv' & Hcc & Hlt).
  - lia.
  - apply IH; [exact Hinv' | lia].
Qed.

(** From wherever the pool is, the workers can be resumed until all have
    returned. *)
Lemma pool_finishes (n : nat) (p : Pool) :
  Inv p -> length questions - completedCount p <= n ->
  exists p', rtc step' p p' /\ allReturned p'.
Proof.
  revert p. induction n as [|n IH]; intros p Hinv Hn;
    (destruct (workers_cases (workers p)) as [Hall | (w & k & q & Hw)];
     [exists p; split; [apply rtc_refl | exact Hall] |]);
    destruct (resume_enabled p w k q Hw) as [p' Hres];
    destruct (step_counts p p' Hinv (ex_intro _ w Hres)) as (Hinv' & Hcc & Hlt).
  - lia.
  - destruct (IH p' Hinv') as (p'' & Hrun & Hfin); [lia|].
    exists p''. split; [|exact Hfin].
    eapply rtc_l; [exists w; exact Hres | exact Hrun].
Qed.

Lemma finalPool_exists : exists p, final p.
Proof.
  destruct initialPool_inv as [Hinv _].
  destruct (pool_finishes _ _ Hinv (le_n _)) as (p & Hrun & Hfin).
  exists p. split; assumption.
Qed.

(** When all workers have returned, every question was handed out and
    completed. *)
Lemma finalPool_counts (p : Pool) :
  1 <= poolSize -> final p ->
  Inv p /\ shifted p = length questions /\ completedCount p = length questions.
Proof.
  intros Hsize [Hrun Hall].
  destruct (reachable_inv p Hrun) as [Hinv Hlen]. split; [exact Hinv|].
  pose proof (awaitingCount_returned _ Hall) as Hzero.
  destruct Hinv as (Hq & Hsh & _ & Hcnt & _ & Hret & _).
  assert (Hempty : questionQueue p = []).
  { apply Hret. unfold allReturned in Hall.
    destruct (workers p) as [|x ws]; [simpl in Hlen; lia|].
    inversion Hall; subst. apply list_elem_of_here. }
  assert (length questions <= shifted p).
  { rewrite Hq in Hempty. apply (f_equal length) in Hempty.
    rewrite length_drop in Hempty. simpl in Hempty. lia. }
  lia.
Qed.

(** In the end the map holds, under the text of each question, the result
    stored for a question of that text; for a text that occurs once, the
    result stored for that very question. *)
Lemma finalPool_results (p : Pool) (j : nat) (q : Question.t) :
  1 <= poolSize -> final p -> questions !! j = Some q ->
  (exists k q', questions !! k = Some q' /\
                Question.text q' = Question.text q /\
                resultsMap p !! Question.text q = Some (stored k q')) /\
  (uniqueText questions j ->
   resultsMap p !! Question.text q = Some (stored j q)).
Proof.
  intros Hsize Hfin Hj.
  destruct (finalPool_counts p Hsize Hfin) as (Hinv & Hsh & _).
  destruct Hfin as [_ Hall].
  destruct Hinv as (_ & _ & _ & _ & _ & _ & Hmap & Hdone & _).
  assert (Hsome : exists k q', questions !! k = Some q' /\
                    Question.text q' = Question.text q /\
                    resultsMap p !! Question.text q = Some (stored k q')).
  { destruct (Hdone j q Hj) as [(w & q0 & Hw) | [r Hr]].
    - rewrite Hsh. eapply lookup_lt_Some, Hj.
    - unfold allReturned in Hall. rewrite Forall_lookup in Hall.
      discriminate (Hall _ _ Hw).
    - destruct (Hmap _ _ Hr) as (k & q' & Hk & Ht & ->). eauto. }
  split; [exact Hsome|].
  intros Huniq. destruct Hsome as (k & q' & Hk & Ht & Hr).
  pose proof (Huniq q Hj k q' Hk Ht) as ->.
  rewrite Hj in Hk. injection Hk as <-. exact Hr.
Qed.

Lemma runSchedule_rtc (schedule : list nat) (p p' : Pool) :
  runSchedule notesData questions customInstructions backend schedule p = Some p' ->
  rtc step' p p'.
Proof.
  revert p. induction schedule as [|w schedule IH]; intros p; simpl.
  - intros [= <-]. apply rtc_refl.
  - destruct (resume' w p) as [p1|] eqn:Hres; [|discriminate].
    intros Hrun. eapply rtc_l; [exists w; exact Hres | apply IH, Hrun].
Qed.

End PoolFacts.

Lemma storedResult_spec (notesData : ParsedNotes.t) (customInstructions : string)
    (backend : nat -> Backend) (k : nat) (q : Question.t) :
  let r := storedResult notesData customInstructions backend k q in
  fst (processSingleQuestion (backend k) notesData q customInstructions) = Resolved r /\
  Result.question r = Question.text q /\
  Result.marks r = Question.marks q /\
  Forall (fun source => Source.uri source <> EmptyString) (Result.sources r).
Proof.
  unfold storedResult.
  destruct (processSingleQuestion_resolves (backend k) notesData q customInstructions)
    as (r & calls & -> & Hq & Hm & Hs).
  simpl. auto.
Qed.

Lemma resultsOf_lookup (questions : list Question.t) (p : Pool) (j : nat)
    (q : Question.t) :
  questions !! j = Some q ->
  resultsOf questions p !! j = Some (resultsMap p !! Question.text q).
Proof.
  intros Hj. unfold resultsOf.
  change (List.map (fun q0 => resultsMap p !! Question.text q0) questions)
    with ((fun q0 => resultsMap p !! Question.text q0) <$> questions).
  rewrite list_lookup_fmap, Hj. reflexivity.
Qed.

(** C4. With at least one worker, every run of the pool ends, some run
    does end, and whenever all workers have returned [onProgress] was
    called exactly once per question, with [completed] counting 1, 2, ...
    up to the number of questions and [total] that number. *)
Theorem progress_is_monotonic (notesData : ParsedNotes.t)
    (questions : list Question.t) (customInstructions : string)
    (backend : nat -> Backend) (poolSize : nat) :
  1 <= poolSize ->
  sn (step notesData questions customInstructions backend)
     (initialPool questions poolSize) /\
  (exists results progress calls,
      poolReturns notesData questions customInstructions backend poolSize
                  results progress calls) /\
  (forall results progress calls,
      poolReturns notesData questions customInstructions backend poolSize
                  results progress calls ->
      progress =
        List.map (fun completed => (completed, length questions))
                 (seq 1 (length questions))).
Proof.
  intros Hsize. split; [|split].
  - destruct (initialPool_inv notesData questions customInstructions backend poolSize)
      as [Hinv _].
    eapply pool_terminates; [exact Hinv | apply le_n].
  - destruct (finalPool_exists notesData questions customInstructions backend poolSize)
      as [p Hp].
    exists (resultsOf questions p), (onProgress p), (apiCalls p), p. auto.
  - intros results progress calls (p & Hp & _ & <- & _).
    destruct (finalPool_counts _ _ _ _ _ p Hsize Hp) as (Hinv & _ & Hcc).
    destruct Hinv as (_ & _ & _ & _ & Hprog & _).
    rewrite Hprog, Hcc. reflexivity.
Qed.

Lemma progress_is_monotonic_witness :
  exists results calls,
    generateAnswers Sample.notes Sample.three ""
      (fun _ => Sample.answering Sample.entropy)
      results [(1, 3); (2, 3); (3, 3)] calls.
Proof.
  destruct (progress_is_monotonic Sample.notes Sample.three ""
              (fun _ => Sample.answering Sample.entropy) CONCURRENCY_LIMIT)
    as (_ & (results & progress & calls & Hrun) & Hall).
  - unfold CONCURRENCY_LIMIT. lia.
  - exists results, calls. unfold generateAnswers.
    rewrite <- (Hall results progress calls Hrun) at 1. exact Hrun.
Defined.

(** C10. On the empty list of questions no worker is ever resumed, so no
    question is processed; the pool resolves, and only with the empty list
    of results, no call of [onProgress] and no backend call. *)
Theorem empty_question_list (notesData : ParsedNotes.t)
    (customInstructions : string) (backend : nat -> Backend) (poolSize : nat) :
  (forall p,
      rtc (step notesData [] customInstructions backend) (initialPool [] poolSize) p ->
      p = initialPool [] poolSize) /\
  poolReturns notesData [] customInstructions backend poolSize [] [] [] /\
  (forall results progress calls,
      poolReturns notesData [] customInstructions backend poolSize
                  results progress calls ->
      results = [] /\ progress = [] /\ calls = []).
Proof.
  assert (Hstuck : forall p,
             PoolInv notesData [] customInstructions backend p ->
             forall p', ~ step notesData [] customInstructions backend p p').
  { intros p Hinv p' [w Hstep].
    destruct (resume_awaiting _ _ _ _ _ _ _ Hstep) as (k & q & Hw).
    destruct Hinv as (_ & _ & Haw & _).
    destruct (Haw _ _ _ Hw) as [_ Hk]. destruct k; discriminate Hk. }
  destruct (initialPool_inv notesData [] customInstructions backend poolSize)
    as [Hinv _].
  assert (Hfixed : forall p,
             rtc (step notesData [] customInstructions backend)
                 (initialPool [] poolSize) p ->
             p = initialPool [] poolSize).
  { intros p Hrun. destruct Hrun as [|p0 p1 p2 Hstep _]; [reflexivity|].
    destruct (Hstuck _ Hinv _ Hstep). }
  assert (Hquiet : forall p,
             finalPool notesData [] customInstructions backend poolSize p ->
             resultsOf [] p = [] /\ onProgress p = [] /\ apiCalls p = []).
  { intros p [Hrun _]. rewrite (Hfixed p Hrun). split; [reflexivity|].
    destruct Hinv as (_ & Hsh & _ & Hcnt & Hprog & _ & _ & _ & Hcalls).
    simpl in Hsh.
    assert (Hzero : completedCount (initialPool [] poolSize) = 0) by lia.
    rewrite Hprog, Hzero. split; [reflexivity | exact (Hcalls Hzero)]. }
  split; [exact Hfixed|]. split.
  - destruct (finalPool_exists notesData [] customInstructions backend poolSize)
      as [p Hp].
    destruct (Hquiet p Hp) as (H1 & H2 & H3). exists p. auto.
  - intros results progress calls (p & Hp & <- & <- & <-). exact (Hquiet p Hp).
Qed.

Lemma empty_question_list_witness :
  generateAnswers Sample.notes [] "" (fun _ => Sample.answering Sample.entropy)
                  [] [] [].
Proof.
  exact (proj1 (proj2 (empty_question_list Sample.notes ""
                         (fun _ => Sample.answering Sample.entropy)
                         CONCURRENCY_LIMIT))).
Defined.

(** C6. No result the pool resolves with has a source whose [uri] is
    empty. *)
Theorem sources_have_uri (notesData : ParsedNotes.t)
    (questions : list Question.t) (customInstructions : string)
    (backend : nat -> Backend) (poolSize : nat)
    (results : list (option Result.t)) (progress : list (nat * nat))
    (calls : list ApiCall) :
  poolReturns notesData questions customInstructions backend poolSize
              results progress calls ->
  forall r, In (Some r) results ->
    Forall (fun source => Source.uri source <> EmptyString) (Result.sources r).
Proof.
  intros (p & [Hrun _] & <- & _) r Hin.
  destruct (reachable_inv _ _ _ _ _ p Hrun) as [Hinv _].
  destruct Hinv as (_ & _ & _ & _ & _ & _ & Hmap & _).
  unfold resultsOf in Hin. apply List.in_map_iff in Hin as (q & Hq & _).
  destruct (Hmap _ _ Hq) as (k & q' & _ & _ & ->).
  apply storedResult_spec.
Qed.

Lemma schedule_returns (notesData : ParsedNotes.t) (questions : list Question.t)
    (customInstructions : string) (backend : nat -> Backend) (poolSize : nat)
    (schedule : list nat) (p : Pool) :
  runSchedule notesData questions customInstructions backend schedule
              (initialPool questions poolSize) = Some p ->
  forallb (fun w => negb (isAwaiting w)) (workers p) = true ->
  poolReturns notesData questions customInstructions backend poolSize
              (resultsOf questions p) (onProgress p) (apiCalls p).
Proof.
  intros Hrun Hall. exists p. split; [|auto]. split.
  - eapply runSchedule_rtc, Hrun.
  - unfold allReturned. apply Forall_forall. intros w Hw.
    rewrite forallb_forall in Hall. apply list_elem_of_In in Hw.
    specialize (Hall w Hw). destruct w; [discriminate Hall | reflexivity].
Qed.

Lemma sources_have_uri_witness :
  exists r progress calls,
    generateAnswers Sample.notes [Sample.question] "" (fun _ => Sample.imageFailing)
                    [Some r] progress calls /\
    Result.sources r = [Source.mk "https://example.org/a" "A page"] /\
    Forall (fun source => Source.uri source <> EmptyString) (Result.sources r).
Proof.
  pose proof (schedule_returns Sample.notes [Sample.question] ""
                (fun _ => Sample.imageFailing) CONCURRENCY_LIMIT [0]) as Hrun.
  destruct (runSchedule _ _ _ _ _ _) as [p|] eqn:E; [|vm_compute in E; discriminate E].
  vm_compute in E. injection E as <-.
  specialize (Hrun _ eq_refl eq_refl).
  eexists _, _, _. split; [exact Hrun|]. split; [reflexivity|].
  exact (sources_have_uri _ _ _ _ _ _ _ _ Hrun _ (or_introl eq_refl)).
Defined.

(** X16. A question whose probe or synthesis stage fails
    with [error] gets the fallback result: the rate-limit message when
    [error] is an [Error] whose message mentions RESOURCE_EXHAUSTED or "rate
    limit" (as the error of exhausted retries does), the generic message
    otherwise, no image and no sources. However the workers are resumed, the
    results come one per question; the entry of the failing question is
    defined, and is that fallback when no other question has its text; and
    every other question whose text occurs once has the result of its own
    processing, the same as in a run where the failing question meets another
    backend. *)
Theorem question_failure_is_contained (notesData : ParsedNotes.t)
    (questions : list Question.t) (customInstructions : string)
    (backend baseline : nat -> Backend) (poolSize : nat)
    (j : nat) (q : Question.t) (error : JsError) (p p' : Pool) :
  1 <= poolSize ->
  questions !! j = Some q ->
  earlyStageFails (backend j) notesData q customInstructions error ->
  (forall k, k <> j -> baseline k = backend k) ->
  finalPool notesData questions customInstructions backend poolSize p ->
  finalPool notesData questions customInstructions baseline poolSize p' ->
  fst (processSingleQuestion (backend j) notesData q customInstructions)
    = Resolved (Result.mk (Question.text q) (Question.marks q)
                  (if mentionsRateLimit error then rateLimitAnswer
                   else genericFailureAnswer)
                  None []) /\
  rateLimitAnswer <> genericFailureAnswer /\
  (error = newError rateLimitExceededMessage -> mentionsRateLimit error = true) /\
  length (resultsOf questions p) = length questions /\
  (exists r,
      resultsOf questions p !! j = Some (Some r) /\
      (uniqueText questions j -> r = fallbackResult q error)) /\
  (forall i q_i,
      i <> j -> questions !! i = Some q_i -> uniqueText questions i ->
      exists r,
        fst (processSingleQuestion (baseline i) notesData q_i customInstructions)
          = Resolved r /\
        resultsOf questions p !! i = Some (Some r) /\
        resultsOf questions p' !! i = Some (Some r)).
Proof.
  intros Hsize Hj Hfail Hagree Hp Hp'.
  pose proof (processSingleQuestion_fallback _ _ _ _ _ Hfail) as Hfallback.
  split; [exact Hfallback|]. split; [discriminate|].
  split; [intros ->; reflexivity|].
  split; [unfold resultsOf; apply length_map|]. split.
  - destruct (finalPool_results _ _ _ _ _ p j q Hsize Hp Hj)
      as ((k & q' & _ & _ & Hr) & Huniq).
    exists (storedResult notesData customInstructions backend k q').
    split; [rewrite (resultsOf_lookup _ _ _ _ Hj), Hr; reflexivity|].
    intros Hu. specialize (Huniq Hu). rewrite Hr in Huniq. injection Huniq as ->.
    destruct (storedResult_spec notesData customInstructions backend j q) as [Hs _].
    rewrite Hfallback in Hs. injection Hs as <-. reflexivity.
  - intros i q_i Hne Hi Hu.
    destruct (finalPool_results _ _ _ _ _ p i q_i Hsize Hp Hi) as [_ Hr].
    destruct (finalPool_results _ _ _ _ _ p' i q_i Hsize Hp' Hi) as [_ Hr'].
    exists (storedResult notesData customInstructions baseline i q_i).
    split; [apply storedResult_spec|].
    rewrite !(resultsOf_lookup _ _ _ _ Hi), (Hr Hu), (Hr' Hu).
    split; [|reflexivity].
    unfold storedResult. rewrite (Hagree i Hne). reflexivity.
Qed.

Lemma three_unique (i : nat) : uniqueText Sample.three i.
Proof.
  intros q Hq k q' Hk Ht.
  destruct i as [|[|[|i]]]; try discriminate Hq;
    destruct k as [|[|[|k]]]; try discriminate Hk;
    try reflexivity;
    injection Hq as <-; injection Hk as <-; discriminate Ht.
Qed.

Lemma question_failure_is_contained_witness :
  exists p p',
    finalPool Sample.notes Sample.three "" Sample.secondFails CONCURRENCY_LIMIT p /\
    finalPool Sample.notes Sample.three "" Sample.noneFails CONCURRENCY_LIMIT p' /\
    resultsOf Sample.three p !! 1 =
      Some (Some (Result.mk "What is a dog?" None genericFailureAnswer None [])) /\
    resultsOf Sample.three p !! 0 = resultsOf Sample.three p' !! 0 /\
    resultsOf Sample.three p !! 2 = resultsOf Sample.three p' !! 2.
Proof.
  destruct (finalPool_exists Sample.notes Sample.three "" Sample.secondFails
              CONCURRENCY_LIMIT) as [p Hp].
  destruct (finalPool_exists Sample.notes Sample.three "" Sample.noneFails
              CONCURRENCY_LIMIT) as [p' Hp'].
  destruct (question_failure_is_contained Sample.notes Sample.three ""
              Sample.secondFails Sample.noneFails CONCURRENCY_LIMIT
              1 (Question.mk "What is a dog?" None) Sample.serverError p p')
    as (_ & _ & _ & _ & (r & Hr & Hu) & Hothers); try assumption.
  - unfold CONCURRENCY_LIMIT. lia.
  - reflexivity.
  - right. exists (Sample.textOnly "YES"). split; [reflexivity|].
    left. reflexivity.
  - intros k Hk. destruct k as [|[|k]]; [reflexivity | congruence | reflexivity].
  - exists p, p'. split; [exact Hp|]. split; [exact Hp'|]. split.
    + rewrite Hr, (Hu (three_unique 1)). reflexivity.
    + split.
      * destruct (Hothers 0 _ ltac:(discriminate) eq_refl (three_unique 0))
          as (r0 & _ & -> & ->). reflexivity.
      * destruct (Hothers 2 _ ltac:(discriminate) eq_refl (three_unique 2))
          as (r2 & _ & -> & ->). reflexivity.
Defined.

(** C2 fails on the code for questions that share their text. Of two
    questions of one text the first is answered and the synthesis of the
    second fails. When the worker of the failing question is resumed last,
    both entries of the result are its fallback: the answer of the other
    question is lost. When it is resumed first, both entries are the answer
    of the other question: the failing question has no fallback. In a run
    in which no synthesis fails, the first entry always carries the
    synthesized answer. *)
Theorem failure_spreads_to_same_text :
  let answered :=
    Result.mk "Define entropy." (Some "5 marks") "An answer." None [] in
  let fallback :=
    Result.mk "Define entropy." (Some "10 marks") genericFailureAnswer None [] in
  fst (processSingleQuestion (Sample.secondFails 0) Sample.notes
         (Question.mk "Define entropy." (Some "5 marks")) "")
    = Resolved answered /\
  fst (processSingleQuestion (Sample.secondFails 1) Sample.notes
         (Question.mk "Define entropy." (Some "10 marks")) "")
    = Resolved fallback /\
  (exists progress calls,
      generateAnswers Sample.notes Sample.duplicates "" Sample.secondFails
        [Some fallback; Some fallback] progress calls) /\
  (exists progress calls,
      generateAnswers Sample.notes Sample.duplicates "" Sample.secondFails
        [Some answered; Some answered] progress calls) /\
  (forall results progress calls,
      generateAnswers Sample.notes Sample.duplicates "" Sample.noneFails
        results progress calls ->
      exists r, results !! 0 = Some (Some r) /\ Result.answer r = "An answer.").
Proof.
  intros answered fallback.
  split; [vm_compute; reflexivity|]. split; [vm_compute; reflexivity|].
  split; [|split].
  - pose proof (schedule_returns Sample.notes Sample.duplicates "" Sample.secondFails
                  CONCURRENCY_LIMIT [0; 1]) as Hrun.
    destruct (runSchedule _ _ _ _ _ _) as [p|] eqn:E;
      [|vm_compute in E; discriminate E].
    vm_compute in E. injection E as <-.
    eexists _, _. exact (Hrun _ eq_refl eq_refl).
  - pose proof (schedule_returns Sample.notes Sample.duplicates "" Sample.secondFails
                  CONCURRENCY_LIMIT [1; 0]) as Hrun.
    destruct (runSchedule _ _ _ _ _ _) as [p|] eqn:E;
      [|vm_compute in E; discriminate E].
    vm_compute in E. injection E as <-.
    eexists _, _. exact (Hrun _ eq_refl eq_refl).
  - intros results progress calls (p & Hp & <- & _).
    assert (Hsize : 1 <= CONCURRENCY_LIMIT) by (unfold CONCURRENCY_LIMIT; lia).
    destruct (finalPool_results Sample.notes Sample.duplicates "" Sample.noneFails
                CONCURRENCY_LIMIT p 0 _ Hsize Hp eq_refl)
      as ((k & q' & Hk & _ & Hr) & _).
    exists (storedResult Sample.notes "" Sample.noneFails k q'). split.
    + rewrite (resultsOf_lookup Sample.duplicates p 0 _ eq_refl), Hr. reflexivity.
    + destruct k as [|[|k]]; [| |discriminate Hk];
        injection Hk as <-; vm_compute; reflexivity.
Qed.

(** C1 fails on the code for questions that share their text: both entries
    of the result are the result of one and the same question, the one
    whose worker was resumed last. *)
Theorem duplicate_text_shares_result :
  let answered marks :=
    Some (Result.mk "Define entropy." (Some marks) Sample.entropy None []) in
  let backend := fun _ : nat => Sample.answering Sample.entropy in
  (exists progress calls,
      generateAnswers Sample.notes Sample.duplicates "" backend
        [answered "10 marks"; answered "10 marks"] progress calls) /\
  (exists progress calls,
      generateAnswers Sample.notes Sample.duplicates "" backend
        [answered "5 marks"; answered "5 marks"] progress calls).
Proof.
  intros answered backend. split.
  - pose proof (schedule_returns Sample.notes Sample.duplicates "" backend
                  CONCURRENCY_LIMIT [0; 1]) as Hrun.
    destruct (runSchedule _ _ _ _ _ _) as [p|] eqn:E;
      [|vm_compute in E; discriminate E].
    vm_compute in E. injection E as <-.
    eexists _, _. exact (Hrun _ eq_refl eq_refl).
  - pose proof (schedule_returns Sample.notes Sample.duplicates "" backend
                  CONCURRENCY_LIMIT [1; 0]) as Hrun.
    destruct (runSchedule _ _ _ _ _ _) as [p|] eqn:E;
      [|vm_compute in E; discriminate E].
    vm_compute in E. injection E as <-.
    eexists _, _. exact (Hrun _ eq_refl eq_refl).
Qed.

(** ** The PDF parser *)

Lemma mapSet_keys {V : Type} (key : string) (v : V) (m : list (string * V)) (k : string) :
  In k (List.map fst (mapSet key v m)) <-> k = key \/ In k (List.map fst m).
Proof.
  induction m as [|[k0 x] m IH]; simpl.
  - split; [intros [H|[]]; left; congruence | intros [H|[]]; left; congruence].
  - destruct (String.eqb_spec k0 key) as [->|Hne]; simpl.
    + split; [intros [H|H]; auto | intros [H | [H|H]]; auto; left; congruence].
    + rewrite IH. split; [intros [H | [H|H]]; auto | intros [H | [H|H]]; auto].
Qed.

Lemma mapSet_NoDup {V : Type} (key : string) (v : V) (m : list (string * V)) :
  List.NoDup (List.map fst m) -> List.NoDup (List.map fst (mapSet key v m)).
Proof.
  induction m as [|[k0 x] m IH]; simpl; intros Hnd.
  - constructor; [intros [] | constructor].
  - inversion Hnd as [|? ? Hnotin Hnd']; subst.
    destruct (String.eqb_spec k0 key) as [->|Hne]; simpl.
    + constructor; assumption.
    + constructor; [|apply IH, Hnd'].
      rewrite mapSet_keys. intros [H|H]; [congruence | contradiction].
Qed.

Lemma mapSet_entries {V : Type} (P : string -> V -> Prop) (key : string) (v : V)
    (m : list (string * V)) :
  P key v -> (forall k x, In (k, x) m -> P k x) ->
  forall k x, In (k, x) (mapSet key v m) -> P k x.
Proof.
  intros Hnew. induction m as [|[k0 x0] m IH]; simpl; intros Hold k x Hin.
  - destruct Hin as [[= <- <-]|[]]. exact Hnew.
  - destruct (String.eqb_spec k0 key) as [->|Hne]; simpl in Hin.
    + destruct Hin as [[= <- <-]|Hin]; [exact Hnew | apply Hold; right; exact Hin].
    + destruct Hin as [[= <- <-]|Hin]; [apply Hold; left; reflexivity|].
      apply IH; [|exact Hin]. intros k' x' H'. apply Hold. right. exact H'.
Qed.

(** The map built from a list of entries: its keys are those of the
    entries, each once, and each of its entries is one of them. *)
Lemma newMap_spec {V : Type} (entries acc : list (string * V)) :
  List.NoDup (List.map fst acc) ->
  let m := fold_left (fun m e => mapSet (fst e) (snd e) m) entries acc in
  List.NoDup (List.map fst m) /\
  (forall k, In k (List.map fst m) <->
             In k (List.map fst acc) \/ In k (List.map fst entries)) /\
  (forall k x, In (k, x) m -> In (k, x) acc \/ In (k, x) entries).
Proof.
  revert acc. induction entries as [|[k0 x0] entries IH]; intros acc Hnd; simpl.
  - split; [exact Hnd|]. split; [intros k; tauto | tauto].
  - destruct (IH (mapSet k0 x0 acc) (mapSet_NoDup k0 x0 acc Hnd)) as (H1 & H2 & H3).
    split; [exact H1|]. split.
    + intros k. rewrite H2, mapSet_keys. intuition (subst; auto).
    + intros k x Hin. destruct (H3 k x Hin) as [Hacc | Hent]; [|tauto].
      clear Hin. revert k x Hacc.
      apply (mapSet_entries (fun k x => In (k, x) acc \/ (k0, x0) = (k, x) \/ In (k, x) entries));
        [tauto|]. intros k x H. tauto.
Qed.

Lemma uniqueImages_spec (images : list ImagePart.t) :
  List.NoDup (List.map imageKey (uniqueImages images)) /\
  (forall img, In img (uniqueImages images) -> In img images) /\
  (forall img, In img images ->
     exists kept, In kept (uniqueImages images) /\ imageKey kept = imageKey img).
Proof.
  unfold uniqueImages, newMap.
  destruct (newMap_spec (List.map (fun img => (imageKey img, img)) images) []
              (List.NoDup_nil _)) as (Hnd & Hkeys & Hent).
  cbv zeta in *.
  set (m := fold_left _ _ _) in *.
  assert (Hkey : forall k x, In (k, x) m -> k = imageKey x /\ In x images).
  { intros k x Hin. destruct (Hent k x Hin) as [[] | H].
    apply List.in_map_iff in H as (img & [= <- <-] & Himg). auto. }
  assert (Hmap : List.map imageKey (List.map snd m) = List.map fst m).
  { rewrite List.map_map. apply List.map_ext_in. intros [k x] Hin.
    destruct (Hkey k x Hin) as [-> _]. reflexivity. }
  split; [rewrite Hmap; exact Hnd|]. split.
  - intros img Hin. apply List.in_map_iff in Hin as ([k x] & <- & Hin).
    apply (Hkey k x Hin).
  - intros img Himg.
    assert (Hk : In (imageKey img) (List.map fst m)).
    { apply Hkeys. right. rewrite List.map_map. simpl.
      apply List.in_map_iff. exists img. auto. }
    apply List.in_map_iff in Hk as ([k x] & Hfst & Hin). simpl in Hfst. subst k.
    exists x. split; [apply List.in_map_iff; exists (imageKey img, x); auto|].
    destruct (Hkey _ _ Hin) as [Heq _]. symmetry. exact Heq.
Qed.

Lemma count_once {A : Type} (f : A -> string) (l : list A) (x : A) :
  List.NoDup (List.map f l) -> In x l ->
  length (List.filter (fun y => String.eqb (f y) (f x)) l) = 1.
Proof.
  induction l as [|y l IH]; simpl; intros Hnd Hin; [destruct Hin|].
  inversion Hnd as [|? ? Hnotin Hnd']; subst.
  assert (Hnone : forall z, ~ In (f z) (List.map f l) ->
            List.filter (fun y0 => String.eqb (f y0) (f z)) l = []).
  { intros z Hz. clear -Hz. induction l as [|a l IHl]; [reflexivity|]. simpl in *.
    destruct (String.eqb_spec (f a) (f z)) as [Heq|Hne].
    - exfalso. apply Hz. left. exact Heq.
    - apply IHl. intros H. apply Hz. right. exact H. }
  destruct Hin as [->|Hin].
  - rewrite String.eqb_refl. simpl. rewrite (Hnone x Hnotin). reflexivity.
  - destruct (String.eqb_spec (f y) (f x)) as [Heq|Hne].
    + exfalso. apply Hnotin. rewrite Heq. apply List.in_map, Hin.
    + apply IH; assumption.
Qed.


Lemma parsePdf_images (dom : Dom) (pages : list PdfPage) :
  ParsedNotes.images (parsePdf dom pages)
  = uniqueImages (snd (collectPages dom pages EmptyString [])).
Proof. unfold parsePdf. destruct (collectPages _ _ _ _). reflexivity. Qed.

(** C7. The images of a parsed PDF have pairwise different keys (the first
    100 characters of the payload), each is one of the images collected from
    the pages, and collected images that agree on the key are represented by
    exactly one image of the document. *)
Theorem parsePdf_images_deduplicated (dom : Dom) (pages : list PdfPage) :
  let collected := snd (collectPages dom pages EmptyString []) in
  let images := ParsedNotes.images (parsePdf dom pages) in
  List.NoDup (List.map imageKey images) /\
  (forall img, In img images -> In img collected) /\
  (forall img1 img2,
      In img1 collected -> In img2 collected -> imageKey img1 = imageKey img2 ->
      length (List.filter (fun img => String.eqb (imageKey img) (imageKey img1))
                          images) = 1 /\
      length (List.filter (fun img => String.eqb (imageKey img) (imageKey img2))
                          images) = 1).
Proof.
  cbv zeta. rewrite parsePdf_images.
  destruct (uniqueImages_spec (snd (collectPages dom pages EmptyString [])))
    as (Hnd & Hsub & Hrep).
  split; [exact Hnd|]. split; [exact Hsub|].
  intros img1 img2 H1 H2 Hkey. rewrite <- Hkey. split;
    destruct (Hrep img1 H1) as (kept & Hkept & <-);
    apply (count_once imageKey _ kept Hnd Hkept).
Qed.

Lemma parsePdf_images_deduplicated_witness :
  ParsedNotes.images (parsePdf Sample.canvas [Sample.scannedPage])
    = [jpegPart Sample.renderedPayload] /\
  length (List.filter
            (fun img => String.eqb (imageKey img)
                                   (imageKey (jpegPart Sample.embeddedPayload)))
            (ParsedNotes.images (parsePdf Sample.canvas [Sample.scannedPage]))) = 1.
Proof.
  split; [reflexivity|].
  refine (proj1 (proj2 (proj2 (parsePdf_images_deduplicated
                                 Sample.canvas [Sample.scannedPage]))
                   (jpegPart Sample.embeddedPayload)
                   (jpegPart Sample.renderedPayload) _ _ _)).
  - left. reflexivity.
  - right. left. reflexivity.
  - reflexivity.
Defined.




(** * Further properties *)

(** ** The retry wrapper, in general *)

Lemma retryLoop_trace {T : Type} (apiCall : nat -> Outcome T)
    (maxRetries initialDelay : Z) (jitter : nat -> Z) :
  forall n a,
    (Z.to_nat (maxRetries + 1 - Z.of_nat a) <= n)%nat ->
    let r := retryLoop apiCall maxRetries initialDelay jitter (Z.of_nat a) a in
    (a < attempts r)%nat /\
    sleeps r = List.map (backoff initialDelay jitter) (seq a (attempts r - S a)) /\
    (forall i, (a <= i < attempts r - 1)%nat ->
       exists e, apiCall i = Rejected e /\ isRateLimitError e = true) /\
    match settled r with
    | Resolved v => apiCall (attempts r - 1)%nat = Resolved v
    | Rejected e =>
        (apiCall (attempts r - 1)%nat = Rejected e /\ isRateLimitError e = false) \/
        (e = newError rateLimitExceededMessage /\
         (maxRetries < Z.of_nat (attempts r))%Z /\
         exists e', apiCall (attempts r - 1)%nat = Rejected e' /\
                    isRateLimitError e' = true)
    end.
Proof.
  induction n as [|n IH]; intros a Hn; cbv zeta; rewrite retryLoop_body;
    destruct (apiCall a) as [v|e] eqn:Hcall.
  1,3: cbn [attempts sleeps settled];
       replace (S a - S a)%nat with 0%nat by lia;
       replace (S a - 1)%nat with a by lia;
       (split; [lia|]); (split; [reflexivity|]); (split; [intros i Hi; lia | exact Hcall]).
  all: destruct (isRateLimitError e) eqn:Hrl.
  2,4: cbn [attempts sleeps settled];
       replace (S a - S a)%nat with 0%nat by lia;
       replace (S a - 1)%nat with a by lia;
       (split; [lia|]); (split; [reflexivity|]);
       (split; [intros i Hi; lia | left; split; [exact Hcall | exact Hrl]]).
  all: destruct (Z_gt_dec (Z.of_nat a + 1) maxRetries) as [Hgt|Hle].
  1,3: cbn [attempts sleeps settled];
       replace (S a - S a)%nat with 0%nat by lia;
       replace (S a - 1)%nat with a by lia;
       (split; [lia|]); (split; [reflexivity|]);
       (split; [intros i Hi; lia |]);
       right; (split; [reflexivity|]); (split; [lia|]); exists e; split; assumption.
  - lia.
  - replace (Z.of_nat a + 1)%Z with (Z.of_nat (S a)) by lia.
    specialize (IH (S a)). cbv zeta in IH.
    destruct IH as (Hlt & Hsleeps & Hfail & Hlast); [lia|].
    set (r := retryLoop apiCall maxRetries initialDelay jitter (Z.of_nat (S a)) (S a)) in *.
    cbn [attempts sleeps settled].
    split; [lia|]. split; [|split].
    + rewrite Hsleeps.
      replace (attempts r - S a)%nat with (S (attempts r - S (S a))) by lia.
      cbn [seq List.map]. unfold backoff at 2.
      replace (Z.of_nat (S a) - 1)%Z with (Z.of_nat a) by lia. reflexivity.
    + intros i Hi. destruct (decide (i = a)) as [->|Hne].
      * exists e. split; assumption.
      * apply Hfail. lia.
    + exact Hlast.
Qed.

(** X1. Whatever the wrapped call does, it is invoked at least once and at
    most [maxRetries + 1] times (once when [maxRetries] is negative), and
    the wrapper sleeps exactly once between two consecutive invocations: the
    [i]-th sleep lasts [initialDelay * 2^i] plus the jitter. *)
Theorem callApiWithRetry_budget {T : Type} (apiCall : nat -> Outcome T)
    (maxRetries initialDelay : Z) (jitter : nat -> Z) :
  let run := callApiWithRetry apiCall maxRetries initialDelay jitter in
  (1 <= attempts run <= Nat.max 1 (Z.to_nat (maxRetries + 1)))%nat /\
  sleeps run =
    List.map (fun i => (initialDelay * 2 ^ Z.of_nat i + jitter i)%Z)
             (seq 0 (attempts run - 1)).
Proof.
  cbv zeta. unfold callApiWithRetry.
  pose proof (retryLoop_attempts apiCall maxRetries initialDelay jitter
                (Z.to_nat (maxRetries + 1 - 0)) 0%Z 0%nat (le_n _)) as Hb.
  pose proof (retryLoop_trace apiCall maxRetries initialDelay jitter
                (Z.to_nat (maxRetries + 1 - 0)) 0%nat (le_n _)) as Ht.
  cbv zeta in Hb, Ht. change (Z.of_nat 0) with 0%Z in Ht.
  destruct Ht as (_ & Hsleeps & _).
  replace (maxRetries + 1 - 0)%Z with (maxRetries + 1)%Z in Hb by lia.
  split; [lia|]. exact Hsleeps.
Qed.

(** X2. The wrapper retries only after a rate-limit signal and never
    invents a value: every invocation but the last failed with a rate-limit
    signal; a resolved value is the one the last invocation resolved with; a
    rejection is either the error of the last invocation, which then carries
    no rate-limit signal, or the fixed rate-limit error, which is thrown only
    when the last invocation was rate-limited and more than [maxRetries]
    invocations were made. *)
Theorem callApiWithRetry_provenance {T : Type} (apiCall : nat -> Outcome T)
    (maxRetries initialDelay : Z) (jitter : nat -> Z) :
  let run := callApiWithRetry apiCall maxRetries initialDelay jitter in
  rateLimitedUpTo apiCall (attempts run - 1) /\
  match settled run with
  | Resolved v => apiCall (attempts run - 1)%nat = Resolved v
  | Rejected e =>
      (apiCall (attempts run - 1)%nat = Rejected e /\ isRateLimitError e = false) \/
      (e = newError rateLimitExceededMessage /\
       (maxRetries < Z.of_nat (attempts run))%Z /\
       exists e', apiCall (attempts run - 1)%nat = Rejected e' /\
                  isRateLimitError e' = true)
  end.
Proof.
  cbv zeta. unfold callApiWithRetry.
  pose proof (retryLoop_trace apiCall maxRetries initialDelay jitter
                (Z.to_nat (maxRetries + 1 - 0)) 0%nat (le_n _)) as Ht.
  cbv zeta in Ht. change (Z.of_nat 0) with 0%Z in Ht.
  destruct Ht as (_ & _ & Hfail & Hlast).
  split; [|exact Hlast].
  intros i Hi. apply Hfail. lia.
Qed.

(** ** Lines and white space *)

Lemma join_split (sep : ascii) (s : string) :
  Js.join (String sep EmptyString) (Js.split sep s) = s.
Proof.
  induction s as [|c s IH]; [reflexivity|].
  cbn [Js.split]. destruct (Ascii.eqb_spec c sep) as [->|Hne].
  - pose proof (split_nonempty sep s) as Hs.
    destruct (Js.split sep s) as [|l ls] eqn:E; [congruence|].
    change (Js.join (String sep "") ("" :: l :: ls))
      with (String sep (Js.join (String sep "") (l :: ls))).
    rewrite IH. reflexivity.
  - pose proof (split_nonempty sep s) as Hs.
    destruct (Js.split sep s) as [|l ls] eqn:E; [congruence|].
    destruct ls as [|l' ls].
    + simpl in IH. subst l. reflexivity.
    + change (Js.join (String sep "") (String c l :: l' :: ls))
        with (String c (Js.join (String sep "") (l :: l' :: ls))).
      rewrite IH. reflexivity.
Qed.

Lemma trimStart_idempotent (s : string) :
  Js.trimStart (Js.trimStart s) = Js.trimStart s.
Proof.
  induction s as [|c s IH]; [reflexivity|].
  cbn [Js.trimStart]. destruct (Js.isWhiteSpace c) eqn:Hc; [exact IH|].
  cbn [Js.trimStart]. rewrite Hc. reflexivity.
Qed.

Lemma trim_idempotent (s : string) : Js.trim (Js.trim s) = Js.trim s.
Proof.
  unfold Js.trim.
  rewrite trimStart_trimEnd, trimStart_idempotent. apply trimEnd_idempotent.
Qed.

(** X3. A synthesis text without directive lines loses nothing but the
    white space around it: splitting it into lines and joining them again
    gives the text back, so the answer is the trimmed text and there is no
    directive. *)
Theorem parseAiResponse_plain_text (text : string) :
  Forall (fun l => isDirectiveLine l = false) (Js.splitLines text) ->
  parseAiResponse text = (Js.trim text, None).
Proof.
  intros Hplain. unfold parseAiResponse.
  rewrite find_none, filter_keeps by exact Hplain.
  unfold Js.joinLines, Js.splitLines, Js.nl. rewrite join_split. reflexivity.
Qed.

Lemma parseAiResponse_plain_text_witness :
  parseAiResponse ("  Cats purr." +:+ Js.nl +:+ "They also hunt. ")
  = ("Cats purr." +:+ Js.nl +:+ "They also hunt.", None).
Proof.
  apply (parseAiResponse_plain_text
           ("  Cats purr." +:+ Js.nl +:+ "They also hunt. ")).
  repeat constructor.
Defined.

(** X4. Whatever the lines of the synthesis text are, every directive line
    is left out of the answer and the directive is the first of them,
    trimmed; later directive lines are dropped without effect. *)
Theorem parseAiResponse_lines (ls : list string) :
  ls <> [] ->
  Forall (fun l => Js.singleLine l = true) ls ->
  parseAiResponse (Js.joinLines ls)
  = (Js.trim (Js.joinLines (List.filter (fun l => negb (isDirectiveLine l)) ls)),
     option_map Js.trim (List.find isDirectiveLine ls)).
Proof.
  intros Hne Hlines. unfold parseAiResponse.
  rewrite splitLines_joinLines by assumption.
  f_equal. destruct (List.find isDirectiveLine ls) as [d|] eqn:Hfind; [|reflexivity].
  apply List.find_some in Hfind as [_ Hd].
  rewrite (directive_truthy d Hd). reflexivity.
Qed.

Lemma parseAiResponse_lines_witness :
  parseAiResponse
    (Js.joinLines ["GENERATE_IMAGE_PROMPT: a cat"; "Cats purr.";
                   "USE_IMAGE: [Image 1]"; "They hunt."])
  = ("Cats purr." +:+ Js.nl +:+ "They hunt.", Some "GENERATE_IMAGE_PROMPT: a cat").
Proof.
  apply (parseAiResponse_lines
           ["GENERATE_IMAGE_PROMPT: a cat"; "Cats purr.";
            "USE_IMAGE: [Image 1]"; "They hunt."]).
  - discriminate.
  - repeat constructor.
Defined.

(** X5. The answer of a parsed response never starts or ends with white
    space: trimming it again changes nothing. *)
Theorem parseAiResponse_answer_trimmed (text : string) :
  Js.trim (fst (parseAiResponse text)) = fst (parseAiResponse text).
Proof. unfold parseAiResponse. cbn [fst]. apply trim_idempotent. Qed.

(** ** One question, in general *)

(** What the image-generation branch leaves in [imageUrl], and the one call
    it logs. *)
Lemma generated_image_value (b : Backend) (imagePrompt : string) :
  tryCatch
    (imageResponse <-
       awaitApi b (GenerateImages (imageRequest imagePrompt))
                (generateImages b (imageRequest imagePrompt)) ;;
     match generatedImages imageResponse with
     | Some (g :: _) =>
         img <- readFrom (image g) "imageBytes" ;;
         ret (Some ("data:image/jpeg;base64," +:+ interpolate (imageBytes img)))
     | _ => ret None
     end)
    (fun _ => ret None)
  = (Resolved
       match settled (callApiWithRetry (generateImages b (imageRequest imagePrompt))
                                       3 1000 (random1000 b)) with
       | Resolved imageResponse =>
           match generatedImages imageResponse with
           | Some (g :: _) =>
               match image g with
               | Some img =>
                   Some ("data:image/jpeg;base64," +:+ interpolate (imageBytes img))
               | None => None
               end
           | _ => None
           end
       | Rejected _ => None
       end,
     [{| request := GenerateImages (imageRequest imagePrompt);
         invocations :=
           attempts (callApiWithRetry (generateImages b (imageRequest imagePrompt))
                                      3 1000 (random1000 b)) |}]).
Proof.
  unfold awaitApi, bind, tryCatch, readFrom, ret, throw.
  destruct (settled _) as [resp|e]; [|reflexivity].
  destruct (generatedImages resp) as [[|g gs]|]; try reflexivity.
  destruct (image g); reflexivity.
Qed.

(** The image stage in one equation per branch. *)
Lemma resolveImageUrl_cases (b : Backend) (notesData : ParsedNotes.t)
    (imageDirective : option string) :
  (exists imageUrl,
      resolveImageUrl b notesData imageDirective = (Resolved imageUrl, []) /\
      (imageUrl = None \/
       exists reusedImage,
         In reusedImage (ParsedNotes.images notesData) /\
         imageUrl = Some (dataUri (ImagePart.mimeType reusedImage)
                                  (ImagePart.data reusedImage)))) \/
  (exists directive imageUrl invoked,
      imageDirective = Some directive /\
      Js.startsWith directive "USE_IMAGE:" = false /\
      Js.startsWith directive "GENERATE_IMAGE_PROMPT:" = true /\
      let imagePrompt :=
        Js.trim (Js.replaceFirst directive "GENERATE_IMAGE_PROMPT:" "") in
      Js.truthy imagePrompt = true /\
      (1 <= invoked <= 4)%nat /\
      resolveImageUrl b notesData imageDirective =
        (Resolved imageUrl,
         [{| request := GenerateImages (imageRequest imagePrompt);
             invocations := invoked |}]) /\
      (imageUrl = None \/
       exists bytes, imageUrl = Some ("data:image/jpeg;base64," +:+ bytes))).
Proof.
  unfold resolveImageUrl.
  destruct imageDirective as [directive|]; [|left; eexists; split; [reflexivity|auto]].
  destruct (Js.startsWith directive "USE_IMAGE:") eqn:Huse.
  - left. destruct (matchImageRef directive); [|eexists; split; [reflexivity|auto]].
    destruct (_ && _); [|eexists; split; [reflexivity|auto]].
    destruct (nth_error _ _) as [img|] eqn:E; eexists; (split; [reflexivity|]); auto.
    right. exists img. split; [eapply nth_error_In, E | reflexivity].
  - destruct (Js.startsWith directive "GENERATE_IMAGE_PROMPT:") eqn:Hgen;
      [|left; eexists; split; [reflexivity|auto]].
    destruct (Js.truthy _) eqn:Hprompt; [|left; eexists; split; [reflexivity|auto]].
    right. rewrite generated_image_value.
    eexists directive, _,
      (attempts (callApiWithRetry
                   (generateImages b
                      (imageRequest
                         (Js.trim (Js.replaceFirst directive "GENERATE_IMAGE_PROMPT:" ""))))
                   3 1000 (random1000 b))).
    split; [reflexivity|]. split; [exact Huse|].
    split; [exact Hgen|]. cbv zeta. split; [exact Hprompt|].
    split; [apply callApiWithRetry_default_attempts|]. split; [reflexivity|].
    destruct (settled _) as [resp|e]; [|auto].
    destruct (generatedImages resp) as [[|g gs]|]; auto.
    destruct (image g); eauto.
Qed.

(** The wrapped calls of one question, stage by stage. *)
Lemma processSingleQuestion_stages (b : Backend) (notesData : ParsedNotes.t)
    (questionObj : Question.t) (customInstructions : string) :
  let question := Question.text questionObj in
  let probe :=
    {| request := GenerateContent (webSearchCheckRequest notesData question);
       invocations :=
         attempts (callApiWithRetry
                     (generateContent b (webSearchCheckRequest notesData question))
                     3 1000 (random1000 b)) |} in
  (exists r,
      processSingleQuestion b notesData questionObj customInstructions
      = (Resolved r, [probe]) /\ Result.imageUrl r = None /\ Result.sources r = []) \/
  (exists r needsWebSearch,
      let req := answerRequest notesData question (Question.marks questionObj)
                   customInstructions needsWebSearch in
      let synthesis :=
        {| request := GenerateContent req;
           invocations :=
             attempts (callApiWithRetry (generateContent b req) 3 1000 (random1000 b)) |} in
      (processSingleQuestion b notesData questionObj customInstructions
       = (Resolved r, [probe; synthesis]) /\
       Result.imageUrl r = None /\ Result.sources r = []) \/
      (exists textResponse fullText imageUrl calls,
          synthesisYields b notesData questionObj customInstructions
                          textResponse fullText /\
          resolveImageUrl b notesData (snd (parseAiResponse fullText))
          = (Resolved imageUrl, calls) /\
          processSingleQuestion b notesData questionObj customInstructions
          = (Resolved (Result.mk question (Question.marks questionObj)
                         (fst (parseAiResponse fullText)) imageUrl
                         (groundingSources textResponse)),
             probe :: synthesis :: calls) /\
          r = Result.mk question (Question.marks questionObj)
                (fst (parseAiResponse fullText)) imageUrl
                (groundingSources textResponse))).
Proof.
  cbv zeta.
  unfold processSingleQuestion, processSingleQuestion_try, awaitApi.
  unfold tryCatch, bind, readFrom, ret, throw, processSingleQuestion_catch.
  destruct (settled (callApiWithRetry
                       (generateContent b
                          (webSearchCheckRequest notesData (Question.text questionObj)))
                       3 1000 (random1000 b))) as [r1|e1] eqn:Hprobe.
  2:{ left. eexists. split; [reflexivity|]. split; reflexivity. }
  destruct (responseText r1) as [checkText|] eqn:Hcheck.
  2:{ left. eexists. split; [reflexivity|]. split; reflexivity. }
  cbv beta iota.
  right.
  destruct (settled (callApiWithRetry
                       (generateContent b
                          (answerRequest notesData (Question.text questionObj)
                             (Question.marks questionObj) customInstructions
                             (Js.includes (Js.toUpperCase (Js.trim checkText)) "NO")))
                       3 1000 (random1000 b))) as [r2|e2] eqn:Hsynth.
  2:{ eexists _, _. left. split; [reflexivity|]. split; reflexivity. }
  destruct (responseText r2) as [fullText|] eqn:Htext.
  2:{ eexists _, _. left. split; [reflexivity|]. split; reflexivity. }
  cbv beta iota.
  destruct (parseAiResponse fullText) as [answer imageDirective] eqn:Hparse.
  destruct (resolveImageUrl_resolves b notesData imageDirective) as (u & calls3 & Himg).
  rewrite Himg. cbn [app fst snd]. rewrite app_nil_r.
  eexists _, _. right. exists r2, fullText, u, calls3.
  split.
  { exists r1, checkText. repeat split; assumption. }
  rewrite Hparse. cbn [fst snd]. split; [exact Himg|]. split; reflexivity.
Qed.

(** X6. [processSingleQuestion] never rejects: whatever the backend does,
    it resolves with a result that carries the text and the marks of the
    question it was given, so the [catch] of the worker, with its "critical
    error" answer, is never entered. *)
Theorem processSingleQuestion_never_rejects (notesData : ParsedNotes.t)
    (customInstructions : string) (backend : nat -> Backend) (k : nat)
    (questionObj : Question.t) :
  exists r calls,
    processSingleQuestion (backend k) notesData questionObj customInstructions
    = (Resolved r, calls) /\
    Result.question r = Question.text questionObj /\
    Result.marks r = Question.marks questionObj /\
    storedResult notesData customInstructions backend k questionObj = r.
Proof.
  destruct (processSingleQuestion_resolves (backend k) notesData questionObj
              customInstructions) as (r & calls & Hrun & Hq & Hm & _).
  exists r, calls. split; [exact Hrun|]. split; [exact Hq|]. split; [exact Hm|].
  unfold storedResult. rewrite Hrun. reflexivity.
Qed.



Lemma processSingleQuestion_image (b : Backend) (notesData : ParsedNotes.t)
    (questionObj : Question.t) (customInstructions : string) (r : Result.t) :
  fst (processSingleQuestion b notesData questionObj customInstructions) = Resolved r ->
  Result.imageUrl r = None \/
  exists rest, Result.imageUrl r = Some ("data:" +:+ rest).
Proof.
  destruct (processSingleQuestion_stages b notesData questionObj customInstructions)
    as [(r0 & -> & Hnone & _)
       | (r0 & needs & [(-> & Hnone & _)
                       | (resp & fullText & u & calls & _ & Himg & -> & _)])];
    cbn [fst]; intros [= <-]; auto.
  cbn [Result.imageUrl].
  destruct (resolveImageUrl_cases b notesData (snd (parseAiResponse fullText)))
    as [(u' & Hu & [-> | (img & _ & ->)])
       | (d & u' & invoked & _ & _ & _ & _ & _ & Hu & [-> | (bytes & ->)])];
    rewrite Hu in Himg; injection Himg as <- _; auto; right.
  - exists (ImagePart.mimeType img +:+ ";base64," +:+ ImagePart.data img). reflexivity.
  - exists ("image/jpeg;base64," +:+ bytes). reflexivity.
Qed.

(** X8. Every image of a result of the pool is inlined: [imageUrl] is
    [null] or a string that starts with "data:"; no result points to an
    image that would have to be fetched. *)
Theorem results_inline_their_image (notesData : ParsedNotes.t)
    (questions : list Question.t) (customInstructions : string)
    (backend : nat -> Backend) (poolSize : nat)
    (results : list (option Result.t)) (progress : list (nat * nat))
    (calls : list ApiCall) :
  poolReturns notesData questions customInstructions backend poolSize
              results progress calls ->
  forall r, In (Some r) results ->
    Result.imageUrl r = None \/
    exists rest, Result.imageUrl r = Some ("data:" +:+ rest).
Proof.
  intros (p & [Hrun _] & <- & _) r Hin.
  destruct (reachable_inv _ _ _ _ _ p Hrun) as [Hinv _].
  destruct Hinv as (_ & _ & _ & _ & _ & _ & Hmap & _).
  unfold resultsOf in Hin. apply List.in_map_iff in Hin as (q & Hq & _).
  destruct (Hmap _ _ Hq) as (k & q' & _ & _ & ->).
  apply (processSingleQuestion_image (backend k) notesData q' customInstructions).
  apply storedResult_spec.
Qed.

Lemma results_inline_their_image_witness :
  exists r progress calls,
    generateAnswers Sample.notes [Sample.question] ""
      (fun _ => Sample.answering
                  ("An answer." +:+ Js.nl +:+ "USE_IMAGE: [Image 3]"))
      [Some r] progress calls /\
    Result.imageUrl r = Some "data:image/jpeg;base64,CCCC" /\
    (Result.imageUrl r = None \/
     exists rest, Result.imageUrl r = Some ("data:" +:+ rest)).
Proof.
  pose proof (schedule_returns Sample.notes [Sample.question] ""
                (fun _ => Sample.answering
                            ("An answer." +:+ Js.nl +:+ "USE_IMAGE: [Image 3]"))
                CONCURRENCY_LIMIT [0]) as Hrun.
  destruct (runSchedule _ _ _ _ _ _) as [p|] eqn:E; [|vm_compute in E; discriminate E].
  vm_compute in E. injection E as <-.
  specialize (Hrun _ eq_refl eq_refl).
  eexists _, _, _. split; [exact Hrun|]. split; [reflexivity|].
  exact (results_inline_their_image _ _ _ _ _ _ _ _ Hrun _ (or_introl eq_refl)).
Defined.

(** X9. A directive that starts with USE_IMAGE: never triggers an image
    generation, whatever follows the prefix, and leaves no image when it
    names none by [[Image n]]; a GENERATE_IMAGE_PROMPT: directive whose
    prompt is empty triggers no generation either and leaves no image. *)
Theorem directive_without_generation (b : Backend) (notesData : ParsedNotes.t)
    (questionObj : Question.t) (customInstructions : string)
    (textResponse : GenerateContentResponse) (fullText directive : string) :
  synthesisYields b notesData questionObj customInstructions textResponse fullText ->
  snd (parseAiResponse fullText) = Some directive ->
  Js.startsWith directive "USE_IMAGE:" = true \/
  Js.truthy (Js.trim (Js.replaceFirst directive "GENERATE_IMAGE_PROMPT:" "")) = false ->
  exists r calls,
    processSingleQuestion b notesData questionObj customInstructions
    = (Resolved r, calls) /\
    imageGenerationCalls calls = [] /\
    (matchImageRef directive = None \/ Js.startsWith directive "USE_IMAGE:" = false ->
     Result.imageUrl r = None).
Proof.
  intros Hy Hd Hcase.
  assert (Himg : exists u,
             resolveImageUrl b notesData (snd (parseAiResponse fullText))
             = (Resolved u, []) /\
             (matchImageRef directive = None \/
              Js.startsWith directive "USE_IMAGE:" = false -> u = None)).
  { rewrite Hd. unfold resolveImageUrl.
    destruct (Js.startsWith directive "USE_IMAGE:") eqn:Huse.
    - destruct (matchImageRef directive) as [digits|].
      + destruct (_ && _); [|eexists; split; [reflexivity|]; auto].
        destruct (nth_error _ _); eexists; (split; [reflexivity|]);
          intros [H|H]; discriminate H.
      + eexists; split; [reflexivity|]; auto.
    - destruct Hcase as [H | Hempty]; [discriminate H|].
      rewrite Hempty.
      destruct (Js.startsWith directive "GENERATE_IMAGE_PROMPT:");
        eexists; (split; [reflexivity|]); auto. }
  destruct Himg as (u & Hu & Hnone).
  destruct (processSingleQuestion_synthesized _ _ _ _ _ _ _ _ Hy Hu)
    as (c1 & c2 & Hcalls & Hrun).
  eexists _, _. split; [exact Hrun|]. split; [exact Hcalls|].
  cbn [Result.imageUrl]. exact Hnone.
Qed.

Lemma directive_without_generation_witness :
  exists r calls,
    processSingleQuestion
      (Sample.answering ("An answer." +:+ Js.nl +:+ "USE_IMAGE: the second image"))
      Sample.notes Sample.question "" = (Resolved r, calls) /\
    imageGenerationCalls calls = [] /\
    Result.imageUrl r = None.
Proof.
  destruct (directive_without_generation
              (Sample.answering
                 ("An answer." +:+ Js.nl +:+ "USE_IMAGE: the second image"))
              Sample.notes Sample.question ""
              (Sample.textOnly
                 ("An answer." +:+ Js.nl +:+ "USE_IMAGE: the second image"))
              ("An answer." +:+ Js.nl +:+ "USE_IMAGE: the second image")
              "USE_IMAGE: the second image")
    as (r & calls & Hrun & Hcalls & Hnone).
  - exists (Sample.textOnly "YES"), "YES". repeat split; reflexivity.
  - reflexivity.
  - left. reflexivity.
  - exists r, calls. split; [exact Hrun|]. split; [exact Hcalls|].
    apply Hnone. left. reflexivity.
Defined.

(** X10. When the image-generation call fails, or returns no image, the
    question is not failed: the result keeps the parsed answer and the
    sources of the synthesis and only has no image. *)
Theorem image_failure_keeps_answer (b : Backend) (notesData : ParsedNotes.t)
    (questionObj : Question.t) (customInstructions : string)
    (textResponse : GenerateContentResponse) (fullText directive : string) :
  synthesisYields b notesData questionObj customInstructions textResponse fullText ->
  snd (parseAiResponse fullText) = Some directive ->
  Js.startsWith directive "USE_IMAGE:" = false ->
  Js.startsWith directive "GENERATE_IMAGE_PROMPT:" = true ->
  let imagePrompt := Js.trim (Js.replaceFirst directive "GENERATE_IMAGE_PROMPT:" "") in
  let generation :=
    settled (callApiWithRetry (generateImages b (imageRequest imagePrompt))
                              3 1000 (random1000 b)) in
  (exists error, generation = Rejected error) \/
  (exists imageResponse,
      generation = Resolved imageResponse /\
      (generatedImages imageResponse = None \/
       generatedImages imageResponse = Some [])) ->
  fst (processSingleQuestion b notesData questionObj customInstructions)
  = Resolved (Result.mk (Question.text questionObj) (Question.marks questionObj)
                (fst (parseAiResponse fullText)) None
                (groundingSources textResponse)).
Proof.
  intros Hy Hd Huse Hgen imagePrompt generation Hfail.
  assert (Himg : exists calls,
             resolveImageUrl b notesData (snd (parseAiResponse fullText))
             = (Resolved None, calls)).
  { rewrite Hd. unfold resolveImageUrl. rewrite Huse, Hgen.
    fold imagePrompt.
    destruct (Js.truthy imagePrompt); [|eexists; reflexivity].
    rewrite generated_image_value. fold generation.
    destruct Hfail as [(error & ->) | (resp & -> & [-> | ->])]; eexists; reflexivity. }
  destruct Himg as (calls & Hu).
  destruct (processSingleQuestion_synthesized _ _ _ _ _ _ _ _ Hy Hu)
    as (c1 & c2 & _ & Hrun).
  rewrite Hrun. reflexivity.
Qed.

Lemma image_failure_keeps_answer_witness :
  fst (processSingleQuestion Sample.imageFailing Sample.notes Sample.question "")
  = Resolved (Result.mk "What is a cat?" (Some "5 marks") "An answer." None
                [Source.mk "https://example.org/a" "A page"]).
Proof.
  refine (image_failure_keeps_answer Sample.imageFailing Sample.notes
            Sample.question ""
            (Sample.grounded
               ("An answer." +:+ Js.nl +:+ "GENERATE_IMAGE_PROMPT: a cat")
               "https://example.org/a")
            ("An answer." +:+ Js.nl +:+ "GENERATE_IMAGE_PROMPT: a cat")
            "GENERATE_IMAGE_PROMPT: a cat" _ _ _ _ _).
  - eexists (Sample.textOnly "YES"), "YES". repeat split; reflexivity.
  - reflexivity.
  - reflexivity.
  - reflexivity.
  - left. exists Sample.serverError. reflexivity.
Defined.

(** ** The pool, in general *)

(** X11. Also when questions share their text, the list the pool resolves
    with has one defined entry per question, and the entry at the place of
    a question carries the text of that question. *)
Theorem results_follow_questions (notesData : ParsedNotes.t)
    (questions : list Question.t) (customInstructions : string)
    (backend : nat -> Backend) (poolSize : nat)
    (results : list (option Result.t)) (progress : list (nat * nat))
    (calls : list ApiCall) :
  1 <= poolSize ->
  poolReturns notesData questions customInstructions backend poolSize
              results progress calls ->
  length results = length questions /\
  forall j q, questions !! j = Some q ->
    exists r, results !! j = Some (Some r) /\
              Result.question r = Question.text q.
Proof.
  intros Hsize (p & Hp & <- & _). split; [apply length_map|].
  intros j q Hj.
  destruct (finalPool_results _ _ _ _ _ p j q Hsize Hp Hj)
    as ((k & q' & _ & Ht & Hr) & _).
  exists (storedResult notesData customInstructions backend k q').
  split; [rewrite (resultsOf_lookup _ _ _ _ Hj), Hr; reflexivity|].
  destruct (storedResult_spec notesData customInstructions backend k q')
    as (_ & Hq & _).
  rewrite Hq. exact Ht.
Qed.

Lemma results_follow_questions_witness :
  exists results progress calls,
    generateAnswers Sample.notes Sample.duplicates ""
      (fun _ => Sample.answering Sample.entropy) results progress calls /\
    length results = 2 /\
    forall j q, Sample.duplicates !! j = Some q ->
      exists r, results !! j = Some (Some r) /\
                Result.question r = Question.text q.
Proof.
  pose proof (schedule_returns Sample.notes Sample.duplicates ""
                (fun _ => Sample.answering Sample.entropy) CONCURRENCY_LIMIT [0; 1]) as Hrun.
  destruct (runSchedule _ _ _ _ _ _) as [p|] eqn:E; [|vm_compute in E; discriminate E].
  vm_compute in E. injection E as <-.
  specialize (Hrun _ eq_refl eq_refl).
  assert (Hsize : 1 <= CONCURRENCY_LIMIT) by (unfold CONCURRENCY_LIMIT; lia).
  eexists _, _, _. split; [exact Hrun|].
  exact (results_follow_questions _ _ _ _ _ _ _ _ Hsize Hrun).
Defined.

Lemma distinct_texts_unique (questions : list Question.t) (j : nat) :
  NoDup (Question.text <$> questions) -> uniqueText questions j.
Proof.
  intros Hnd q Hj k q' Hk Ht.
  apply (NoDup_lookup _ k j (Question.text q) Hnd);
    rewrite list_lookup_fmap; [rewrite Hk | rewrite Hj]; simpl; congruence.
Qed.

Lemma finalPool_distinct (notesData : ParsedNotes.t)
    (questions : list Question.t) (customInstructions : string)
    (backend : nat -> Backend) (poolSize : nat) (p : Pool) :
  1 <= poolSize ->
  NoDup (Question.text <$> questions) ->
  finalPool notesData questions customInstructions backend poolSize p ->
  resultsOf questions p =
    imap (fun k q => Some (storedResult notesData customInstructions backend k q))
         questions.
Proof.
  intros Hsize Hnd Hp.
  apply list_eq. intros j. rewrite list_lookup_imap.
  destruct (questions !! j) as [q|] eqn:Hj.
  - rewrite (resultsOf_lookup _ _ _ _ Hj). simpl.
    destruct (finalPool_results _ _ _ _ _ p j q Hsize Hp Hj) as [_ Hu].
    rewrite (Hu (distinct_texts_unique questions j Hnd)). reflexivity.
  - simpl. unfold resultsOf.
    change (List.map (fun q0 => resultsMap p !! Question.text q0) questions)
      with ((fun q0 => resultsMap p !! Question.text q0) <$> questions).
    rewrite list_lookup_fmap, Hj. reflexivity.
Qed.

(** X12. When the texts of the questions are pairwise different, the order
    in which the workers are resumed does not matter: every run resolves
    with the same list, which holds at each place the result of processing
    the question of that place. *)
Theorem distinct_texts_fix_the_results (notesData : ParsedNotes.t)
    (questions : list Question.t) (customInstructions : string)
    (backend : nat -> Backend) (poolSize : nat)
    (results : list (option Result.t)) (progress : list (nat * nat))
    (calls : list ApiCall) :
  1 <= poolSize ->
  NoDup (Question.text <$> questions) ->
  poolReturns notesData questions customInstructions backend poolSize
              results progress calls ->
  results =
    imap (fun k q => Some (storedResult notesData customInstructions backend k q))
         questions.
Proof.
  intros Hsize Hnd (p & Hp & <- & _).
  exact (finalPool_distinct _ _ _ _ _ p Hsize Hnd Hp).
Qed.

Lemma distinct_texts_fix_the_results_witness :
  exists results progress calls,
    generateAnswers Sample.notes Sample.three "" Sample.secondFails
                    results progress calls /\
    results =
      [Some (Result.mk "What is a cat?" None "An answer." None []);
       Some (Result.mk "What is a dog?" None genericFailureAnswer None []);
       Some (Result.mk "What is a cow?" (Some "2 marks") "An answer." None [])].
Proof.
  pose proof (schedule_returns Sample.notes Sample.three ""
                Sample.secondFails CONCURRENCY_LIMIT [1; 0; 1]) as Hrun.
  destruct (runSchedule _ _ _ _ _ _) as [p|] eqn:E; [|vm_compute in E; discriminate E].
  vm_compute in E. injection E as <-.
  specialize (Hrun _ eq_refl eq_refl).
  assert (Hsize : 1 <= CONCURRENCY_LIMIT) by (unfold CONCURRENCY_LIMIT; lia).
  assert (Hnd : NoDup (Question.text <$> Sample.three))
    by (apply (bool_decide_unpack _); vm_compute; exact I).
  eexists _, _, _. split; [exact Hrun|].
  rewrite (distinct_texts_fix_the_results _ _ _ _ _ _ _ _ Hsize Hnd Hrun).
  reflexivity.
Defined.

Lemma awaitingCount_le (ws : list Worker) : awaitingCount ws <= length ws.
Proof.
  unfold awaitingCount. induction ws as [|w ws IH]; simpl; [lia|].
  destruct (isAwaiting w); simpl; lia.
Qed.

(** X13. At every moment of a run at most [poolSize] questions are in
    flight, each of them a question of the list at the place it was taken
    from, and no question is lost or taken twice: the questions in flight,
    completed and still queued add up to the number of questions. *)
Theorem pool_in_flight (notesData : ParsedNotes.t)
    (questions : list Question.t) (customInstructions : string)
    (backend : nat -> Backend) (poolSize : nat) (p : Pool) :
  rtc (step notesData questions customInstructions backend)
      (initialPool questions poolSize) p ->
  awaitingCount (workers p) <= poolSize /\
  awaitingCount (workers p) + completedCount p + length (questionQueue p)
    = length questions /\
  questionQueue p = drop (completedCount p + awaitingCount (workers p)) questions /\
  forall w k q, workers p !! w = Some (Awaiting k q) -> questions !! k = Some q.
Proof.
  intros Hrun.
  destruct (reachable_inv _ _ _ _ _ p Hrun) as [Hinv Hlen].
  destruct Hinv as (Hq & Hsh & Haw & Hcnt & _).
  split; [rewrite <- Hlen; apply awaitingCount_le|]. split; [|split].
  - rewrite Hq, length_drop. lia.
  - rewrite Hcnt. exact Hq.
  - intros w k q Hw. apply (Haw _ _ _ Hw).
Qed.

Lemma pool_in_flight_witness :
  exists p,
    runSchedule Sample.notes Sample.three "" Sample.noneFails [0]
                (initialPool Sample.three CONCURRENCY_LIMIT) = Some p /\
    awaitingCount (workers p) = 2 /\ completedCount p = 1 /\
    questionQueue p = [] /\
    awaitingCount (workers p) <= CONCURRENCY_LIMIT /\
    awaitingCount (workers p) + completedCount p + length (questionQueue p) = 3.
Proof.
  destruct (runSchedule Sample.notes Sample.three "" Sample.noneFails [0]
              (initialPool Sample.three CONCURRENCY_LIMIT)) as [p|] eqn:E;
    [|vm_compute in E; discriminate E].
  exists p. split; [reflexivity|].
  destruct (pool_in_flight Sample.notes Sample.three "" Sample.noneFails
              CONCURRENCY_LIMIT p (runSchedule_rtc _ _ _ _ _ _ _ E))
    as (Hbound & Hsum & _ & _).
  vm_compute in E. injection E as <-.
  split; [reflexivity|]. split; [reflexivity|]. split; [reflexivity|].
  split; [exact Hbound | exact Hsum].
Defined.

Lemma startWorkers_quiet (n : nat) (p : Pool) :
  apiCalls (startWorkers n p) = apiCalls p /\
  completedCount (startWorkers n p) = completedCount p.
Proof.
  revert p. induction n as [|n IH]; intros p; simpl; [split; reflexivity|].
  destruct (enterLoop p) as [w p'] eqn:He.
  match goal with |- context [startWorkers n ?x] => destruct (IH x) as [-> ->] end.
  unfold enterLoop in He.
  destruct (questionQueue p); injection He as _ <-; split; reflexivity.
Qed.

Lemma resume_calls (notesData : ParsedNotes.t) (questions : list Question.t)
    (customInstructions : string) (backend : nat -> Backend) (w : nat)
    (p p' : Pool) :
  resume notesData questions customInstructions backend w p = Some p' ->
  exists k q,
    apiCalls p' =
      apiCalls p ++ snd (processSingleQuestion (backend k) notesData q customInstructions) /\
    completedCount p' = S (completedCount p).
Proof.
  unfold resume. destruct (workers p !! w) as [[k q|]|]; try discriminate.
  unfold enterLoop. cbn [questionQueue].
  destruct (questionQueue p); intros [= <-]; exists k, q; split; reflexivity.
Qed.

Lemma processSingleQuestion_calls_length (b : Backend) (notesData : ParsedNotes.t)
    (questionObj : Question.t) (customInstructions : string) :
  1 <= length (snd (processSingleQuestion b notesData questionObj customInstructions))
    <= 3.
Proof.
  destruct (processSingleQuestion_stages b notesData questionObj customInstructions)
    as [(r & -> & _) | (r & needs & [(-> & _) | (resp & fullText & u & calls & _ & Himg & -> & _)])];
    cbn [snd length]; [lia | lia |].
  destruct (resolveImageUrl_cases b notesData (snd (parseAiResponse fullText)))
    as [(u' & Hu & _) | (d & u' & invoked & _ & _ & _ & _ & _ & Hu & _)];
    rewrite Hu in Himg; injection Himg as _ <-; cbn [length]; lia.
Qed.

(** The calls of the questions completed so far. *)
Lemma completed_calls (notesData : ParsedNotes.t)
    (questions : list Question.t) (customInstructions : string)
    (backend : nat -> Backend) (poolSize : nat) (p : Pool) :
  rtc (step notesData questions customInstructions backend)
      (initialPool questions poolSize) p ->
  completedCount p <= length (apiCalls p) <= 3 * completedCount p.
Proof.
  intros Hrun.
  refine (rtc_ind_r
            (fun p => completedCount p <= length (apiCalls p) <= 3 * completedCount p)
            (initialPool questions poolSize) _ _ p Hrun).
  - unfold initialPool.
    destruct (startWorkers_quiet poolSize (MkPool questions 0 ∅ 0 [] [] []))
      as [-> ->]. simpl. lia.
  - intros p1 p2 _ [w Hstep] IH.
    destruct (resume_calls _ _ _ _ _ _ _ Hstep) as (k & q & -> & ->).
    rewrite length_app.
    pose proof (processSingleQuestion_calls_length (backend k) notesData q
                  customInstructions) as Hb.
    lia.
Qed.

(** X14. A run over N questions issues at least N and at most 3N wrapped
    backend calls: one to three for each question. *)
Theorem pool_call_budget (notesData : ParsedNotes.t)
    (questions : list Question.t) (customInstructions : string)
    (backend : nat -> Backend) (poolSize : nat)
    (results : list (option Result.t)) (progress : list (nat * nat))
    (calls : list ApiCall) :
  1 <= poolSize ->
  poolReturns notesData questions customInstructions backend poolSize
              results progress calls ->
  length questions <= length calls <= 3 * length questions.
Proof.
  intros Hsize (p & Hp & _ & _ & <-).
  destruct (finalPool_counts _ _ _ _ _ p Hsize Hp) as (_ & _ & Hcc).
  destruct Hp as [Hrun _].
  pose proof (completed_calls _ _ _ _ _ p Hrun). lia.
Qed.

Lemma pool_call_budget_witness :
  exists results progress calls,
    generateAnswers Sample.notes Sample.three "" Sample.secondFails
                    results progress calls /\
    length calls = 6 /\
    3 <= length calls <= 9.
Proof.
  pose proof (schedule_returns Sample.notes Sample.three ""
                Sample.secondFails CONCURRENCY_LIMIT [0; 1; 0]) as Hrun.
  destruct (runSchedule _ _ _ _ _ _) as [p|] eqn:E; [|vm_compute in E; discriminate E].
  vm_compute in E. injection E as <-.
  specialize (Hrun _ eq_refl eq_refl).
  assert (Hsize : 1 <= CONCURRENCY_LIMIT) by (unfold CONCURRENCY_LIMIT; lia).
  eexists _, _, _. split; [exact Hrun|]. split; [reflexivity|].
  exact (pool_call_budget _ _ _ _ _ _ _ _ Hsize Hrun).
Defined.

(** ** The re-sort of the caller *)

Lemma findIndexFrom_lookup (questions : list Question.t) (i : Z) (k : nat)
    (q : Question.t) :
  questions !! k = Some q ->
  (forall k' q', questions !! k' = Some q' ->
                 Question.text q' = Question.text q -> k' = k) ->
  findIndexFrom i questions (Question.text q) = (i + Z.of_nat k)%Z.
Proof.
  revert i k. induction questions as [|q0 questions IH]; intros i k Hk Hu;
    [discriminate Hk|].
  cbn [findIndexFrom]. destruct (String.eqb_spec (Question.text q0) (Question.text q))
    as [Heq|Hne].
  - rewrite <- (Hu 0 q0 eq_refl Heq). lia.
  - destruct k as [|k]; [injection Hk as ->; congruence|].
    rewrite (IH (i + 1)%Z k Hk); [lia|].
    intros k' q' Hk' Ht. specialize (Hu (S k') q' Hk' Ht). lia.
Qed.

Lemma insertSorted_head {A : Type} (compare : A -> A -> Z) (x : A) (l : list A) :
  (forall y, head l = Some y -> (compare x y <= 0)%Z) ->
  insertSorted compare x l = x :: l.
Proof.
  destruct l as [|y l]; [reflexivity|]. intros H. cbn [insertSorted].
  specialize (H y eq_refl). destruct (Z.gtb_spec (compare x y) 0); [lia | reflexivity].
Qed.

(** A list whose elements already stand in the order of the comparator is
    left as it is. *)
Lemma sortBy_ordered {A : Type} (compare : A -> A -> Z) (l : list A) :
  (forall i x y, l !! i = Some x -> l !! S i = Some y -> (compare x y <= 0)%Z) ->
  sortBy compare l = l.
Proof.
  induction l as [|x l IH]; intros Hord; [reflexivity|].
  cbn [sortBy fold_right]. fold (sortBy compare l).
  rewrite IH by (intros i a b Ha Hb; apply (Hord (S i) a b Ha Hb)).
  apply insertSorted_head. intros y Hy.
  destruct l as [|y' l]; [discriminate Hy|]. injection Hy as ->.
  apply (Hord 0 x y eq_refl eq_refl).
Qed.

(** X15. When the texts of the questions are pairwise different, the
    results of the pool are all defined and already stand in the order of
    the questions: the re-sort that the caller applies to them changes
    nothing. *)
Theorem resort_changes_nothing (notesData : ParsedNotes.t)
    (questions : list Question.t) (customInstructions : string)
    (backend : nat -> Backend) (poolSize : nat)
    (results : list (option Result.t)) (progress : list (nat * nat))
    (calls : list ApiCall) :
  1 <= poolSize ->
  NoDup (Question.text <$> questions) ->
  poolReturns notesData questions customInstructions backend poolSize
              results progress calls ->
  exists generatedResults,
    results = Some <$> generatedResults /\
    resort questions generatedResults = generatedResults.
Proof.
  intros Hsize Hnd (p & Hp & <- & _).
  rewrite (finalPool_distinct _ _ _ _ _ p Hsize Hnd Hp).
  exists (imap (storedResult notesData customInstructions backend) questions).
  split.
  { apply list_eq. intros j.
    rewrite list_lookup_fmap, !list_lookup_imap.
    destruct (questions !! j); reflexivity. }
  apply sortBy_ordered. intros i x y Hx Hy.
  rewrite list_lookup_imap in Hx, Hy.
  destruct (questions !! i) as [qi|] eqn:Hi; [|discriminate Hx].
  destruct (questions !! S i) as [qj|] eqn:Hj; [|discriminate Hy].
  injection Hx as <-. injection Hy as <-.
  unfold byQuestionOrder, findIndex.
  destruct (storedResult_spec notesData customInstructions backend i qi)
    as (_ & -> & _).
  destruct (storedResult_spec notesData customInstructions backend (S i) qj)
    as (_ & -> & _).
  rewrite (findIndexFrom_lookup questions 0 i qi Hi)
    by (intros k' q' Hk' Ht; exact (distinct_texts_unique questions i Hnd qi Hi k' q' Hk' Ht)).
  rewrite (findIndexFrom_lookup questions 0 (S i) qj Hj)
    by (intros k' q' Hk' Ht; exact (distinct_texts_unique questions (S i) Hnd qj Hj k' q' Hk' Ht)).
  lia.
Qed.

Lemma resort_changes_nothing_witness :
  exists results progress calls,
    generateAnswers Sample.notes Sample.three "" Sample.secondFails
                    results progress calls /\
    exists generatedResults,
      results = Some <$> generatedResults /\
      resort Sample.three generatedResults = generatedResults.
Proof.
  pose proof (schedule_returns Sample.notes Sample.three ""
                Sample.secondFails CONCURRENCY_LIMIT [1; 0; 1]) as Hrun.
  destruct (runSchedule _ _ _ _ _ _) as [p|] eqn:E; [|vm_compute in E; discriminate E].
  vm_compute in E. injection E as <-.
  specialize (Hrun _ eq_refl eq_refl).
  assert (Hsize : 1 <= CONCURRENCY_LIMIT) by (unfold CONCURRENCY_LIMIT; lia).
  assert (Hnd : NoDup (Question.text <$> Sample.three))
    by (apply (bool_decide_unpack _); vm_compute; exact I).
  eexists _, _, _. split; [exact Hrun|].
  exact (resort_changes_nothing _ _ _ _ _ _ _ _ Hsize Hnd Hrun).
Defined.

(** ** More on the PDF parser *)

Lemma string_app_assoc (a b c : string) : (a +:+ b) +:+ c = a +:+ (b +:+ c).
Proof.
  induction a as [|x a IH]; [reflexivity|].
  change (String x ((a +:+ b) +:+ c) = String x (a +:+ (b +:+ c))).
  rewrite IH. reflexivity.
Qed.

Lemma collectPages_fst (dom : Dom) (pages : list PdfPage) (fullText : string)
    (images : list ImagePart.t) :
  fst (collectPages dom pages fullText images)
  = fullText +:+ fold_right (fun page rest => pageTextOf page +:+ Js.nl +:+ rest)
                            EmptyString pages.
Proof.
  revert fullText images. induction pages as [|page pages IH]; intros fullText images.
  - cbn [collectPages fold_right fst].
    induction fullText as [|c s IHs]; [reflexivity|].
    change (String c s = String c (s +:+ "")). rewrite <- IHs. reflexivity.
  - cbn [collectPages fold_right]. rewrite IH.
    rewrite !string_app_assoc. reflexivity.
Qed.

Lemma collectPages_snd (dom : Dom) (pages : list PdfPage) (fullText : string)
    (images : list ImagePart.t) :
  snd (collectPages dom pages fullText images)
  = images ++ flat_map (fun page => embeddedImages dom page ++
                                   scanFallback dom page (pageTextOf page)) pages.
Proof.
  revert fullText images. induction pages as [|page pages IH]; intros fullText images.
  - cbn [collectPages flat_map snd]. rewrite app_nil_r. reflexivity.
  - cbn [collectPages flat_map]. rewrite IH, <- !app_assoc. reflexivity.
Qed.

(** X17. The text of a parsed PDF is the text of its pages in page order,
    the items of a page joined by one space and every page closed by a line
    feed; it depends neither on the canvas nor on the images. *)
Theorem parsePdf_text (dom : Dom) (pages : list PdfPage) :
  ParsedNotes.text (parsePdf dom pages)
  = fold_right (fun page rest => Js.join " " (textItems page) +:+ Js.nl +:+ rest)
               EmptyString pages.
Proof.
  unfold parsePdf.
  pose proof (collectPages_fst dom pages EmptyString []) as Hfst.
  destruct (collectPages dom pages EmptyString []) as [fullText images].
  cbn [fst] in Hfst. cbn [ParsedNotes.text]. rewrite Hfst. reflexivity.
Qed.

Lemma embeddedImages_no_context (dom : Dom) (page : PdfPage) :
  getContext2d dom = false -> embeddedImages dom page = [].
Proof.
  intros Hctx. unfold embeddedImages.
  induction (operators page) as [|op ops IH]; [reflexivity|].
  cbn [flat_map]. rewrite IH, app_nil_r.
  destruct op as [imgKey|]; [|reflexivity].
  destruct (objs page imgKey) as [[imgData|]|]; try reflexivity.
  destruct (img_data imgData) as [bytes|]; [|reflexivity].
  unfold imageDataToBase64. rewrite Hctx. reflexivity.
Qed.

(** X18. Where the canvas gives no 2D context, a PDF yields no image at
    all: embedded images are dropped as well as renders. *)
Theorem parsePdf_without_context (dom : Dom) (pages : list PdfPage) :
  getContext2d dom = false ->
  ParsedNotes.images (parsePdf dom pages) = [].
Proof.
  intros Hctx. rewrite parsePdf_images, collectPages_snd. cbn [app].
  replace (flat_map _ pages) with (@nil ImagePart.t); [reflexivity|].
  induction pages as [|page pages IH]; [reflexivity|].
  cbn [flat_map]. rewrite <- IH, app_nil_r.
  rewrite (embeddedImages_no_context dom page Hctx).
  unfold scanFallback. rewrite Hctx.
  destruct (_ <? _)%nat; reflexivity.
Qed.

Lemma parsePdf_without_context_witness :
  ParsedNotes.images
    (parsePdf Sample.noCanvas [Sample.scannedPage; SamplePdf.textPage]) = [].
Proof.
  apply (parsePdf_without_context Sample.noCanvas
           [Sample.scannedPage; SamplePdf.textPage]).
  reflexivity.
Defined.

(** X19. Pages with a text layer of at least 100 characters, white space
    at the ends not counted, are never rendered: the images of such a
    document are the embedded images of its pages, de-duplicated. *)
Theorem text_pages_are_not_rendered (dom : Dom) (pages : list PdfPage) :
  (forall page, In page pages ->
     (100 <= String.length (Js.trim (Js.join " " (textItems page))))%nat) ->
  snd (collectPages dom pages EmptyString []) = flat_map (embeddedImages dom) pages /\
  ParsedNotes.images (parsePdf dom pages)
  = uniqueImages (flat_map (embeddedImages dom) pages).
Proof.
  intros Hlong.
  assert (Hsnd : snd (collectPages dom pages EmptyString [])
                 = flat_map (embeddedImages dom) pages).
  { rewrite collectPages_snd. cbn [app].
    induction pages as [|page pages IH]; [reflexivity|].
    cbn [flat_map]. rewrite IH by (intros pg Hpg; apply Hlong; right; exact Hpg).
    unfold scanFallback, pageTextOf.
    assert (Hge : (String.length (Js.trim (Js.join " " (textItems page))) <? 100)%nat
                  = false).
    { apply Nat.ltb_ge. apply Hlong. left. reflexivity. }
    rewrite Hge, app_nil_r. reflexivity. }
  split; [exact Hsnd|]. rewrite parsePdf_images, Hsnd. reflexivity.
Qed.

Lemma text_pages_are_not_rendered_witness :
  ParsedNotes.images (parsePdf Sample.canvas [SamplePdf.textPage])
  = [ImagePart.mk Sample.embeddedPayload "image/jpeg"].
Proof.
  rewrite (proj2 (text_pages_are_not_rendered Sample.canvas [SamplePdf.textPage]
                    ltac:(intros page [<- | []]; vm_compute; lia))).
  reflexivity.
Defined.

Lemma mapSet_fresh {V : Type} (key : string) (v : V) (m : list (string * V)) :
  ~ In key (List.map fst m) -> mapSet key v m = m ++ [(key, v)].
Proof.
  induction m as [|[k x] m IH]; intros Hfresh; [reflexivity|].
  cbn [mapSet]. destruct (String.eqb_spec k key) as [->|Hne].
  - exfalso. apply Hfresh. left. reflexivity.
  - rewrite IH by (intros H; apply Hfresh; right; exact H). reflexivity.
Qed.

Lemma newMap_distinct {V : Type} (entries acc : list (string * V)) :
  List.NoDup (List.map fst (acc ++ entries)) ->
  fold_left (fun m e => mapSet (fst e) (snd e) m) entries acc = acc ++ entries.
Proof.
  revert acc. induction entries as [|[k x] entries IH]; intros acc Hnd.
  - rewrite app_nil_r. reflexivity.
  - cbn [fold_left fst snd].
    replace (acc ++ (k, x) :: entries) with ((acc ++ [(k, x)]) ++ entries) in *
      by (rewrite <- app_assoc; reflexivity).
    rewrite mapSet_fresh; [apply IH; exact Hnd|].
    rewrite !List.map_app in Hnd. cbn [List.map fst] in Hnd.
    apply List.NoDup_app_remove_r in Hnd.
    apply List.NoDup_remove_2 in Hnd. rewrite app_nil_r in Hnd. exact Hnd.
Qed.

(** X20. When the payloads of the collected images differ pairwise within
    their first 100 characters, the de-duplication drops nothing: the
    images of the document are the embedded images and the render of each
    page, page by page. *)
Theorem distinct_images_are_kept (dom : Dom) (pages : list PdfPage) :
  let collected :=
    flat_map (fun page => embeddedImages dom page ++
                          scanFallback dom page (Js.join " " (textItems page)))
             pages in
  List.NoDup (List.map (fun img => Js.substring0 100 (ImagePart.data img)) collected) ->
  ParsedNotes.images (parsePdf dom pages) = collected.
Proof.
  intros collected Hnd. rewrite parsePdf_images, collectPages_snd. cbn [app].
  change (uniqueImages collected = collected). unfold uniqueImages, newMap.
  rewrite (newMap_distinct (List.map (fun img => (imageKey img, img)) collected) []).
  - cbn [app]. rewrite List.map_map. cbn [snd]. apply List.map_id.
  - cbn [app]. rewrite List.map_map. exact Hnd.
Qed.

Lemma distinct_images_are_kept_witness :
  ParsedNotes.images (parsePdf Sample.canvas [SamplePdf.photoPage])
  = [ImagePart.mk Sample.embeddedPayload "image/jpeg";
     ImagePart.mk "QUJD" "image/jpeg"].
Proof.
  rewrite (distinct_images_are_kept Sample.canvas [SamplePdf.photoPage]).
  - reflexivity.
  - vm_compute. constructor; [intros [H | []]; discriminate H|].
    constructor; [intros []|]. constructor.
Defined.

Lemma rgbToRgba_pixels (n : nat) (rgb : list Z) :
  length rgb = 3 * n ->
  length (rgbToRgba rgb) = 4 * n /\
  forall i, i < n ->
    nth_error (rgbToRgba rgb) (4 * i) = nth_error rgb (3 * i) /\
    nth_error (rgbToRgba rgb) (4 * i + 1) = nth_error rgb (3 * i + 1) /\
    nth_error (rgbToRgba rgb) (4 * i + 2) = nth_error rgb (3 * i + 2) /\
    nth_error (rgbToRgba rgb) (4 * i + 3) = Some 255%Z.
Proof.
  revert rgb. induction n as [|n IH]; intros rgb Hlen.
  - destruct rgb; [|discriminate Hlen]. split; [reflexivity|]. intros i Hi. lia.
  - destruct rgb as [|r [|g [|b rest]]]; try (simpl in Hlen; lia).
    assert (Hrest : length rest = 3 * n) by (simpl in Hlen; lia).
    destruct (IH rest Hrest) as [Hl Hpix].
    cbn [rgbToRgba]. split; [cbn [length]; lia|].
    intros [|i] Hi.
    + repeat split; reflexivity.
    + destruct (Hpix i ltac:(lia)) as (H0 & H1 & H2 & H3).
      replace (4 * S i) with (S (S (S (S (4 * i))))) by lia.
      replace (3 * S i) with (S (S (S (3 * i)))) by lia.
      cbn [nth_error Nat.add]. auto.
Qed.

(** X21. Of an embedded image given as RGB triples, [imageDataToBase64]
    puts on the canvas exactly [width * height * 4] bytes: the three colour
    bytes of every pixel unchanged, followed by the alpha value 255; what it
    returns is the part of the JPEG data URL of that canvas after the first
    comma. *)
Theorem rgb_image_is_made_opaque (dom : Dom) (imageData : ImageObject)
    (bytes : list Z) :
  getContext2d dom = true ->
  length bytes = img_width imageData * img_height imageData * 3 ->
  exists rgba,
    length rgba = img_width imageData * img_height imageData * 4 /\
    (forall i, i < img_width imageData * img_height imageData ->
       nth_error rgba (4 * i) = nth_error bytes (3 * i) /\
       nth_error rgba (4 * i + 1) = nth_error bytes (3 * i + 1) /\
       nth_error rgba (4 * i + 2) = nth_error bytes (3 * i + 2) /\
       nth_error rgba (4 * i + 3) = Some 255%Z) /\
    imageDataToBase64 dom imageData bytes =
      match jpegDataURL dom (img_width imageData) (img_height imageData) rgba with
      | Resolved url => Resolved (nth_error (Js.split "," url) 1)
      | Rejected e => Rejected e
      end.
Proof.
  intros Hctx Hlen.
  destruct (rgbToRgba_pixels (img_width imageData * img_height imageData) bytes)
    as [Hl Hpix]; [lia|].
  exists (rgbToRgba bytes). split; [lia|]. split; [exact Hpix|].
  unfold imageDataToBase64. rewrite Hctx. cbn [negb].
  apply Nat.eqb_eq in Hlen. rewrite Hlen. reflexivity.
Qed.

Lemma rgb_image_is_made_opaque_witness :
  imageDataToBase64 Sample.canvas
    {| img_width := 1; img_height := 2; img_data := Some [1; 2; 3; 4; 5; 6]%Z |}
    [1; 2; 3; 4; 5; 6]%Z
  = Resolved (Some Sample.embeddedPayload) /\
  exists rgba,
    length rgba = 8 /\
    nth_error rgba 3 = Some 255%Z /\ nth_error rgba 7 = Some 255%Z /\
    nth_error rgba 4 = Some 4%Z.
Proof.
  split; [reflexivity|].
  destruct (rgb_image_is_made_opaque Sample.canvas
              {| img_width := 1; img_height := 2;
                 img_data := Some [1; 2; 3; 4; 5; 6]%Z |}
              [1; 2; 3; 4; 5; 6]%Z eq_refl eq_refl)
    as (rgba & Hl & Hpix & _).
  exists rgba. split; [exact Hl|].
  destruct (Hpix 0 ltac:(simpl; lia)) as (_ & _ & _ & H03).
  destruct (Hpix 1 ltac:(simpl; lia)) as (H10 & _ & _ & H13).
  split; [exact H03|]. split; [exact H13|]. exact H10.
Defined.

(** ** Data URLs *)

Lemma allChars_app (P : ascii -> bool) (a b : string) :
  Js.allChars P (a +:+ b) = Js.allChars P a && Js.allChars P b.
Proof.
  induction a as [|c a IH]; [reflexivity|].
  change (String c a +:+ b) with (String c (a +:+ b)).
  cbn [Js.allChars]. rewrite IH, andb_assoc. reflexivity.
Qed.

Lemma split_whole (sep : ascii) (s : string) :
  Js.allChars (fun c => negb (Ascii.eqb c sep)) s = true -> Js.split sep s = [s].
Proof.
  induction s as [|c s IH]; [reflexivity|].
  cbn [Js.allChars Js.split]. intros H. apply andb_true_iff in H as [Hc Hs].
  apply negb_true_iff in Hc. rewrite Hc, (IH Hs). reflexivity.
Qed.

Lemma split_app (sep : ascii) (a b : string) :
  Js.allChars (fun c => negb (Ascii.eqb c sep)) a = true ->
  Js.split sep (a +:+ String sep b) = a :: Js.split sep b.
Proof.
  induction a as [|c a IH]; intros H.
  - change (EmptyString +:+ String sep b) with (String sep b).
    cbn [Js.split]. rewrite Ascii.eqb_refl. reflexivity.
  - cbn [Js.allChars] in H. apply andb_true_iff in H as [Hc Hs].
    apply negb_true_iff in Hc.
    change (String c a +:+ String sep b) with (String c (a +:+ String sep b)).
    cbn [Js.split]. rewrite Hc, (IH Hs). reflexivity.
Qed.

Lemma dataUri_split (mimeType data : string) :
  commaFree mimeType = true ->
  Js.split "," (dataUri mimeType data)
  = ("data:" +:+ mimeType +:+ ";base64") :: Js.split "," data.
Proof.
  intros Hm. unfold dataUri.
  replace ("data:" +:+ mimeType +:+ ";base64," +:+ data)
    with (("data:" +:+ mimeType +:+ ";base64") +:+ String "," data).
  - apply split_app. rewrite !allChars_app. unfold commaFree in Hm.
    rewrite Hm. reflexivity.
  - rewrite !string_app_assoc. reflexivity.
Qed.

(** X22. A data URL built from a MIME type and a payload that hold no
    comma is taken apart again by the exporter: the bytes [base64ToBuffer]
    returns for it are the decoded payload, and it fails only where [atob]
    rejects the payload. *)
Theorem base64ToBuffer_dataUri (atob : string -> Outcome string)
    (mimeType data : string) :
  commaFree mimeType = true ->
  commaFree data = true ->
  base64ToBuffer atob ("data:" +:+ mimeType +:+ ";base64," +:+ data)
  = match atob data with
    | Resolved binaryStr =>
        Resolved (List.map nat_of_ascii (list_ascii_of_string binaryStr))
    | Rejected e => Rejected e
    end.
Proof.
  intros Hm Hd. unfold base64ToBuffer.
  change ("data:" +:+ mimeType +:+ ";base64," +:+ data) with (dataUri mimeType data).
  rewrite (dataUri_split mimeType data Hm), (split_whole "," data Hd).
  reflexivity.
Qed.

Lemma base64ToBuffer_dataUri_witness :
  base64ToBuffer (fun s => if String.eqb s "QUJD" then Resolved "ABC"
                           else Rejected (newError "InvalidCharacterError"))
                 "data:image/jpeg;base64,QUJD"
  = Resolved [65; 66; 67].
Proof.
  rewrite (base64ToBuffer_dataUri _ "image/jpeg" "QUJD" eq_refl eq_refl).
  reflexivity.
Defined.

(** ** The other parsers *)

Lemma string_app_nil_r (s : string) : s +:+ EmptyString = s.
Proof.
  induction s as [|c s IH]; [reflexivity|].
  change (String c (s +:+ "") = String c s). rewrite IH. reflexivity.
Qed.

Lemma parseNoteFilesFrom_all (dom : Dom) (files : list File)
    (parsed : list RawNotes.t) (combinedText : string) (allImages : list NoteImage.t) :
  Forall2 (fun file notes => parseFile dom file = Resolved notes) files parsed ->
  parseNoteFilesFrom dom files combinedText allImages
  = Resolved
      (RawNotes.mk
         (combinedText +:+
          fold_right (fun notes rest => RawNotes.text notes +:+ notesSeparator +:+ rest)
                     EmptyString parsed)
         (allImages ++ flat_map RawNotes.images parsed)).
Proof.
  intros Hall. revert combinedText allImages.
  induction Hall as [|file notes files parsed Hfile _ IH]; intros combinedText allImages.
  - cbn [parseNoteFilesFrom fold_right flat_map].
    rewrite string_app_nil_r, app_nil_r. reflexivity.
  - cbn [parseNoteFilesFrom fold_right flat_map]. rewrite Hfile, IH.
    rewrite !string_app_assoc, <- app_assoc. reflexivity.
Qed.

(** X23. When every note file is parsed, [parseNoteFiles] resolves with
    the texts of the files in their order, each followed by the separator
    line, and with the images of the files in their order, none dropped:
    images are not de-duplicated across files. *)
Theorem parseNoteFiles_joins (dom : Dom) (files : list File)
    (parsed : list RawNotes.t) :
  Forall2 (fun file notes => parseFile dom file = Resolved notes) files parsed ->
  parseNoteFiles dom files
  = Resolved
      (RawNotes.mk
         (fold_right (fun notes rest =>
                        RawNotes.text notes +:+
                        (Js.nl +:+ Js.nl +:+ "---" +:+ Js.nl +:+ Js.nl) +:+ rest)
                     EmptyString parsed)
         (flat_map RawNotes.images parsed)).
Proof.
  intros Hall. unfold parseNoteFiles.
  rewrite (parseNoteFilesFrom_all dom files parsed EmptyString [] Hall).
  reflexivity.
Qed.

Lemma parseNoteFiles_joins_witness :
  parseNoteFiles Sample.canvas
    [SampleFiles.plain "a.txt" "Alpha";
     SampleFiles.pdf "b.pdf" [Sample.blankPage];
     SampleFiles.pdf "c.pdf" [Sample.blankPage]]
  = Resolved
      (RawNotes.mk
         ("Alpha" +:+ notesSeparator +:+ Js.nl +:+ notesSeparator +:+
          Js.nl +:+ notesSeparator)
         [NoteImage.mk (Some Sample.renderedPayload) "image/jpeg";
          NoteImage.mk (Some Sample.renderedPayload) "image/jpeg"]).
Proof.
  rewrite (parseNoteFiles_joins Sample.canvas _
             [RawNotes.mk "Alpha" [];
              ofParsedNotes (parsePdf Sample.canvas [Sample.blankPage]);
              ofParsedNotes (parsePdf Sample.canvas [Sample.blankPage])]).
  - reflexivity.
  - repeat constructor.
Defined.

Lemma parseNoteFilesFrom_failure (dom : Dom) (before after : list File)
    (parsed : list RawNotes.t) (file : File) (error : JsError)
    (combinedText : string) (allImages : list NoteImage.t) :
  Forall2 (fun file notes => parseFile dom file = Resolved notes) before parsed ->
  parseFile dom file = Rejected error ->
  parseNoteFilesFrom dom (before ++ file :: after) combinedText allImages
  = Rejected (newError ("Failed to process " +:+ fileName file +:+
                        ". It may be corrupted.")).
Proof.
  intros Hall Hfile. revert combinedText allImages.
  induction Hall as [|f notes fs ps Hf _ IH]; intros combinedText allImages.
  - cbn [app parseNoteFilesFrom]. rewrite Hfile. reflexivity.
  - cbn [app parseNoteFilesFrom]. rewrite Hf. apply IH.
Qed.

(** X24. The first note file that cannot be parsed fails the whole call:
    [parseNoteFiles] rejects with an [Error] that names this file, whatever
    the error of the parser was; nothing of the files parsed before it is
    returned and the files after it do not matter. *)
Theorem parseNoteFiles_first_failure (dom : Dom) (before after : list File)
    (parsed : list RawNotes.t) (file : File) (error : JsError) :
  Forall2 (fun file notes => parseFile dom file = Resolved notes) before parsed ->
  parseFile dom file = Rejected error ->
  parseNoteFiles dom (before ++ file :: after)
  = Rejected (ErrorObject ("Failed to process " +:+ fileName file +:+
                           ". It may be corrupted.") None).
Proof.
  intros Hall Hfile.
  exact (parseNoteFilesFrom_failure dom before after parsed file error
           EmptyString [] Hall Hfile).
Qed.

Lemma parseNoteFiles_first_failure_witness :
  parseNoteFiles Sample.canvas
    [SampleFiles.plain "a.txt" "Alpha"; SampleFiles.broken "b.pdf";
     SampleFiles.plain "c.txt" "Gamma"]
  = Rejected (ErrorObject "Failed to process b.pdf. It may be corrupted." None).
Proof.
  apply (parseNoteFiles_first_failure Sample.canvas
           [SampleFiles.plain "a.txt" "Alpha"] [SampleFiles.plain "c.txt" "Gamma"]
           [RawNotes.mk "Alpha" []] (SampleFiles.broken "b.pdf")
           (newError "Invalid PDF structure")).
  - repeat constructor.
  - reflexivity.
Defined.

Lemma pdf_text_fold (pages : list PdfPage) (textContent : string) :
  fold_left (fun textContent page =>
               (textContent +:+ Js.join " " (textItems page)) +:+ Js.nl)
            pages textContent
  = textContent +:+
    fold_right (fun page rest => Js.join " " (textItems page) +:+ Js.nl +:+ rest)
               EmptyString pages.
Proof.
  revert textContent. induction pages as [|page pages IH]; intros textContent.
  - cbn [fold_left fold_right]. rewrite string_app_nil_r. reflexivity.
  - cbn [fold_left fold_right]. rewrite IH, !string_app_assoc. reflexivity.
Qed.

(** X25. A PDF (by its MIME type) or a file read as plain text gives the
    same text as a question bank and as a note file: whenever the parser of
    the notes succeeds on it, [extractTextFromFile] resolves with the text
    of the parsed notes. *)
Theorem extractTextFromFile_agrees (dom : Dom) (file : File) (notes : RawNotes.t) :
  fileType file = "application/pdf" \/ isDocx file = false ->
  parseFile dom file = Resolved notes ->
  extractTextFromFile file = Resolved (RawNotes.text notes).
Proof.
  intros Hkind. unfold parseFile, extractTextFromFile, pdfType.
  destruct (arrayBuffer file) as [buffer|e]; [|discriminate].
  destruct (String.eqb_spec (fileType file) "application/pdf") as [Hpdf|Hpdf].
  - destruct (pdfPages file) as [pages|e]; [|discriminate].
    intros [= <-]. cbn [ofParsedNotes RawNotes.text]. unfold parsePdf.
    pose proof (collectPages_fst dom pages EmptyString []) as Hfst.
    destruct (collectPages dom pages EmptyString []) as [fullText images].
    cbn [fst] in Hfst. cbn [ParsedNotes.text]. rewrite Hfst, pdf_text_fold.
    reflexivity.
  - destruct Hkind as [Hkind|Hkind]; [contradiction|]. rewrite Hkind.
    unfold parseTextFile. destruct (readAsText file) as [t|e]; [|discriminate].
    intros [= <-]. reflexivity.
Qed.

Lemma extractTextFromFile_agrees_witness :
  extractTextFromFile (SampleFiles.pdf "q.pdf" [SamplePdf.textPage; Sample.blankPage])
  = Resolved (Sample.letters 60 +:+ " " +:+ Sample.letters 60 +:+ Js.nl +:+ Js.nl).
Proof.
  rewrite (extractTextFromFile_agrees Sample.canvas
             (SampleFiles.pdf "q.pdf" [SamplePdf.textPage; Sample.blankPage])
             (ofParsedNotes
                (parsePdf Sample.canvas [SamplePdf.textPage; Sample.blankPage]))).
  - reflexivity.
  - left. reflexivity.
  - reflexivity.
Defined.

Lemma lazyUntilSemicolon_app (mimeType rest : string) :
  Js.allChars (fun c => negb (Ascii.eqb c "," || Ascii.eqb c ";" || isLineTerminator c))
              mimeType = true ->
  lazyUntilSemicolon (mimeType +:+ String ";" rest) = Some mimeType.
Proof.
  induction mimeType as [|c s IH]; intros H; [reflexivity|].
  cbn [Js.allChars] in H. apply andb_true_iff in H as [Hc Hs].
  apply negb_true_iff in Hc. apply orb_false_iff in Hc as [Hc Hlt].
  apply orb_false_iff in Hc as [_ Hsemi].
  change (String c s +:+ String ";" rest) with (String c (s +:+ String ";" rest)).
  cbn [lazyUntilSemicolon]. rewrite Hsemi, Hlt, (IH Hs). reflexivity.
Qed.

Lemma allChars_impl (P Q : ascii -> bool) (s : string) :
  (forall c, P c = true -> Q c = true) ->
  Js.allChars P s = true -> Js.allChars Q s = true.
Proof.
  intros HPQ. induction s as [|c s IH]; [reflexivity|].
  cbn [Js.allChars]. intros H. apply andb_true_iff in H as [Hc Hs].
  rewrite (HPQ c Hc), (IH Hs). reflexivity.
Qed.

(** X26. An image of a Word document whose [src] is a base64 data URL with
    a plain MIME type, and a payload without comma, is taken over with this
    MIME type and this payload, so that the data URL the answer stage builds
    for it is its [src] again. *)
Theorem docxImage_dataUri (mimeType data : string) :
  plainMimeType mimeType = true ->
  commaFree data = true ->
  docxImage (Some ("data:" +:+ mimeType +:+ ";base64," +:+ data))
  = [NoteImage.mk (Some data) mimeType].
Proof.
  intros Hm Hd. unfold plainMimeType in Hm. apply andb_true_iff in Hm as [Ht Hm].
  assert (Hcomma : commaFree mimeType = true).
  { unfold commaFree. revert Hm. apply allChars_impl. intros c Hc.
    apply negb_true_iff in Hc. apply orb_false_iff in Hc as [Hc _].
    apply orb_false_iff in Hc as [Hc _]. rewrite Hc. reflexivity. }
  unfold docxImage.
  change (Js.truthy ("data:" +:+ mimeType +:+ ";base64," +:+ data)) with true.
  unfold Js.startsWith. rewrite (prefix_app "data:" (mimeType +:+ ";base64," +:+ data)).
  cbn [andb].
  change ("data:" +:+ mimeType +:+ ";base64," +:+ data) with (dataUri mimeType data).
  rewrite (dataUri_split mimeType data Hcomma), (split_whole "," data Hd).
  cbn [hd nth_error].
  change (matchMimeType ("data:" +:+ mimeType +:+ ";base64"))
    with (match lazyUntilSemicolon (mimeType +:+ String ";" "base64") with
          | Some group => Some group
          | None => matchMimeType (mimeType +:+ String ";" "base64")
          end).
  rewrite (lazyUntilSemicolon_app mimeType "base64" Hm), Ht. reflexivity.
Qed.

Lemma docxImage_dataUri_witness :
  parseDocx {| imgSources := [Some "data:image/gif;base64,R0lG"; None;
                              Some "https://example.org/a.png"];
               innerText := "Notes" |}
  = RawNotes.mk "Notes" [NoteImage.mk (Some "R0lG") "image/gif"].
Proof.
  unfold parseDocx. cbn [imgSources innerText flat_map].
  change (docxImage (Some "data:image/gif;base64,R0lG"))
    with (docxImage (Some ("data:" +:+ "image/gif" +:+ ";base64," +:+ "R0lG"))).
  rewrite (docxImage_dataUri "image/gif" "R0lG" eq_refl eq_refl).
  reflexivity.
Defined.

(** ** The extraction of the questions *)

Lemma mapQuestions_resolved (items : list Json) (questions : list ExtractedQuestion.t) :
  mapQuestions items = Resolved questions ->
  length questions = length items /\
  forall i item, items !! i = Some item ->
    questions !! i = Some (ExtractedQuestion.mk (member "questionText" item)
                                                (member "marks" item)).
Proof.
  revert questions. induction items as [|q items IH]; intros questions.
  - intros [= <-]. split; [reflexivity|]. intros i item H. discriminate H.
  - cbn [mapQuestions].
    destruct (extractedQuestion q) as [x|e] eqn:Hq; [|discriminate].
    destruct (mapQuestions items) as [xs|e]; [|discriminate].
    intros [= <-]. destruct (IH xs eq_refl) as [Hlen Hall].
    split; [cbn [length]; rewrite Hlen; reflexivity|].
    intros [|i] item Hitem.
    + injection Hitem as ->. cbn [lookup list_lookup].
      destruct item; try (injection Hq as <-; reflexivity). discriminate Hq.
    + exact (Hall i item Hitem).
Qed.

Lemma mapQuestions_null (items : list Json) :
  In JNull items ->
  mapQuestions items = Rejected (typeErrorOfNull "questionText").
Proof.
  induction items as [|q items IH]; intros Hin; [destruct Hin|].
  cbn [mapQuestions]. destruct q; try reflexivity;
    (destruct Hin as [Hq|Hin]; [discriminate Hq|]);
    cbn [extractedQuestion]; rewrite (IH Hin); reflexivity.
Qed.

(** X27. When [extractQuestionsFromFile] resolves, the list it resolves
    with is never empty, so that the check for an empty list in its caller
    can never fire; it has one question for each item of the array
    [questions] of the parsed response, in the order of the array, and the
    [text] and [marks] of a question are what the item holds under
    [questionText] and [marks]. *)
Theorem extractQuestions_resolved (jsonParse : string -> Outcome Json)
    (stringOf : JsError -> string) (jitter : nat -> Z)
    (apiCall : nat -> Outcome GenerateContentResponse)
    (questions : list ExtractedQuestion.t) :
  extractQuestionsFromFile jsonParse stringOf jitter apiCall = Resolved questions ->
  questions <> [] /\
  exists response t parsedObject items,
    settled (callApiWithRetry apiCall 3 1000 jitter) = Resolved response /\
    responseText response = Some t /\
    jsonParse (Js.trim t) = Resolved parsedObject /\
    member "questions" parsedObject = Some (JArray items) /\
    length questions = length items /\
    forall i item, items !! i = Some item ->
      questions !! i = Some (ExtractedQuestion.mk (member "questionText" item)
                                                  (member "marks" item)).
Proof.
  unfold extractQuestionsFromFile, extractQuestions_try.
  destruct (settled _) as [response|e] eqn:Hcall; [|discriminate].
  destruct (responseText response) as [t|] eqn:Htext; [|discriminate].
  destruct (jsonParse (Js.trim t)) as [parsedObject|e] eqn:Hparse; [|discriminate].
  destruct (jsonTruthy parsedObject); [|discriminate].
  destruct (member "questions" parsedObject) as [[| | | |items|]|] eqn:Hm;
    try discriminate.
  destruct items as [|q items]; [discriminate|].
  destruct (mapQuestions (q :: items)) as [qs|e] eqn:Hmap; [|discriminate].
  intros [= <-]. destruct (mapQuestions_resolved _ _ Hmap) as [Hlen Hall].
  split; [destruct qs; [discriminate Hlen | discriminate]|].
  exists response, t, parsedObject, (q :: items).
  split; [first [reflexivity | assumption]|].
  split; [first [reflexivity | assumption]|].
  split; [first [reflexivity | assumption]|].
  split; [first [reflexivity | assumption]|].
  split; [exact Hlen | exact Hall].
Qed.

Lemma extractQuestions_resolved_witness :
  extractQuestionsFromFile SampleBank.jsonParse (fun _ => EmptyString) (fun _ => 0%Z)
                           (SampleBank.answering " {two questions} ")
  = Resolved [ExtractedQuestion.mk (Some (JString "What is a cat?"))
                                   (Some (JString "5 marks"));
              ExtractedQuestion.mk (Some (JString "What is a dog?")) (Some JNull)] /\
  exists items,
    length items = 2 /\
    SampleBank.jsonParse "{two questions}" = Resolved (JObject [("questions", JArray items)]).
Proof.
  assert (Hrun : extractQuestionsFromFile SampleBank.jsonParse (fun _ => EmptyString)
                   (fun _ => 0%Z) (SampleBank.answering " {two questions} ")
                 = Resolved [ExtractedQuestion.mk (Some (JString "What is a cat?"))
                                                  (Some (JString "5 marks"));
                             ExtractedQuestion.mk (Some (JString "What is a dog?"))
                                                  (Some JNull)])
    by (vm_compute; reflexivity).
  split; [exact Hrun|].
  destruct (extractQuestions_resolved _ _ _ _ _ Hrun)
    as (_ & response & t & parsedObject & items & _ & _ & _ & _ & Hlen & _).
  eexists. split; [|reflexivity]. reflexivity.
Defined.

(** X28. Every failure of [extractQuestionsFromFile] is an [Error] without
    cause whose message is the fixed prefix followed by a description of
    what went wrong: the message of the error of the wrapped call when that
    call fails, and the fixed rate-limit message when its four invocations
    are all rate-limited. *)
Theorem extractQuestions_rejected (jsonParse : string -> Outcome Json)
    (stringOf : JsError -> string) (jitter : nat -> Z)
    (apiCall : nat -> Outcome GenerateContentResponse) :
  let result := extractQuestionsFromFile jsonParse stringOf jitter apiCall in
  let failed m :=
    Rejected (ErrorObject ("AI failed to extract questions. Original error: " +:+ m)
                          None) in
  (forall error, result = Rejected error -> exists m, result = failed m) /\
  (forall m c,
      settled (callApiWithRetry apiCall 3 1000 jitter) = Rejected (ErrorObject m c) ->
      result = failed m) /\
  (rateLimitedUpTo apiCall 4 ->
   result = failed "API rate limit exceeded after multiple retries.").
Proof.
  cbv zeta. split; [|split].
  - unfold extractQuestionsFromFile.
    destruct (extractQuestions_try jsonParse jitter apiCall) as [qs|e];
      [discriminate|].
    intros error _. eexists. reflexivity.
  - intros m c Hcall. unfold extractQuestionsFromFile, extractQuestions_try.
    rewrite Hcall. reflexivity.
  - intros Hlimited. unfold extractQuestionsFromFile, extractQuestions_try.
    pose proof (retryLoop_exhausts apiCall 3 1000 jitter ltac:(lia) Hlimited
                  3 0 eq_refl) as Hrun.
    change (retryLoop apiCall 3 1000 jitter (Z.of_nat 0) 0)
      with (callApiWithRetry apiCall 3 1000 jitter) in Hrun.
    rewrite Hrun. reflexivity.
Qed.

Lemma extractQuestions_rejected_witness :
  extractQuestionsFromFile SampleBank.jsonParse (fun _ => EmptyString) (fun _ => 0%Z)
                           (fun _ => Rejected (newError "429 Too Many Requests"))
  = Rejected (ErrorObject
                ("AI failed to extract questions. Original error: " +:+
                 "API rate limit exceeded after multiple retries.")
                None).
Proof.
  apply (proj2 (proj2 (extractQuestions_rejected SampleBank.jsonParse
                         (fun _ => EmptyString) (fun _ => 0%Z)
                         (fun _ => Rejected (newError "429 Too Many Requests"))))).
  intros i _. eexists. split; reflexivity.
Defined.

(** X29. A response that lists no question, a response that is no object
    with an array [questions], and a response with a [null] among its
    questions each fail the extraction with a message of their own; no
    question of such a response is returned. *)
Theorem extractQuestions_unusable_response (jsonParse : string -> Outcome Json)
    (stringOf : JsError -> string) (jitter : nat -> Z)
    (apiCall : nat -> Outcome GenerateContentResponse)
    (response : GenerateContentResponse) (t : string) (parsedObject : Json) :
  settled (callApiWithRetry apiCall 3 1000 jitter) = Resolved response ->
  responseText response = Some t ->
  jsonParse (Js.trim t) = Resolved parsedObject ->
  let result := extractQuestionsFromFile jsonParse stringOf jitter apiCall in
  let failed m :=
    Rejected (ErrorObject ("AI failed to extract questions. Original error: " +:+ m)
                          None) in
  (member "questions" parsedObject = Some (JArray []) ->
   result = failed "AI parsing completed, but no questions were found in the file.") /\
  ((forall items, member "questions" parsedObject <> Some (JArray items)) ->
   result = failed "Parsed JSON does not match the expected schema.") /\
  (forall items,
      member "questions" parsedObject = Some (JArray items) -> In JNull items ->
      result = failed "Cannot read properties of null (reading 'questionText')").
Proof.
  intros Hcall Htext Hparse. cbv zeta.
  unfold extractQuestionsFromFile, extractQuestions_try.
  rewrite Hcall, Htext, Hparse. split; [|split].
  - intros Hm. rewrite Hm.
    destruct parsedObject; try discriminate Hm. reflexivity.
  - intros Hnot. destruct (jsonTruthy parsedObject); [|reflexivity].
    destruct (member "questions" parsedObject) as [[| | | |items|]|];
      try reflexivity.
    exfalso. exact (Hnot items eq_refl).
  - intros items Hm Hnull. rewrite Hm.
    destruct parsedObject; try discriminate Hm. cbn [jsonTruthy].
    destruct items as [|q items]; [destruct Hnull|].
    rewrite (mapQuestions_null (q :: items) Hnull). reflexivity.
Qed.

Lemma extractQuestions_unusable_response_witness :
  extractQuestionsFromFile SampleBank.jsonParse (fun _ => EmptyString) (fun _ => 0%Z)
                           (SampleBank.answering "{no questions}")
  = Rejected (ErrorObject
                ("AI failed to extract questions. Original error: " +:+
                 "AI parsing completed, but no questions were found in the file.")
                None).
Proof.
  refine (proj1 (extractQuestions_unusable_response SampleBank.jsonParse
                   (fun _ => EmptyString) (fun _ => 0%Z)
                   (SampleBank.answering "{no questions}")
                   (Sample.textOnly "{no questions}") "{no questions}"
                   (JObject [("questions", JArray [])]) _ _ _) _);
    reflexivity.
Defined.
